(** * The guess-the-number protocol of [src/char_09/item_76.py]

    A shallow embedding of the line-oriented client/server protocol of
    item 76: the wire codec ([Connection]), the server session state
    machine ([ServerSession]), the client session driver ([ClientSession],
    [new_game]) and their coroutine twins ([AsyncConnection],
    [AsyncServerSession], [AsyncClientSession], [new_async_game]).

    Conventions of the embedding.
    - A Python [int] is a [Z]; a [str] is the list of its code points; a
      [bytes] object is a [list byte].
    - [str.encode()] and [bytes.decode()] are the strict UTF-8 codec.
    - [math.fabs] converts its integer argument to an IEEE-754 double, so it
      rounds above [2^53] and overflows near [2^1024]; the doubles that occur
      are integer valued and are represented by their exact value in [Z].
    - [random.randint] reads the next element of a fixed sequence of draws
      [rng : nat -> Z]; the position in that sequence is the state of the
      module-level generator.
    - [int()] applied to text is a parameter [int_of_str] of the model: its
      full grammar (Unicode digits, blanks, underscores) is not needed, only
      that it reads back what [str()] prints where a statement says so.
      [str()] prints every integer: the limit CPython puts on the number of
      digits of a conversion (4300) is not part of [str]; a statement that
      depends on conversions of arbitrary numbers is restricted to numbers
      within the limit ([convertible]).
    - A reader of the coroutine classes reads lines as the buffered file of
      the threaded classes does; the limit [asyncio] puts on the length of
      a line (64 KiB) is not part of [readline], and a statement about
      arbitrary bytes on that side is restricted to buffers within it.
    - A computation ends in [Ok], raises ([Raise]), waits for input that has
      not arrived ([Blocked]) or is cut off while a [while True] loop is
      still running ([Unfinished], the fuel of that loop is used up).
    - Logging and the two [sleep] delays have no effect on the protocol
      state; the delays only appear as points where the other side may run. *)

From Stdlib.Strings Require Import Byte Ascii String.
From Stdlib Require Import ZArith NArith List Bool Lia.
From Stdlib Require Import Decimal DecimalZ.
Import ListNotations.

Set Warnings "-notation-for-abbreviation".

(** ** Exceptions and outcomes *)

Definition pystr := list N.
Definition bytes := list byte.

Inductive exn : Type :=
| EOFError
| UnknownCommandError (command : pystr)
| TypeError
| ValueError
| IndexError
| OverflowError
| UnicodeEncodeError
| UnicodeDecodeError.

Inductive outcome (A : Type) : Type :=
| Ok (a : A)
| Raise (e : exn)
| Blocked
| Unfinished.

Arguments Ok {A} a.
Arguments Raise {A} e.
Arguments Blocked {A}.
Arguments Unfinished {A}.

Definition bind {A B : Type} (m : outcome A) (k : A -> outcome B) : outcome B :=
  match m with
  | Ok a => k a
  | Raise e => Raise e
  | Blocked => Blocked
  | Unfinished => Unfinished
  end.

Notation "x <- m ;; k" := (bind m (fun x => k))
  (at level 61, m at next level, right associativity).
Notation "' p <- m ;; k" := (bind m (fun x => let p := x in k))
  (at level 61, p pattern, m at next level, right associativity).

(** ** Text *)

(** A string literal of the source, as the list of its code points. *)
Definition lit (s : string) : pystr :=
  map N_of_ascii (list_ascii_of_string s).

Definition pystr_eqb (s t : pystr) : bool :=
  if list_eq_dec N.eq_dec s t then true else false.

Definition NEWLINE : N := 10.
Definition SPACE : N := 32.

(** [s.split(" ")]: cut at every single space, empty pieces kept. *)
Fixpoint split (sep : N) (s : pystr) : list pystr :=
  match s with
  | [] => [[]]
  | c :: s' =>
      if N.eqb c sep then [] :: split sep s'
      else match split sep s' with
           | w :: ws => (c :: w) :: ws
           | [] => [[c]]
           end
  end.

(** [str(n)] for an integer: the shortest decimal numeral, with a minus
    sign for a negative number. *)
Fixpoint digits (u : Decimal.uint) : pystr :=
  match u with
  | Decimal.Nil => []
  | Decimal.D0 u => 48%N :: digits u
  | Decimal.D1 u => 49%N :: digits u
  | Decimal.D2 u => 50%N :: digits u
  | Decimal.D3 u => 51%N :: digits u
  | Decimal.D4 u => 52%N :: digits u
  | Decimal.D5 u => 53%N :: digits u
  | Decimal.D6 u => 54%N :: digits u
  | Decimal.D7 u => 55%N :: digits u
  | Decimal.D8 u => 56%N :: digits u
  | Decimal.D9 u => 57%N :: digits u
  end.

Definition str (n : Z) : pystr :=
  match Z.to_int n with
  | Decimal.Pos u => digits u
  | Decimal.Neg u => 45%N :: digits u
  end.

(** A decimal reader for plain ASCII numerals, one admissible [int()]. *)
Fixpoint undigits (s : pystr) : option Decimal.uint :=
  match s with
  | [] => Some Decimal.Nil
  | c :: s' =>
      match undigits s' with
      | None => None
      | Some u =>
          if N.eqb c 48 then Some (Decimal.D0 u)
          else if N.eqb c 49 then Some (Decimal.D1 u)
          else if N.eqb c 50 then Some (Decimal.D2 u)
          else if N.eqb c 51 then Some (Decimal.D3 u)
          else if N.eqb c 52 then Some (Decimal.D4 u)
          else if N.eqb c 53 then Some (Decimal.D5 u)
          else if N.eqb c 54 then Some (Decimal.D6 u)
          else if N.eqb c 55 then Some (Decimal.D7 u)
          else if N.eqb c 56 then Some (Decimal.D8 u)
          else if N.eqb c 57 then Some (Decimal.D9 u)
          else None
      end
  end.

Definition int_ascii (s : pystr) : option Z :=
  match s with
  | [] => None
  | c :: s' =>
      if N.eqb c 45 then
        match s' with
        | [] => None
        | _ => option_map (fun u => Z.of_int (Decimal.Neg u)) (undigits s')
        end
      else option_map (fun u => Z.of_int (Decimal.Pos u)) (undigits s)
  end.

(** ** UTF-8 *)

Definition byte_of_N (n : N) : byte :=
  match Byte.of_N n with
  | Some b => b
  | None => x00
  end.

Definition is_surrogate (c : N) : bool := (0xD800 <=? c)%N && (c <=? 0xDFFF)%N.

Definition encode_char (c : N) : option bytes :=
  if (c <? 0x80)%N then Some [byte_of_N c]
  else if (c <? 0x800)%N then
    Some [byte_of_N (0xC0 + c / 64); byte_of_N (0x80 + c mod 64)]
  else if (c <? 0x10000)%N then
    if is_surrogate c then None
    else Some [byte_of_N (0xE0 + c / 4096);
               byte_of_N (0x80 + (c / 64) mod 64);
               byte_of_N (0x80 + c mod 64)]
  else if (c <? 0x110000)%N then
    Some [byte_of_N (0xF0 + c / 262144);
          byte_of_N (0x80 + (c / 4096) mod 64);
          byte_of_N (0x80 + (c / 64) mod 64);
          byte_of_N (0x80 + c mod 64)]
  else None.

(** [s.encode()] *)
Fixpoint encode (s : pystr) : option bytes :=
  match s with
  | [] => Some []
  | c :: s' =>
      match encode_char c, encode s' with
      | Some b, Some bs => Some (b ++ bs)
      | _, _ => None
      end
  end.

Definition is_cont (b : byte) : bool :=
  (0x80 <=? Byte.to_N b)%N && (Byte.to_N b <? 0xC0)%N.

Definition cont (b : byte) : N := (Byte.to_N b - 0x80)%N.

(** [b.decode()], strict: overlong forms, surrogates, code points above
    U+10FFFF, stray continuation bytes and truncated sequences are errors. *)
Fixpoint decode (bs : bytes) : option pystr :=
  match bs with
  | [] => Some []
  | b1 :: r1 =>
      let n1 := Byte.to_N b1 in
      if (n1 <? 0x80)%N then option_map (cons n1) (decode r1)
      else if (n1 <? 0xC2)%N then None
      else if (n1 <? 0xE0)%N then
        match r1 with
        | b2 :: r2 =>
            if is_cont b2
            then option_map (cons ((n1 - 0xC0) * 64 + cont b2)%N) (decode r2)
            else None
        | _ => None
        end
      else if (n1 <? 0xF0)%N then
        match r1 with
        | b2 :: b3 :: r3 =>
            let c := ((n1 - 0xE0) * 4096 + cont b2 * 64 + cont b3)%N in
            if is_cont b2 && is_cont b3 && (0x800 <=? c)%N && negb (is_surrogate c)
            then option_map (cons c) (decode r3)
            else None
        | _ => None
        end
      else if (n1 <? 0xF5)%N then
        match r1 with
        | b2 :: b3 :: b4 :: r4 =>
            let c := ((n1 - 0xF0) * 262144 + cont b2 * 4096
                      + cont b3 * 64 + cont b4)%N in
            if is_cont b2 && is_cont b3 && is_cont b4
               && (0x10000 <=? c)%N && (c <? 0x110000)%N
            then option_map (cons c) (decode r4)
            else None
        | _ => None
        end
      else None
  end.

(** ** [math.fabs] on an integer argument *)

Local Open Scope Z_scope.

Definition DBL_MANT_DIG : Z := 53.
Definition DBL_MAX_EXP : Z := 1024.

(** The double nearest to the non-negative integer [a], ties going to the
    even significand; [None] when the result is beyond the largest double
    (CPython raises [OverflowError]: int too large to convert to float). *)
Definition to_double (a : Z) : option Z :=
  let nbits := Z.log2 a + 1 in
  if nbits <=? DBL_MANT_DIG then Some a
  else
    let shift := nbits - DBL_MANT_DIG in
    let q := a / 2 ^ shift in
    let r := a mod 2 ^ shift in
    let half := 2 ^ (shift - 1) in
    let q' := if (half <? r) || ((r =? half) && Z.odd q) then q + 1 else q in
    let v := q' * 2 ^ shift in
    if v <? 2 ^ DBL_MAX_EXP then Some v else None.

Definition fabs (x : Z) : outcome Z :=
  match to_double (Z.abs x) with
  | Some v => Ok v
  | None => Raise OverflowError
  end.

(** ** Decisions *)

Inductive Decision : Type := Warmer | Colder | Same | Unsure | Correct.

Definition WARMER : pystr := lit "Warmer".
Definition COLDER : pystr := lit "Colder".
Definition SAME : pystr := lit "Same".
Definition UNSURE : pystr := lit "Unsure".
Definition CORRECT : pystr := lit "Correct".

Definition decision_text (d : Decision) : pystr :=
  match d with
  | Warmer => WARMER
  | Colder => COLDER
  | Same => SAME
  | Unsure => UNSURE
  | Correct => CORRECT
  end.

Definition is_correct (d : Decision) : bool :=
  match d with Correct => true | _ => false end.

(** ** [random.randint]

    The generator is a fixed sequence of raw draws; [randint a b] turns the
    next one into a member of [a..b].  Missing bounds are a [TypeError]
    ([None + 1]), an empty range is a [ValueError]. *)
Definition randint (rng : nat -> Z) (pos : nat) (a b : option Z)
  : outcome (Z * nat) :=
  match a, b with
  | Some a, Some b =>
      if a <=? b then Ok (a + rng pos mod (b - a + 1), S pos)
      else Raise ValueError
  | _, _ => Raise TypeError
  end.

(** ** [class Connection] *)

(** The first line of a buffer, newline included, and what follows it. *)
Fixpoint cut_line (bs : bytes) : option (bytes * bytes) :=
  match bs with
  | [] => None
  | b :: bs' =>
      if Byte.eqb b x0a then Some ([b], bs')
      else match cut_line bs' with
           | Some (line, rest) => Some (b :: line, rest)
           | None => None
           end
  end.

Module Connection.

(** One end of a stream socket: the bytes that have arrived and are not
    read yet, whether the peer has closed its side after them, and the
    bytes written so far. *)
Record t : Type := mk {
  incoming : bytes;
  at_eof : bool;
  outgoing : bytes
}.

Definition send (self : t) (command : pystr) : outcome t :=
  let line := command ++ [NEWLINE] in
  match encode line with
  | Some data =>
      Ok (mk (incoming self) (at_eof self) (outgoing self ++ data))
  | None => Raise UnicodeEncodeError
  end.

(** [self.file.readline()] *)
Definition readline (self : t) : outcome (bytes * t) :=
  match cut_line (incoming self) with
  | Some (line, rest) => Ok (line, mk rest (at_eof self) (outgoing self))
  | None =>
      if at_eof self
      then Ok (incoming self, mk [] true (outgoing self))
      else Blocked
  end.

Definition receive (self : t) : outcome (pystr * t) :=
  '(line, self') <- readline self ;;
  match line with
  | [] => Raise EOFError
  | _ =>
      match decode (removelast line) with
      | Some text => Ok (text, self')
      | None => Raise UnicodeDecodeError
      end
  end.

End Connection.

(** [int(text)], given the reader [int_of_str]. *)
Definition int (int_of_str : pystr -> option Z) (text : pystr) : outcome Z :=
  match int_of_str text with
  | Some n => Ok n
  | None => Raise ValueError
  end.

(** [xs[-1]] *)
Fixpoint last_item (xs : list Z) : option Z :=
  match xs with
  | [] => None
  | [x] => Some x
  | _ :: xs' => last_item xs'
  end.

(** ** [class ServerSession(Connection)] *)

Module ServerSession.

Record t : Type := mk {
  base : Connection.t;
  lower : option Z;
  upper : option Z;
  secret : option Z;
  guesses : list Z
}.

Definition clear_state (self : t) : t :=
  mk (base self) None None None [].

(** [__init__] *)
Definition init (connection : Connection.t) : t :=
  clear_state (mk connection None None None []).

Section Env.

Variable int_of_str : pystr -> option Z.
Variable rng : nat -> Z.

Definition set_params (self : t) (lower_text upper_text : pystr)
  : outcome t :=
  let self := clear_state self in
  lo <- int int_of_str lower_text ;;
  let self := mk (base self) (Some lo) (upper self) (secret self) (guesses self) in
  hi <- int int_of_str upper_text ;;
  Ok (mk (base self) (lower self) (Some hi) (secret self) (guesses self)).

(** The [while True] loop of [next_guess]; [fuel] bounds its number of
    iterations. *)
Fixpoint next_guess_loop (fuel : nat) (self : t) (pos : nat)
  : outcome (Z * nat) :=
  match fuel with
  | O => Unfinished
  | S fuel' =>
      '(guess, pos') <- randint rng pos (lower self) (upper self) ;;
      if in_dec Z.eq_dec guess (guesses self)
      then next_guess_loop fuel' self pos'
      else Ok (guess, pos')
  end.

Definition next_guess (fuel : nat) (self : t) (pos : nat)
  : outcome (Z * nat) :=
  match secret self with
  | Some pinned => Ok (pinned, pos)
  | None => next_guess_loop fuel self pos
  end.

Definition send_number (fuel : nat) (self : t) (pos : nat)
  : outcome (t * nat) :=
  '(guess, pos') <- next_guess fuel self pos ;;
  let self := mk (base self) (lower self) (upper self) (secret self)
                 (guesses self ++ [guess]) in
  base' <- Connection.send (base self) (str guess) ;;
  Ok (mk base' (lower self) (upper self) (secret self) (guesses self), pos').

Definition receive_report (self : t) (decision : pystr) : outcome t :=
  match last_item (guesses self) with
  | None => Raise IndexError
  | Some last =>
      if pystr_eqb decision CORRECT
      then Ok (mk (base self) (lower self) (upper self) (Some last)
                  (guesses self))
      else Ok self
  end.

(** The [match command.split(" ")] statement: the body of [loop]. *)
Definition dispatch (fuel : nat) (self : t) (pos : nat) (command : pystr)
  : outcome (t * nat) :=
  match split SPACE command with
  | [word; lower_text; upper_text] =>
      if pystr_eqb word (lit "PARAMS")
      then self' <- set_params self lower_text upper_text ;; Ok (self', pos)
      else Raise (UnknownCommandError command)
  | [word] =>
      if pystr_eqb word (lit "NUMBER") then send_number fuel self pos
      else if pystr_eqb word (lit "CLEAR") then Ok (clear_state self, pos)
      else Raise (UnknownCommandError command)
  | [word; decision] =>
      if pystr_eqb word (lit "REPORT")
      then self' <- receive_report self decision ;; Ok (self', pos)
      else Raise (UnknownCommandError command)
  | _ => Raise (UnknownCommandError command)
  end.

(** [while command := self.receive(): ...].  Every turn reads at least
    one byte, so [gas] larger than the number of buffered bytes is never
    used up; the result is how the loop stands (returned, raised,
    waiting in [receive], cut off inside [next_guess]), the session as
    of the last completed command and the state of the generator. *)
Fixpoint loop_gas (gas fuel : nat) (self : t) (pos : nat)
  : outcome unit * t * nat :=
  match gas with
  | O => (Blocked, self, pos)
  | S gas' =>
      match Connection.receive (base self) with
      | Ok (command, base') =>
          let self' := mk base' (lower self) (upper self) (secret self)
                          (guesses self) in
          match command with
          | [] => (Ok tt, self', pos)
          | _ =>
              match dispatch fuel self' pos command with
              | Ok (self'', pos') => loop_gas gas' fuel self'' pos'
              | Raise e => (Raise e, self', pos)
              | Blocked => (Blocked, self', pos)
              | Unfinished => (Unfinished, self', pos)
              end
          end
      | Raise e => (Raise e, self, pos)
      | Blocked => (Blocked, self, pos)
      | Unfinished => (Unfinished, self, pos)
      end
  end.

Definition loop (fuel : nat) (self : t) (pos : nat)
  : outcome unit * t * nat :=
  loop_gas (S (length (Connection.incoming (base self)))) fuel self pos.

End Env.

End ServerSession.

(** [try: session.loop() / except EOFError: pass] of [handle_connection],
    for a session that is already set up. *)
Definition serve_session (int_of_str : pystr -> option Z) (rng : nat -> Z)
  (fuel : nat) (session : ServerSession.t) (pos : nat)
  : outcome unit * ServerSession.t * nat :=
  match ServerSession.loop int_of_str rng fuel session pos with
  | (Raise EOFError, session', pos') => (Ok tt, session', pos')
  | other => other
  end.

Definition handle_connection (int_of_str : pystr -> option Z) (rng : nat -> Z)
  (fuel : nat) (connection : Connection.t) (pos : nat)
  : outcome unit * ServerSession.t * nat :=
  serve_session int_of_str rng fuel (ServerSession.init connection) pos.

(** ** [class ClientSession]

    The session holds two callables, [send] and [receive]; [W] is the state
    of whatever they act on (both ends of the connection and the server
    behind it). *)

Module ClientSession.

Section Env.

Variable int_of_str : pystr -> option Z.
Variable W : Type.

Record t : Type := mk {
  send : pystr -> W -> outcome W;
  receive : W -> outcome (pystr * W);
  secret : Z;
  last_distance : option Z
}.

(** [__init__] *)
Definition init (send : pystr -> W -> outcome W)
  (receive : W -> outcome (pystr * W)) (secret : Z) : t :=
  mk send receive secret None.

Definition request_number (self : t) (w : W) : outcome (Z * W) :=
  w <- send self (lit "NUMBER") w ;;
  '(data, w) <- receive self w ;;
  number <- int int_of_str data ;;
  Ok (number, w).

Definition report_outcome (self : t) (number : Z) (w : W)
  : outcome (Decision * t * W) :=
  new_distance <- fabs (number - secret self) ;;
  let decision :=
    if new_distance =? 0 then Correct
    else match last_distance self with
         | None => Unsure
         | Some last =>
             if new_distance <? last then Warmer
             else if new_distance >? last then Colder
             else Same
         end in
  let self := mk (send self) (receive self) (secret self)
                 (Some new_distance) in
  w <- send self (lit "REPORT " ++ decision_text decision) w ;;
  Ok (decision, self, w).

(** [__iter__]: the pairs yielded so far and how the generator stands;
    [fuel] bounds the number of rounds. *)
Fixpoint iter (fuel : nat) (self : t) (w : W)
  : list (Z * Decision) * outcome (t * W) :=
  match fuel with
  | O => ([], Unfinished)
  | S fuel' =>
      match request_number self w with
      | Ok (number, w) =>
          match report_outcome self number w with
          | Ok (decision, self, w) =>
              if is_correct decision
              then ([(number, decision)], Ok (self, w))
              else
                let '(later, final) := iter fuel' self w in
                ((number, decision) :: later, final)
          | Raise e => ([], Raise e)
          | Blocked => ([], Blocked)
          | Unfinished => ([], Unfinished)
          end
      | Raise e => ([], Raise e)
      | Blocked => ([], Blocked)
      | Unfinished => ([], Unfinished)
      end
  end.

(** [[outcome for outcome in session]] *)
Definition collect (fuel : nat) (self : t) (w : W)
  : outcome (list (Z * Decision) * W) :=
  match iter fuel self w with
  | (results, Ok (_, w)) => Ok (results, w)
  | (_, Raise e) => Raise e
  | (_, Blocked) => Blocked
  | (_, Unfinished) => Unfinished
  end.

End Env.

Arguments mk {W} send receive secret last_distance.
Arguments send {W} self command w : rename.
Arguments receive {W} self w : rename.
Arguments secret {W} self : rename.
Arguments last_distance {W} self : rename.
Arguments init {W} send receive secret.
Arguments request_number int_of_str {W} self w.
Arguments report_outcome {W} self number w.
Arguments iter int_of_str {W} fuel self w.
Arguments collect int_of_str {W} fuel self w.

End ClientSession.

(** ** The threaded runner

    One client thread and one handler thread joined by a socket pair.  The
    handler thread is either waiting in [receive] ([Blocked]), gone ([Ok] or
    [Raise]) or spinning in [next_guess] ([Unfinished]).  Bytes written by
    one side reach the other when the handler thread next runs; when it runs
    is up to the scheduler, a sequence of booleans [sched] read at every
    point where the client thread may be preempted. *)

Module Threaded.

Record World : Type := mk {
  client_end : Connection.t;
  session : ServerSession.t;
  handler : outcome unit;
  random_pos : nat;
  clock : nat
}.

Definition gone (h : outcome unit) : bool :=
  match h with
  | Ok _ | Raise _ => true
  | _ => false
  end.

Section Env.

Variable int_of_str : pystr -> option Z.
Variable rng : nat -> Z.
Variable sched : nat -> bool.
Variable fuel : nat.

(** The handler thread runs until it cannot go on. *)
Definition serve (w : World) : World :=
  match handler w with
  | Blocked =>
      let c := client_end w in
      let s := session w in
      let arrived :=
        Connection.mk
          (Connection.incoming (ServerSession.base s) ++ Connection.outgoing c)
          (Connection.at_eof (ServerSession.base s))
          (Connection.outgoing (ServerSession.base s)) in
      let s := ServerSession.mk arrived (ServerSession.lower s)
                 (ServerSession.upper s) (ServerSession.secret s)
                 (ServerSession.guesses s) in
      let '(h, s, pos) :=
        serve_session int_of_str rng fuel s (random_pos w) in
      let replies := Connection.outgoing (ServerSession.base s) in
      let flushed :=
        Connection.mk (Connection.incoming (ServerSession.base s))
          (Connection.at_eof (ServerSession.base s)) [] in
      mk (Connection.mk (Connection.incoming c ++ replies)
            (Connection.at_eof c || gone h) [])
         (ServerSession.mk flushed (ServerSession.lower s)
            (ServerSession.upper s) (ServerSession.secret s)
            (ServerSession.guesses s))
         h pos (clock w)
  | _ => w
  end.

(** A point where the client thread may lose the processor. *)
Definition preempt (w : World) : World :=
  let w' := mk (client_end w) (session w) (handler w) (random_pos w)
               (S (clock w)) in
  if sched (clock w) then serve w' else w'.

(** [connection.send], as the client thread calls it. *)
Definition send (command : pystr) (w : World) : outcome World :=
  c <- Connection.send (client_end w) command ;;
  Ok (preempt (mk c (session w) (handler w) (random_pos w) (clock w))).

(** [connection.receive], as the client thread calls it: when no line
    has arrived the thread sleeps until the handler thread has run. *)
Definition receive (w : World) : outcome (pystr * World) :=
  match Connection.receive (client_end w) with
  | Blocked =>
      let w := serve w in
      match handler w with
      | Unfinished => Unfinished
      | _ =>
          '(text, c) <- Connection.receive (client_end w) ;;
          Ok (text, mk c (session w) (handler w) (random_pos w) (clock w))
      end
  | Ok (text, c) =>
      Ok (text, mk c (session w) (handler w) (random_pos w) (clock w))
  | Raise e => Raise e
  | Unfinished => Unfinished
  end.

(** [time.sleep(0.1)] *)
Definition sleep (w : World) : World := preempt w.

(** [new_game], with the body of the [with] statement as [body]. *)
Definition new_game {A : Type} (lower upper secret : Z)
  (body : ClientSession.t World -> World -> outcome (A * World))
  (w : World) : outcome (A * World) :=
  w <- send (lit "PARAMS " ++ str lower ++ lit " " ++ str upper) w ;;
  '(a, w) <- body (ClientSession.init send receive secret) w ;;
  w <- send (lit "CLEAR") (sleep w) ;;
  Ok (a, w).

(** One game of [run_client]:
    [with new_game(server, lower, upper, secret) as session:
       results = [outcome for outcome in session]]. *)
Definition play (lower upper secret : Z) (w : World)
  : outcome (list (Z * Decision) * World) :=
  new_game lower upper secret (ClientSession.collect int_of_str fuel) w.

End Env.

(** A fresh connection: nothing sent yet, the handler thread waiting for
    its first command. *)
Definition connected (pos : nat) : World :=
  mk (Connection.mk [] false [])
     (ServerSession.init (Connection.mk [] false []))
     Blocked pos 0.

End Threaded.

(** ** [class AsyncConnection] *)

Module AsyncConnection.

(** An [asyncio] stream reader: its buffer and whether end of file has
    been fed to it. *)
Record StreamReader : Type := mk_reader {
  buffer : bytes;
  eof : bool
}.

(** An [asyncio] stream writer: the bytes written through it. *)
Record StreamWriter : Type := mk_writer {
  written : bytes
}.

Record t : Type := mk {
  reader : StreamReader;
  writer : StreamWriter
}.

(** [self.writer.write(data)] followed by [await self.writer.drain()] *)
Definition send (self : t) (command : pystr) : outcome t :=
  let line := command ++ [NEWLINE] in
  match encode line with
  | Some data =>
      Ok (mk (reader self) (mk_writer (written (writer self) ++ data)))
  | None => Raise UnicodeEncodeError
  end.

(** [await self.reader.readline()]: the coroutine is suspended
    ([Blocked]) while the buffer holds no complete line. *)
Definition readline (self : t) : outcome (bytes * t) :=
  match cut_line (buffer (reader self)) with
  | Some (line, rest) =>
      Ok (line, mk (mk_reader rest (eof (reader self))) (writer self))
  | None =>
      if eof (reader self)
      then Ok (buffer (reader self), mk (mk_reader [] true) (writer self))
      else Blocked
  end.

Definition receive (self : t) : outcome (pystr * t) :=
  '(line, self') <- readline self ;;
  match line with
  | [] => Raise EOFError
  | _ =>
      match decode (removelast line) with
      | Some text => Ok (text, self')
      | None => Raise UnicodeDecodeError
      end
  end.

End AsyncConnection.

(** ** [class AsyncServerSession(AsyncConnection)] *)

Module AsyncServerSession.

Record t : Type := mk {
  base : AsyncConnection.t;
  lower : option Z;
  upper : option Z;
  secret : option Z;
  guesses : list Z
}.

Definition clear_state (self : t) : t :=
  mk (base self) None None None [].

Definition init (connection : AsyncConnection.t) : t :=
  clear_state (mk connection None None None []).

Section Env.

Variable int_of_str : pystr -> option Z.
Variable rng : nat -> Z.

Definition set_params (self : t) (lower_text upper_text : pystr)
  : outcome t :=
  let self := clear_state self in
  lo <- int int_of_str lower_text ;;
  let self := mk (base self) (Some lo) (upper self) (secret self) (guesses self) in
  hi <- int int_of_str upper_text ;;
  Ok (mk (base self) (lower self) (Some hi) (secret self) (guesses self)).

Fixpoint next_guess_loop (fuel : nat) (self : t) (pos : nat)
  : outcome (Z * nat) :=
  match fuel with
  | O => Unfinished
  | S fuel' =>
      '(guess, pos') <- randint rng pos (lower self) (upper self) ;;
      if in_dec Z.eq_dec guess (guesses self)
      then next_guess_loop fuel' self pos'
      else Ok (guess, pos')
  end.

Definition next_guess (fuel : nat) (self : t) (pos : nat)
  : outcome (Z * nat) :=
  match secret self with
  | Some pinned => Ok (pinned, pos)
  | None => next_guess_loop fuel self pos
  end.

Definition send_number (fuel : nat) (self : t) (pos : nat)
  : outcome (t * nat) :=
  '(guess, pos') <- next_guess fuel self pos ;;
  let self := mk (base self) (lower self) (upper self) (secret self)
                 (guesses self ++ [guess]) in
  base' <- AsyncConnection.send (base self) (str guess) ;;
  Ok (mk base' (lower self) (upper self) (secret self) (guesses self), pos').

Definition receive_report (self : t) (decision : pystr) : outcome t :=
  match last_item (guesses self) with
  | None => Raise IndexError
  | Some last =>
      if pystr_eqb decision CORRECT
      then Ok (mk (base self) (lower self) (upper self) (Some last)
                  (guesses self))
      else Ok self
  end.

Definition dispatch (fuel : nat) (self : t) (pos : nat) (command : pystr)
  : outcome (t * nat) :=
  match split SPACE command with
  | [word; lower_text; upper_text] =>
      if pystr_eqb word (lit "PARAMS")
      then self' <- set_params self lower_text upper_text ;; Ok (self', pos)
      else Raise (UnknownCommandError command)
  | [word] =>
      if pystr_eqb word (lit "NUMBER") then send_number fuel self pos
      else if pystr_eqb word (lit "CLEAR") then Ok (clear_state self, pos)
      else Raise (UnknownCommandError command)
  | [word; decision] =>
      if pystr_eqb word (lit "REPORT")
      then self' <- receive_report self decision ;; Ok (self', pos)
      else Raise (UnknownCommandError command)
  | _ => Raise (UnknownCommandError command)
  end.

Fixpoint loop_gas (gas fuel : nat) (self : t) (pos : nat)
  : outcome unit * t * nat :=
  match gas with
  | O => (Blocked, self, pos)
  | S gas' =>
      match AsyncConnection.receive (base self) with
      | Ok (command, base') =>
          let self' := mk base' (lower self) (upper self) (secret self)
                          (guesses self) in
          match command with
          | [] => (Ok tt, self', pos)
          | _ =>
              match dispatch fuel self' pos command with
              | Ok (self'', pos') => loop_gas gas' fuel self'' pos'
              | Raise e => (Raise e, self', pos)
              | Blocked => (Blocked, self', pos)
              | Unfinished => (Unfinished, self', pos)
              end
          end
      | Raise e => (Raise e, self, pos)
      | Blocked => (Blocked, self, pos)
      | Unfinished => (Unfinished, self, pos)
      end
  end.

Definition loop (fuel : nat) (self : t) (pos : nat)
  : outcome unit * t * nat :=
  loop_gas
    (S (length (AsyncConnection.buffer (AsyncConnection.reader (base self)))))
    fuel self pos.

End Env.

End AsyncServerSession.

(** [try: await session.loop() / except EOFError: pass] of
    [handle_async_connection], for a session that is already set up. *)
Definition serve_async_session (int_of_str : pystr -> option Z)
  (rng : nat -> Z) (fuel : nat) (session : AsyncServerSession.t) (pos : nat)
  : outcome unit * AsyncServerSession.t * nat :=
  match AsyncServerSession.loop int_of_str rng fuel session pos with
  | (Raise EOFError, session', pos') => (Ok tt, session', pos')
  | other => other
  end.


(** ** [class AsyncClientSession] *)

Module AsyncClientSession.

Section Env.

Variable int_of_str : pystr -> option Z.
Variable W : Type.

Record t : Type := mk {
  send : pystr -> W -> outcome W;
  receive : W -> outcome (pystr * W);
  secret : Z;
  last_distance : option Z
}.

Definition init (send : pystr -> W -> outcome W)
  (receive : W -> outcome (pystr * W)) (secret : Z) : t :=
  mk send receive secret None.

Definition request_number (self : t) (w : W) : outcome (Z * W) :=
  w <- send self (lit "NUMBER") w ;;
  '(data, w) <- receive self w ;;
  number <- int int_of_str data ;;
  Ok (number, w).

Definition report_outcome (self : t) (number : Z) (w : W)
  : outcome (Decision * t * W) :=
  new_distance <- fabs (number - secret self) ;;
  let decision :=
    if new_distance =? 0 then Correct
    else match last_distance self with
         | None => Unsure
         | Some last =>
             if new_distance <? last then Warmer
             else if new_distance >? last then Colder
             else Same
         end in
  let self := mk (send self) (receive self) (secret self)
                 (Some new_distance) in
  w <- send self (lit "REPORT " ++ decision_text decision) w ;;
  Ok (decision, self, w).

(** [__aiter__] *)
Fixpoint aiter (fuel : nat) (self : t) (w : W)
  : list (Z * Decision) * outcome (t * W) :=
  match fuel with
  | O => ([], Unfinished)
  | S fuel' =>
      match request_number self w with
      | Ok (number, w) =>
          match report_outcome self number w with
          | Ok (decision, self, w) =>
              if is_correct decision
              then ([(number, decision)], Ok (self, w))
              else
                let '(later, final) := aiter fuel' self w in
                ((number, decision) :: later, final)
          | Raise e => ([], Raise e)
          | Blocked => ([], Blocked)
          | Unfinished => ([], Unfinished)
          end
      | Raise e => ([], Raise e)
      | Blocked => ([], Blocked)
      | Unfinished => ([], Unfinished)
      end
  end.

(** [[outcome async for outcome in session]] *)
Definition collect (fuel : nat) (self : t) (w : W)
  : outcome (list (Z * Decision) * W) :=
  match aiter fuel self w with
  | (results, Ok (_, w)) => Ok (results, w)
  | (_, Raise e) => Raise e
  | (_, Blocked) => Blocked
  | (_, Unfinished) => Unfinished
  end.

End Env.

Arguments mk {W} send receive secret last_distance.
Arguments send {W} self command w : rename.
Arguments receive {W} self w : rename.
Arguments secret {W} self : rename.
Arguments last_distance {W} self : rename.
Arguments init {W} send receive secret.
Arguments request_number int_of_str {W} self w.
Arguments report_outcome {W} self number w.
Arguments aiter int_of_str {W} fuel self w.
Arguments collect int_of_str {W} fuel self w.

End AsyncClientSession.

(** ** The coroutine runner

    The client coroutine and the handler task share one event loop.  The
    handler task gets to run only when the client coroutine is suspended:
    in [readline] with no complete line buffered, and in [asyncio.sleep]. *)

Module EventLoop.

Record World : Type := mk {
  client_end : AsyncConnection.t;
  session : AsyncServerSession.t;
  task : outcome unit;
  random_pos : nat
}.

Section Env.

Variable int_of_str : pystr -> option Z.
Variable rng : nat -> Z.
Variable fuel : nat.

(** The handler task runs until it is suspended or done. *)
Definition serve (w : World) : World :=
  match task w with
  | Blocked =>
      let c := client_end w in
      let s := session w in
      let r := AsyncConnection.reader (AsyncServerSession.base s) in
      let fed :=
        AsyncConnection.mk
          (AsyncConnection.mk_reader
             (AsyncConnection.buffer r
              ++ AsyncConnection.written (AsyncConnection.writer c))
             (AsyncConnection.eof r))
          (AsyncConnection.writer (AsyncServerSession.base s)) in
      let s := AsyncServerSession.mk fed (AsyncServerSession.lower s)
                 (AsyncServerSession.upper s) (AsyncServerSession.secret s)
                 (AsyncServerSession.guesses s) in
      let '(h, s, pos) :=
        serve_async_session int_of_str rng fuel s (random_pos w) in
      let replies :=
        AsyncConnection.written
          (AsyncConnection.writer (AsyncServerSession.base s)) in
      let flushed :=
        AsyncConnection.mk
          (AsyncConnection.reader (AsyncServerSession.base s))
          (AsyncConnection.mk_writer []) in
      let cr := AsyncConnection.reader c in
      mk (AsyncConnection.mk
            (AsyncConnection.mk_reader
               (AsyncConnection.buffer cr ++ replies)
               (AsyncConnection.eof cr || Threaded.gone h))
            (AsyncConnection.mk_writer []))
         (AsyncServerSession.mk flushed (AsyncServerSession.lower s)
            (AsyncServerSession.upper s) (AsyncServerSession.secret s)
            (AsyncServerSession.guesses s))
         h pos
  | _ => w
  end.

(** [await connection.send(...)] in the client coroutine; [drain] does
    not give up control. *)
Definition send (command : pystr) (w : World) : outcome World :=
  c <- AsyncConnection.send (client_end w) command ;;
  Ok (mk c (session w) (task w) (random_pos w)).

(** [await connection.receive()] in the client coroutine. *)
Definition receive (w : World) : outcome (pystr * World) :=
  match AsyncConnection.receive (client_end w) with
  | Blocked =>
      let w := serve w in
      match task w with
      | Unfinished => Unfinished
      | _ =>
          '(text, c) <- AsyncConnection.receive (client_end w) ;;
          Ok (text, mk c (session w) (task w) (random_pos w))
      end
  | Ok (text, c) => Ok (text, mk c (session w) (task w) (random_pos w))
  | Raise e => Raise e
  | Unfinished => Unfinished
  end.

(** [await asyncio.sleep(0.1)] *)
Definition sleep (w : World) : World := serve w.

(** [new_async_game], with the body of the [async with] statement. *)
Definition new_async_game {A : Type} (lower upper secret : Z)
  (body : AsyncClientSession.t World -> World -> outcome (A * World))
  (w : World) : outcome (A * World) :=
  w <- send (lit "PARAMS " ++ str lower ++ lit " " ++ str upper) w ;;
  '(a, w) <- body (AsyncClientSession.init send receive secret) w ;;
  w <- send (lit "CLEAR") (sleep w) ;;
  Ok (a, w).

(** One game of [run_async_client]:
    [async with new_async_game(client, lower, upper, secret) as session:
       results = [outcome async for outcome in session]]. *)
Definition play (lower upper secret : Z) (w : World)
  : outcome (list (Z * Decision) * World) :=
  new_async_game lower upper secret
    (AsyncClientSession.collect int_of_str fuel) w.

End Env.

Definition connected (pos : nat) : World :=
  mk (AsyncConnection.mk (AsyncConnection.mk_reader [] false)
        (AsyncConnection.mk_writer []))
     (AsyncServerSession.init
        (AsyncConnection.mk (AsyncConnection.mk_reader [] false)
           (AsyncConnection.mk_writer [])))
     Blocked pos.

End EventLoop.

(** ** Auxiliary definitions for the statements *)

(** The commands a client sends, as [new_game] and [ClientSession] spell
    them. *)
Inductive Command : Type :=
| PARAMS (lower upper : Z)
| NUMBER
| REPORT (decision : Decision)
| CLEAR.

Definition render (c : Command) : pystr :=
  match c with
  | PARAMS lower upper => lit "PARAMS " ++ str lower ++ lit " " ++ str upper
  | NUMBER => lit "NUMBER"
  | REPORT decision => lit "REPORT " ++ decision_text decision
  | CLEAR => lit "CLEAR"
  end.

(** The bytes [send] writes for one command, and for several in a row. *)
Definition line_bytes (command : pystr) : bytes :=
  match encode (command ++ [NEWLINE]) with
  | Some data => data
  | None => []
  end.

Definition wire (commands : list pystr) : bytes :=
  concat (map line_bytes commands).

(** The replies found in a buffer of complete lines. *)
Definition feed (self : ServerSession.t) (data : bytes) : ServerSession.t :=
  ServerSession.mk
    (Connection.mk data (Connection.at_eof (ServerSession.base self))
       (Connection.outgoing (ServerSession.base self)))
    (ServerSession.lower self) (ServerSession.upper self)
    (ServerSession.secret self) (ServerSession.guesses self).

(** What [report_outcome] would decide if distances were exact integers:
    the decision rule as the specification words it. *)
Definition exact_rule (secret : Z) (last_distance : option Z) (number : Z)
  : Decision * Z :=
  let new_distance := Z.abs (number - secret) in
  (if new_distance =? 0 then Correct
   else match last_distance with
        | None => Unsure
        | Some last =>
            if new_distance <? last then Warmer
            else if new_distance >? last then Colder
            else Same
        end,
   new_distance).

(** A transport that only records what is sent; nothing ever arrives. *)
Definition record_send (command : pystr) (log : list pystr)
  : outcome (list pystr) :=
  Ok (log ++ [command]).

Definition never_receive (log : list pystr) : outcome (pystr * list pystr) :=
  Blocked.

(** Successive calls of [report_outcome] on one session. *)
Fixpoint reports {W : Type} (self : ClientSession.t W) (numbers : list Z)
  (w : W) : outcome (list Decision * ClientSession.t W * W) :=
  match numbers with
  | [] => Ok ([], self, w)
  | number :: numbers' =>
      '(decision, self, w) <- ClientSession.report_outcome self number w ;;
      '(decisions, self, w) <- reports self numbers' w ;;
      Ok (decision :: decisions, self, w)
  end.

(** The member of [lower..upper] that [randint] makes of draw [pos]. *)
Definition draw (rng : nat -> Z) (lower upper : Z) (pos : nat) : Z :=
  lower + rng pos mod (upper - lower + 1).

(** Every member of the range keeps turning up in the sequence of draws
    (what holds with probability one for independent uniform draws). *)
Definition fair (rng : nat -> Z) (lower upper : Z) : Prop :=
  forall (pos : nat) (v : Z),
    lower <= v <= upper ->
    exists k : nat, draw rng lower upper (pos + k) = v.

(** The largest magnitude [math.fabs] converts without overflow is just
    below this bound. *)
Definition FABS_LIMIT : Z := 2 ^ 1024 - 2 ^ 970.

(** Results without the final state of the connection. *)
Definition results_of {W : Type} (r : outcome (list (Z * Decision) * W))
  : outcome (list (Z * Decision)) :=
  '(results, _) <- r ;; Ok results.

(** The commands that leave an unpinned session unpinned inside one
    [PARAMS]-to-[CLEAR] cycle: [NUMBER], and [REPORT] of anything but
    [Correct]. *)
Definition before_lock (c : Command) : bool :=
  match c with
  | NUMBER => true
  | REPORT d => negb (is_correct d)
  | _ => false
  end.

(** The commands other than [PARAMS] and [CLEAR]. *)
Definition number_or_report (c : Command) : bool :=
  match c with
  | NUMBER | REPORT _ => true
  | _ => false
  end.

Definition is_number (c : Command) : bool :=
  match c with
  | NUMBER => true
  | _ => false
  end.

(** How a loop that has read all its input stands. *)
Definition out_of_input (self : ServerSession.t) : outcome unit :=
  if Connection.at_eof (ServerSession.base self)
  then Raise EOFError else Blocked.

(** What a run has added to a session: the numbers returned, in order,
    appended to the guesses and written out one per line; the bounds are
    those of the start. *)
Definition returned_since (self self' : ServerSession.t) (numbers : list Z)
  : Prop :=
  ServerSession.guesses self' = ServerSession.guesses self ++ numbers
  /\ Connection.outgoing (ServerSession.base self') =
       Connection.outgoing (ServerSession.base self)
       ++ wire (map str numbers)
  /\ ServerSession.lower self' = ServerSession.lower self
  /\ ServerSession.upper self' = ServerSession.upper self.

(** ** The coroutine classes seen as the threaded ones

    A reader/writer pair carries what a socket with its buffered file does:
    the unread bytes, the end-of-file mark and the bytes written. *)

Definition omap {A B : Type} (f : A -> B) (m : outcome A) : outcome B :=
  x <- m ;; Ok (f x).

Definition sync_connection (c : AsyncConnection.t) : Connection.t :=
  Connection.mk
    (AsyncConnection.buffer (AsyncConnection.reader c))
    (AsyncConnection.eof (AsyncConnection.reader c))
    (AsyncConnection.written (AsyncConnection.writer c)).

Definition sync_session (s : AsyncServerSession.t) : ServerSession.t :=
  ServerSession.mk (sync_connection (AsyncServerSession.base s))
    (AsyncServerSession.lower s) (AsyncServerSession.upper s)
    (AsyncServerSession.secret s) (AsyncServerSession.guesses s).

Definition sync_world (w : EventLoop.World) : Threaded.World :=
  Threaded.mk (sync_connection (EventLoop.client_end w))
    (sync_session (EventLoop.session w)) (EventLoop.task w)
    (EventLoop.random_pos w) 0.

(** ** The protocol state behind a world

    What a world amounts to once every byte in flight has been delivered
    and handled: the unread replies and end-of-file mark of the client, the
    attributes of the server session, how the handler stands and the state
    of the generator.  Buffers that can no longer be read, and the clock of
    the scheduler, are left out. *)

Definition tidy (w : Threaded.World) : Threaded.World :=
  Threaded.mk
    (Connection.mk (Connection.incoming (Threaded.client_end w))
       (Connection.at_eof (Threaded.client_end w)) [])
    (ServerSession.mk (Connection.mk [] false [])
       (ServerSession.lower (Threaded.session w))
       (ServerSession.upper (Threaded.session w))
       (ServerSession.secret (Threaded.session w))
       (ServerSession.guesses (Threaded.session w)))
    (Threaded.handler w) (Threaded.random_pos w) 0.

(** The handler, waiting in state [n], takes one command line. *)
Definition absorb1 (int_of_str : pystr -> option Z) (rng : nat -> Z)
  (fuel : nat) (n : Threaded.World) (command : pystr) : Threaded.World :=
  match Threaded.handler n with
  | Blocked =>
      match ServerSession.dispatch int_of_str rng fuel (Threaded.session n)
              (Threaded.random_pos n) command with
      | Ok (s, pos) =>
          Threaded.mk
            (Connection.mk
               (Connection.incoming (Threaded.client_end n)
                ++ Connection.outgoing (ServerSession.base s))
               (Connection.at_eof (Threaded.client_end n)) [])
            (ServerSession.mk (Connection.mk [] false [])
               (ServerSession.lower s) (ServerSession.upper s)
               (ServerSession.secret s) (ServerSession.guesses s))
            Blocked pos 0
      | Raise e =>
          Threaded.mk
            (Connection.mk (Connection.incoming (Threaded.client_end n))
               true [])
            (Threaded.session n) (Raise e) (Threaded.random_pos n) 0
      | Unfinished =>
          Threaded.mk (Threaded.client_end n) (Threaded.session n) Unfinished
            (Threaded.random_pos n) 0
      | Blocked => n
      end
  | _ => n
  end.

Definition absorb (int_of_str : pystr -> option Z) (rng : nat -> Z)
  (fuel : nat) (n : Threaded.World) (commands : list pystr)
  : Threaded.World :=
  fold_left (absorb1 int_of_str rng fuel) commands n.

(** [send] and [receive] as they act on the protocol state: a command sent
    is a command handled, and a reply can be read unless the handler is
    stuck in [next_guess]. *)
Definition settled_send (int_of_str : pystr -> option Z) (rng : nat -> Z)
  (fuel : nat) (command : pystr) (n : Threaded.World)
  : outcome Threaded.World :=
  Ok (absorb1 int_of_str rng fuel n command).

Definition settled_receive (n : Threaded.World)
  : outcome (pystr * Threaded.World) :=
  match Threaded.handler n with
  | Unfinished => Unfinished
  | _ =>
      '(text, c) <- Connection.receive (Threaded.client_end n) ;;
      Ok (text,
          Threaded.mk c (Threaded.session n) (Threaded.handler n)
            (Threaded.random_pos n) (Threaded.clock n))
  end.

(** No reply is waiting to be read, the client sees end of file exactly
    when the handler is gone, and the buffers of the server are empty. *)
Definition quiet (n : Threaded.World) : Prop :=
  Connection.incoming (Threaded.client_end n) = []
  /\ Connection.at_eof (Threaded.client_end n) =
       Threaded.gone (Threaded.handler n)
  /\ ServerSession.base (Threaded.session n) = Connection.mk [] false [].

(** A world of the threaded runner in which the client has sent the
    commands [pending] since the handler last ran, and [n] is the protocol
    state before them. *)
Definition represents (w n : Threaded.World) (pending : list Command) : Prop :=
  tidy w = n
  /\ Connection.at_eof (ServerSession.base (Threaded.session w)) = false
  /\ Connection.outgoing (ServerSession.base (Threaded.session w)) = []
  /\ Connection.at_eof (Threaded.client_end w) =
       Threaded.gone (Threaded.handler w)
  /\ (Threaded.handler w = Blocked ->
       Connection.incoming (ServerSession.base (Threaded.session w)) = []
       /\ Connection.outgoing (Threaded.client_end w) =
            wire (map render pending)).

(** The world [w] amounts to the protocol state [v]. *)
Definition corresponds (int_of_str : pystr -> option Z) (rng : nat -> Z)
  (fuel : nat) (w v : Threaded.World) : Prop :=
  exists n pending,
    represents w n pending
    /\ absorb int_of_str rng fuel n (map render pending) = v.

(** A protocol state with other unread replies. *)
Definition reinbox (n : Threaded.World) (inbox : bytes) (eof : bool)
  : Threaded.World :=
  Threaded.mk (Connection.mk inbox eof []) (Threaded.session n)
    (Threaded.handler n) (Threaded.random_pos n) (Threaded.clock n).

(** The outcome of [receive] in a world and in the protocol state it
    amounts to: the same text and again matching worlds, or the same
    failure. *)
Definition agree {W : Type} (corr : W -> Threaded.World -> Prop)
  (r : outcome (pystr * W)) (a : outcome (pystr * Threaded.World)) : Prop :=
  match r, a with
  | Ok (t, w), Ok (t', v) => t = t' /\ corr w v
  | Raise e, Raise e' => e = e'
  | Blocked, Blocked => True
  | Unfinished, Unfinished => True
  | _, _ => False
  end.

(** A reply can be awaited in state [v]: if the handler is stuck, no line
    is there to be read. *)
Definition awaitable (v : Threaded.World) : Prop :=
  Threaded.handler v = Unfinished ->
  Connection.receive (Threaded.client_end v) = Blocked.

(** Two outcomes of the same kind, with related values. *)
Definition related {A B : Type} (R : A -> B -> Prop)
  (r : outcome A) (a : outcome B) : Prop :=
  match r, a with
  | Ok x, Ok y => R x y
  | Raise e, Raise e' => e = e'
  | Blocked, Blocked => True
  | Unfinished, Unfinished => True
  | _, _ => False
  end.

(** The client session and the game of [run_client], played on the
    protocol state. *)
Definition settled_session (int_of_str : pystr -> option Z) (rng : nat -> Z)
  (fuel : nat) (secret : Z) (last_distance : option Z)
  : ClientSession.t Threaded.World :=
  ClientSession.mk (settled_send int_of_str rng fuel) settled_receive secret
    last_distance.

Definition settled_play (int_of_str : pystr -> option Z) (rng : nat -> Z)
  (fuel : nat) (lower upper secret : Z) (v : Threaded.World)
  : outcome (list (Z * Decision) * Threaded.World) :=
  v <- settled_send int_of_str rng fuel (render (PARAMS lower upper)) v ;;
  '(a, v) <- ClientSession.collect int_of_str fuel
               (settled_session int_of_str rng fuel secret None) v ;;
  v <- settled_send int_of_str rng fuel (render CLEAR) v ;;
  Ok (a, v).

(** A coroutine client session seen as a threaded one. *)
Definition sync_client {W : Type} (self : AsyncClientSession.t W)
  : ClientSession.t W :=
  ClientSession.mk (AsyncClientSession.send self)
    (AsyncClientSession.receive self) (AsyncClientSession.secret self)
    (AsyncClientSession.last_distance self).

(** A game in full swing on the protocol state: bounds set, nothing
    pinned, the numbers [guesses] returned so far. *)
Definition playing (lower upper : Z) (guesses : list Z) (pos : nat)
  : Threaded.World :=
  Threaded.mk (Connection.mk [] false [])
    (ServerSession.mk (Connection.mk [] false []) (Some lower) (Some upper)
       None guesses)
    Blocked pos 0.

(** Results that end with the secret found, and not before. *)
Definition ends_correct (secret : Z) (results : list (Z * Decision)) : Prop :=
  exists earlier,
    results = earlier ++ [(secret, Correct)]
    /\ Forall (fun r => fst r <> secret /\ snd r <> Correct) earlier.

(** Two sequences of draws used as examples. *)
Definition counting (i : nat) : Z := Z.of_nat i.
Definition constant (v : Z) (i : nat) : Z := v.

(** The limits of the libraries that statements about all integers or all
    inputs have to respect.  CPython refuses, with [ValueError], to convert
    an [int] of more than 4300 decimal digits to a [str] or back; [str],
    [encode] and the readers above leave this out, so a statement that is
    to hold of such conversions is restricted to [convertible] numbers.  A
    [StreamReader] of [asyncio.start_server] refuses, with [ValueError], a
    line longer than 64 KiB; a statement about arbitrary bytes read by the
    coroutine classes is restricted to buffers within that limit. *)
Definition INT_MAX_STR_DIGITS : Z := 4300.

Definition convertible (z : Z) : Prop := Z.abs z < 10 ^ INT_MAX_STR_DIGITS.



(** ** Auxiliary definitions for further properties *)

(** Several commands sent in a row, and as many lines received. *)
Fixpoint send_all (c : Connection.t) (commands : list pystr)
  : outcome Connection.t :=
  match commands with
  | [] => Ok c
  | command :: later =>
      c' <- Connection.send c command ;; send_all c' later
  end.

Fixpoint receive_all (n : nat) (c : Connection.t)
  : outcome (list pystr * Connection.t) :=
  match n with
  | O => Ok ([], c)
  | S n' =>
      '(text, c') <- Connection.receive c ;;
      '(texts, c'') <- receive_all n' c' ;;
      Ok (text :: texts, c'')
  end.

(** A peer that follows a script: the commands sent are recorded, and the
    replies are read off a list ([EOFError] when it is used up). *)
Definition script_send (command : pystr) (w : list pystr * list pystr)
  : outcome (list pystr * list pystr) :=
  Ok (fst w ++ [command], snd w).

Definition script_receive (w : list pystr * list pystr)
  : outcome (pystr * (list pystr * list pystr)) :=
  match snd w with
  | [] => Raise EOFError
  | reply :: later => Ok (reply, (fst w, later))
  end.

(** ** [run_client] and [run_async_client]

    Three games over one connection.  The first collects its outcomes in a
    list comprehension; the second appends them in a [for] loop and the
    third in a loop over [next(it)], which both come to [extend_results]:
    the outcomes of the game are appended to the list, and an exception
    leaves [run_client] with the list lost. *)
Definition extend_results (int_of_str : pystr -> option Z) {W : Type}
  (fuel : nat) (results : list (Z * Decision)) (self : ClientSession.t W)
  (w : W) : outcome (list (Z * Decision) * W) :=
  '(more, w) <- ClientSession.collect int_of_str fuel self w ;;
  Ok (results ++ more, w).

Definition async_extend_results (int_of_str : pystr -> option Z) {W : Type}
  (fuel : nat) (results : list (Z * Decision))
  (self : AsyncClientSession.t W) (w : W)
  : outcome (list (Z * Decision) * W) :=
  '(more, w) <- AsyncClientSession.collect int_of_str fuel self w ;;
  Ok (results ++ more, w).

(** [run_client], from the connection made on. *)
Definition run_client (int_of_str : pystr -> option Z) (rng : nat -> Z)
  (sched : nat -> bool) (fuel : nat) (w : Threaded.World)
  : outcome (list (Z * Decision) * Threaded.World) :=
  '(results, w) <-
    Threaded.new_game int_of_str rng sched fuel 1 5 3
      (ClientSession.collect int_of_str fuel) w ;;
  '(results, w) <-
    Threaded.new_game int_of_str rng sched fuel 10 15 12
      (extend_results int_of_str fuel results) w ;;
  '(results, w) <-
    Threaded.new_game int_of_str rng sched fuel 1 3 2
      (extend_results int_of_str fuel results) w ;;
  Ok (results, w).

(** [run_async_client], from the connection made on. *)
Definition run_async_client (int_of_str : pystr -> option Z)
  (rng : nat -> Z) (fuel : nat) (w : EventLoop.World)
  : outcome (list (Z * Decision) * EventLoop.World) :=
  '(results, w) <-
    EventLoop.new_async_game int_of_str rng fuel 1 5 3
      (AsyncClientSession.collect int_of_str fuel) w ;;
  '(results, w) <-
    EventLoop.new_async_game int_of_str rng fuel 10 15 12
      (async_extend_results int_of_str fuel results) w ;;
  '(results, w) <-
    EventLoop.new_async_game int_of_str rng fuel 1 3 2
      (async_extend_results int_of_str fuel results) w ;;
  Ok (results, w).

(** The three games on the protocol state. *)
Definition settled_run (int_of_str : pystr -> option Z) (rng : nat -> Z)
  (fuel : nat) (v : Threaded.World)
  : outcome (list (Z * Decision) * Threaded.World) :=
  '(first, v) <- settled_play int_of_str rng fuel 1 5 3 v ;;
  '(second, v) <- settled_play int_of_str rng fuel 10 15 12 v ;;
  '(third, v) <- settled_play int_of_str rng fuel 1 3 2 v ;;
  Ok ((first ++ second) ++ third, v).

(** The protocol state of a game whose secret has been found. *)
Definition pinned (lower upper secret : Z) (guesses : list Z) (pos : nat)
  : Threaded.World :=
  Threaded.mk (Connection.mk [] false [])
    (ServerSession.mk (Connection.mk [] false []) (Some lower) (Some upper)
       (Some secret) guesses)
    Blocked pos 0.

(** ** [class AsyncIterator] of [bad_example_3]

    [__anext__] counts up and gives the count back until it has passed 3;
    [None] stands for [StopAsyncIteration]. *)
Module AsyncIterator.

Record t : Type := mk { count : Z }.

(** [__init__] *)
Definition init : t := mk 0.

(** [__anext__] *)
Definition anext (self : t) : option Z * t :=
  let self := mk (count self + 1) in
  if count self >? 3 then (None, self) else (Some (count self), self).

(** [[x async for x in iterator]]: [__anext__] is called until it raises
    [StopAsyncIteration]; [fuel] bounds the number of calls. *)
Fixpoint collect (fuel : nat) (self : t) : option (list Z) * t :=
  match fuel with
  | O => (None, self)
  | S fuel' =>
      match anext self with
      | (Some x, self') =>
          let '(later, self'') := collect fuel' self' in
          (option_map (cons x) later, self'')
      | (None, self') => (Some [], self')
      end
  end.

End AsyncIterator.

(** * Facts about the library functions *)

(** ** [math.fabs] *)

Lemma to_double_small a : 0 <= a <= 2 ^ 53 -> to_double a = Some a.
Proof.
  intros Ha. unfold to_double, DBL_MANT_DIG, DBL_MAX_EXP.
  destruct (Z.leb_spec (Z.log2 a + 1) 53) as [H|H]; [reflexivity|].
  assert (Hlog : Z.log2 a = 53).
  { assert (a > 0) by (destruct (Z.eq_dec a 0); [subst; simpl in H; lia | lia]).
    assert (Z.log2 a <= Z.log2 (2^53)) by (apply Z.log2_le_mono; lia).
    rewrite Z.log2_pow2 in H1 by lia. lia. }
  assert (a = 2 ^ 53).
  { assert (Hp : 0 < a) by (destruct (Z.eq_dec a 0); [subst; simpl in H; lia | lia]).
    destruct (Z.log2_spec a Hp) as [L _]. rewrite Hlog in L. lia. }
  subst a. rewrite Hlog. vm_compute. reflexivity.
Qed.

Lemma to_double_shape a :
  2 ^ 53 <= a ->
  let e := Z.log2 a in
  let shift := e - 52 in
  let q := a / 2 ^ shift in
  let r := a mod 2 ^ shift in
  0 < shift /\ 2 ^ 52 <= q < 2 ^ 53 /\ 0 <= r < 2 ^ shift /\ a = q * 2 ^ shift + r
  /\ 2 ^ shift = 2 * 2 ^ (shift - 1) /\ 0 < 2 ^ (shift - 1).
Proof.
  intros Ha e shift q r.
  assert (Hpos : 0 < a) by (assert (0 < 2^53) by (apply Z.pow_pos_nonneg; lia); lia).
  destruct (Z.log2_spec a Hpos) as [L U]. fold e in L, U.
  assert (He : 53 <= e).
  { unfold e. replace 53 with (Z.log2 (2^53)) by (apply Z.log2_pow2; lia).
    apply Z.log2_le_mono; lia. }
  assert (Hs : 0 < shift) by (unfold shift; lia).
  assert (Hp : 0 < 2 ^ shift) by (apply Z.pow_pos_nonneg; lia).
  assert (E1 : 2 ^ e = 2 ^ 52 * 2 ^ shift).
  { rewrite <- Z.pow_add_r by lia. f_equal. unfold shift. lia. }
  assert (E2 : 2 ^ Z.succ e = 2 ^ 53 * 2 ^ shift).
  { rewrite <- Z.pow_add_r by lia. f_equal. unfold shift. lia. }
  assert (Hdm : a = 2 ^ shift * q + r) by (apply Z.div_mod; lia).
  assert (Hr : 0 <= r < 2 ^ shift) by (apply Z.mod_pos_bound; lia).
  assert (E3 : 2 ^ shift = 2 * 2 ^ (shift - 1)).
  { replace shift with (1 + (shift - 1)) at 1 by lia.
    rewrite Z.pow_add_r by lia. reflexivity. }
  assert (0 < 2 ^ (shift - 1)) by (apply Z.pow_pos_nonneg; lia).
  repeat split; try lia.
  - rewrite E1 in L. nia.
  - rewrite E2 in U. nia.
Qed.

Lemma to_double_zero a v : 0 <= a -> to_double a = Some v -> (v = 0 <-> a = 0).
Proof.
  intros Ha. unfold to_double, DBL_MANT_DIG, DBL_MAX_EXP.
  destruct (Z.leb_spec (Z.log2 a + 1) 53) as [H|H].
  - intros [= <-]. tauto.
  - assert (Hbig : 2 ^ 53 <= a).
    { assert (Hp : 0 < a) by (destruct (Z.eq_dec a 0); [subst; simpl in H; lia | lia]).
      destruct (Z.log2_spec a Hp) as [L _].
      apply Z.le_trans with (2 ^ Z.log2 a); [apply Z.pow_le_mono_r; lia | exact L]. }
    destruct (to_double_shape a Hbig) as (Hs & Hq & Hr & Hdm & Hh & Hh0).
    replace (Z.log2 a + 1 - 53) with (Z.log2 a - 52) by lia.
    set (shift := Z.log2 a - 52) in *.
    set (q := a / 2 ^ shift) in *. set (r := a mod 2 ^ shift) in *.
    destruct ((2 ^ (shift - 1) <? r) || ((r =? 2 ^ (shift - 1)) && Z.odd q));
      destruct (Z.ltb_spec ((q+1) * 2 ^ shift) (2 ^ 1024));
      destruct (Z.ltb_spec (q * 2 ^ shift) (2 ^ 1024)); intros [= <-];
      (split; intros Hz; [exfalso|];
       [assert (Hq0 : 0 < q) by (assert (0 < 2 ^ 52) by (apply Z.pow_pos_nonneg; lia); lia);
        assert (0 < 2 ^ shift) by lia;
        first [ assert (0 < (q + 1) * 2 ^ shift) by (apply Z.mul_pos_pos; lia); lia
              | assert (0 < q * 2 ^ shift) by (apply Z.mul_pos_pos; lia); lia ]
       | assert (0 < 2 ^ 53) by (apply Z.pow_pos_nonneg; lia); lia]).
Qed.

Lemma to_double_in_range a :
  0 <= a < 2 ^ 1024 - 2 ^ 970 -> to_double a <> None.
Proof.
  intros Ha. unfold to_double, DBL_MANT_DIG, DBL_MAX_EXP.
  destruct (Z.leb_spec (Z.log2 a + 1) 53) as [H|H]; [discriminate|].
  assert (Hp : 0 < a) by (destruct (Z.eq_dec a 0); [subst; simpl in H; lia | lia]).
  destruct (Z.log2_spec a Hp) as [L U].
  assert (Hbig : 2 ^ 53 <= a).
  { apply Z.le_trans with (2 ^ Z.log2 a); [apply Z.pow_le_mono_r; lia | exact L]. }
  assert (He : Z.log2 a <= 1023).
  { assert (Z.log2 a < 1024); [|lia]. apply Z.log2_lt_pow2; [lia|].
    assert (0 < 2 ^ 970) by (apply Z.pow_pos_nonneg; lia). lia. }
  destruct (to_double_shape a Hbig) as (Hs & Hq & Hr & Hdm & Hh & Hh0).
  replace (Z.log2 a + 1 - 53) with (Z.log2 a - 52) by lia.
  set (shift := Z.log2 a - 52) in *.
  set (q := a / 2 ^ shift) in *. set (r := a mod 2 ^ shift) in *.
  set (half := 2 ^ (shift - 1)) in *.
  assert (Hv : (if (half <? r) || ((r =? half) && Z.odd q) then q + 1 else q) * 2 ^ shift < 2 ^ 1024);
    [| apply Z.ltb_lt in Hv; rewrite Hv; discriminate].
  destruct (Z.eq_dec (Z.log2 a) 1023) as [E|E].
  - assert (Es : shift = 971) by (unfold shift; lia).
    assert (E1 : 2 ^ 1024 = 2 ^ 53 * 2 ^ shift).
    { rewrite <- Z.pow_add_r by lia. f_equal. lia. }
    assert (E2 : 2 ^ 970 = half).
    { unfold half. f_equal. lia. }
    rewrite E1, E2 in Ha. rewrite E1.
    assert (Hup : half <= r -> q + 1 < 2 ^ 53).
    { intros Hr'. apply Z.mul_lt_mono_pos_r with (2 * half); [lia|].
      rewrite <- Hh. lia. }
    assert (0 < 2 ^ shift) by lia.
    destruct (Z.ltb_spec half r); destruct (Z.eqb_spec r half);
      cbn [orb andb]; try destruct (Z.odd q);
      apply Z.mul_lt_mono_pos_r; lia.
  - assert (E1 : 2 ^ 1024 = 2 ^ (1023 - Z.log2 a) * (2 ^ 53 * 2 ^ shift)).
    { rewrite <- !Z.pow_add_r by lia. f_equal. unfold shift. lia. }
    assert (1 <= 2 ^ (1023 - Z.log2 a) - 1).
    { assert (2 ^ 1 <= 2 ^ (1023 - Z.log2 a)) by (apply Z.pow_le_mono_r; lia).
      change (2 ^ 1) with 2 in *. lia. }
    rewrite E1.
    assert (0 < 2 ^ shift) by lia.
    assert (Hle : (if (half <? r) || ((r =? half) && Z.odd q) then q + 1 else q)
                  <= 2 ^ 53)
      by (destruct ((half <? r) || ((r =? half) && Z.odd q)); lia).
    apply Z.le_lt_trans with (2 ^ 53 * 2 ^ shift);
      [apply Z.mul_le_mono_nonneg_r; lia|].
    assert (0 < 2 ^ 53 * 2 ^ shift)
      by (apply Z.mul_pos_pos; [apply Z.pow_pos_nonneg|]; lia).
    set (P := 2 ^ 53 * 2 ^ shift) in *. set (M := 2 ^ (1023 - Z.log2 a)) in *.
    clearbody P M. nia.
Qed.

(** ** UTF-8 *)

Lemma to_N_byte_of_N n : (n < 256)%N -> Byte.to_N (byte_of_N n) = n.
Proof.
  intros Hn. unfold byte_of_N. destruct (Byte.of_N n) as [b|] eqn:E.
  - apply Byte.to_of_N. exact E.
  - apply Byte.of_N_None_iff in E. lia.
Qed.

Local Ltac arith := zify; Z.to_euclidean_division_equations; lia.

Lemma is_cont_byte_of_N x : (x < 64)%N -> is_cont (byte_of_N (0x80 + x)) = true.
Proof.
  intros Hx. unfold is_cont. rewrite to_N_byte_of_N by lia.
  apply andb_true_intro. split; [apply N.leb_le | apply N.ltb_lt]; lia.
Qed.

Lemma cont_byte_of_N x : (x < 64)%N -> cont (byte_of_N (0x80 + x)) = x.
Proof. intros Hx. unfold cont. rewrite to_N_byte_of_N by lia. lia. Qed.

Lemma decode_cons b1 r1 :
  decode (b1 :: r1) =
    let n1 := Byte.to_N b1 in
      if (n1 <? 0x80)%N then option_map (cons n1) (decode r1)
      else if (n1 <? 0xC2)%N then None
      else if (n1 <? 0xE0)%N then
        match r1 with
        | b2 :: r2 =>
            if is_cont b2
            then option_map (cons ((n1 - 0xC0) * 64 + cont b2)%N) (decode r2)
            else None
        | _ => None
        end
      else if (n1 <? 0xF0)%N then
        match r1 with
        | b2 :: b3 :: r3 =>
            let c := ((n1 - 0xE0) * 4096 + cont b2 * 64 + cont b3)%N in
            if is_cont b2 && is_cont b3 && (0x800 <=? c)%N && negb (is_surrogate c)
            then option_map (cons c) (decode r3)
            else None
        | _ => None
        end
      else if (n1 <? 0xF5)%N then
        match r1 with
        | b2 :: b3 :: b4 :: r4 =>
            let c := ((n1 - 0xF0) * 262144 + cont b2 * 4096
                      + cont b3 * 64 + cont b4)%N in
            if is_cont b2 && is_cont b3 && is_cont b4
               && (0x10000 <=? c)%N && (c <? 0x110000)%N
            then option_map (cons c) (decode r4)
            else None
        | _ => None
        end
      else None.
Proof. reflexivity. Qed.

Local Ltac ltb_true := match goal with
  |- context [N.ltb ?a ?b] => replace (N.ltb a b) with true by (symmetry; apply N.ltb_lt; arith) end.
Local Ltac ltb_false := match goal with
  |- context [N.ltb ?a ?b] => replace (N.ltb a b) with false by (symmetry; apply N.ltb_ge; arith) end.
Local Ltac leb_true := match goal with
  |- context [N.leb ?a ?b] => replace (N.leb a b) with true by (symmetry; apply N.leb_le; arith) end.
Local Ltac leb_false := match goal with
  |- context [N.leb ?a ?b] => replace (N.leb a b) with false by (symmetry; apply N.leb_gt; arith) end.

Lemma decode_encode_char_match c rest :
  match encode_char c with
  | Some bs => decode (bs ++ rest) = option_map (cons c) (decode rest)
  | None => True
  end.
Proof.
  unfold encode_char, is_surrogate.
  destruct (N.ltb_spec c 0x80) as [H1|H1].
  { unfold List.app. rewrite decode_cons. cbv zeta. rewrite to_N_byte_of_N by lia.
    ltb_true. reflexivity. }
  destruct (N.ltb_spec c 0x800) as [H2|H2].
  { unfold List.app. rewrite decode_cons. cbv zeta.
    rewrite to_N_byte_of_N by arith.
    ltb_false. ltb_false. ltb_true. cbv iota.
    rewrite is_cont_byte_of_N, cont_byte_of_N by arith.
    f_equal. f_equal. arith. }
  destruct (N.ltb_spec c 0x10000) as [H3|H3].
  { destruct (N.leb_spec 0xD800 c) as [H4|H4];
      destruct (N.leb_spec c 0xDFFF) as [H5|H5]; cbn [andb]; try exact I;
      unfold List.app; rewrite decode_cons; cbv zeta;
      rewrite to_N_byte_of_N by arith;
      do 3 ltb_false; ltb_true; cbv iota;
      rewrite !is_cont_byte_of_N, !cont_byte_of_N by arith;
      replace ((224 + c / 4096 - 224) * 4096 + (c / 64) mod 64 * 64 + c mod 64)%N
        with c by arith;
      unfold is_surrogate; leb_true.
    - leb_false. leb_true. reflexivity.
    - leb_true. leb_false. reflexivity.
    - leb_false. leb_true. reflexivity. }
  destruct (N.ltb_spec c 0x110000) as [H4|H4]; [|exact I].
  unfold List.app. rewrite decode_cons; cbv zeta.
  rewrite to_N_byte_of_N by arith.
  do 4 ltb_false. ltb_true. cbv iota.
  rewrite !is_cont_byte_of_N, !cont_byte_of_N by arith.
  replace ((240 + c / 262144 - 240) * 262144 + (c / 4096) mod 64 * 4096
           + (c / 64) mod 64 * 64 + c mod 64)%N with c by arith.
  leb_true. ltb_true. reflexivity.
Qed.

Lemma decode_encode_char c bs rest :
  encode_char c = Some bs ->
  decode (bs ++ rest) = option_map (cons c) (decode rest).
Proof.
  intros E. generalize (decode_encode_char_match c rest). rewrite E. trivial.
Qed.

Lemma decode_encode s : forall bs, encode s = Some bs -> decode bs = Some s.
Proof.
  induction s as [|c s IH]; intros bs.
  - intros [= <-]. reflexivity.
  - cbn [encode]. destruct (encode_char c) as [b|] eqn:Ec; [|discriminate].
    destruct (encode s) as [bs'|]; [|discriminate].
    intros [= <-]. rewrite (decode_encode_char c b bs' Ec).
    rewrite (IH bs' eq_refl). reflexivity.
Qed.

Lemma encode_app s t :
  encode (s ++ t) =
    match encode s, encode t with
    | Some a, Some b => Some (a ++ b)
    | _, _ => None
    end.
Proof.
  induction s as [|c s IH]; cbn [List.app encode].
  - destruct (encode t); reflexivity.
  - rewrite IH. destruct (encode_char c), (encode s), (encode t);
      try reflexivity. rewrite app_assoc. reflexivity.
Qed.

Lemma encode_newline : encode [NEWLINE] = Some [x0a].
Proof. reflexivity. Qed.

Lemma line_bytes_encode command data :
  encode command = Some data -> line_bytes command = data ++ [x0a].
Proof.
  intros E. unfold line_bytes. rewrite encode_app, E, encode_newline.
  reflexivity.
Qed.

(** Every byte of an encoded character is the character itself or lies
    above the ASCII range. *)
Lemma encode_char_bytes c bs b :
  encode_char c = Some bs -> In b bs ->
  Byte.to_N b = c \/ (128 <= Byte.to_N b)%N.
Proof.
  unfold encode_char, is_surrogate.
  destruct (N.ltb_spec c 0x80) as [H1|H1].
  { intros E Hin. assert (Hb : In b [byte_of_N c]) by congruence.
    destruct Hb as [<-|[]]. left. apply to_N_byte_of_N. lia. }
  intros E Hin. right.
  assert (Hall : forall x y, (128 <= x)%N -> (x + y < 256)%N ->
                  b = byte_of_N (x + y) -> (128 <= Byte.to_N b)%N).
  { intros x y Hx Hy ->. rewrite to_N_byte_of_N by lia. lia. }
  destruct (N.ltb_spec c 0x800) as [H2|H2].
  { assert (Hb : In b [byte_of_N (0xC0 + c / 64); byte_of_N (0x80 + c mod 64)])
      by congruence.
    destruct Hb as [Hb|[Hb|[]]]; symmetry in Hb;
      (eapply Hall; [| |exact Hb]; arith). }
  destruct (N.ltb_spec c 0x10000) as [H3|H3].
  { destruct ((0xD800 <=? c)%N && (c <=? 0xDFFF)%N); [discriminate|].
    assert (Hb : In b [byte_of_N (0xE0 + c / 4096);
                       byte_of_N (0x80 + (c / 64) mod 64);
                       byte_of_N (0x80 + c mod 64)]) by congruence.
    destruct Hb as [Hb|[Hb|[Hb|[]]]]; symmetry in Hb;
      (eapply Hall; [| |exact Hb]; arith). }
  destruct (N.ltb_spec c 0x110000) as [H4|H4]; [|discriminate].
  assert (Hb : In b [byte_of_N (0xF0 + c / 262144);
                     byte_of_N (0x80 + (c / 4096) mod 64);
                     byte_of_N (0x80 + (c / 64) mod 64);
                     byte_of_N (0x80 + c mod 64)]) by congruence.
  destruct Hb as [Hb|[Hb|[Hb|[Hb|[]]]]]; symmetry in Hb;
    (eapply Hall; [| |exact Hb]; arith).
Qed.

(** The newline byte occurs in encoded text only where the text has a
    newline. *)
Lemma encode_no_newline s : forall bs,
  encode s = Some bs -> ~ In NEWLINE s -> ~ In x0a bs.
Proof.
  induction s as [|c s IH]; intros bs.
  - intros [= <-] _ [].
  - cbn [encode]. destruct (encode_char c) as [b|] eqn:Ec; [|discriminate].
    destruct (encode s) as [bs'|]; [|discriminate].
    intros E. assert (Hbs : bs = b ++ bs') by congruence. subst bs. clear E.
    intros Hnl Hin. apply in_app_or in Hin. destruct Hin as [Hin|Hin].
    + destruct (encode_char_bytes _ _ _ Ec Hin) as [H|H].
      * apply Hnl. left. symmetry. exact H.
      * cbv in H. apply H. reflexivity.
    + apply (IH bs' eq_refl); [|exact Hin]. intros H. apply Hnl. right. exact H.
Qed.

(** ** Lines *)

Lemma cut_line_newline body rest :
  ~ In x0a body -> cut_line (body ++ x0a :: rest) = Some (body ++ [x0a], rest).
Proof.
  induction body as [|b body IH]; intros Hnl.
  - reflexivity.
  - cbn [List.app cut_line]. destruct (Byte.eqb b x0a) eqn:Eb.
    + apply Byte.byte_dec_bl in Eb. exfalso. apply Hnl. left. exact Eb.
    + rewrite IH; [reflexivity|]. intros H. apply Hnl. right. exact H.
Qed.

Lemma cut_line_none bs : ~ In x0a bs -> cut_line bs = None.
Proof.
  induction bs as [|b bs IH]; intros Hnl; [reflexivity|].
  cbn [cut_line]. destruct (Byte.eqb b x0a) eqn:Eb.
  - apply Byte.byte_dec_bl in Eb. exfalso. apply Hnl. left. exact Eb.
  - rewrite IH; [reflexivity|]. intros H. apply Hnl. right. exact H.
Qed.

Lemma cut_line_some bs line rest :
  cut_line bs = Some (line, rest) ->
  exists body, line = body ++ [x0a] /\ ~ In x0a body /\ bs = line ++ rest.
Proof.
  revert line rest. induction bs as [|b bs IH]; intros line rest; [discriminate|].
  cbn [cut_line]. destruct (Byte.eqb b x0a) eqn:Eb.
  - apply Byte.byte_dec_bl in Eb. subst b. intros [= <- <-].
    exists []. repeat split. intros [].
  - destruct (cut_line bs) as [[l r]|]; [|discriminate].
    intros [= <- <-]. destruct (IH l r eq_refl) as (body & -> & Hnl & ->).
    exists (b :: body). repeat split.
    intros [H|H]; [|exact (Hnl H)]. subst b. discriminate.
Qed.

Lemma cut_line_none_inv bs : cut_line bs = None -> ~ In x0a bs.
Proof.
  induction bs as [|b bs IH]; [intros _ []|].
  cbn [cut_line]. destruct (Byte.eqb b x0a) eqn:Eb; [discriminate|].
  destruct (cut_line bs) as [[l r]|]; [discriminate|].
  intros _ [H|H]; [|exact (IH eq_refl H)]. subst b. discriminate.
Qed.

Lemma cut_line_app bs more line rest :
  cut_line bs = Some (line, rest) ->
  cut_line (bs ++ more) = Some (line, rest ++ more).
Proof.
  intros H. destruct (cut_line_some _ _ _ H) as (body & -> & Hnl & ->).
  rewrite <- !app_assoc. cbn [List.app]. apply cut_line_newline. exact Hnl.
Qed.

Lemma cut_line_shorter bs line rest :
  cut_line bs = Some (line, rest) -> (length rest < length bs)%nat.
Proof.
  intros H. destruct (cut_line_some _ _ _ H) as (body & -> & _ & ->).
  rewrite !length_app. cbn. lia.
Qed.

(** ** [Connection.send] and [Connection.receive] *)

Lemma receive_line c body rest :
  ~ In x0a body ->
  Connection.incoming c = body ++ x0a :: rest ->
  Connection.receive c =
    match decode body with
    | Some text =>
        Ok (text, Connection.mk rest (Connection.at_eof c) (Connection.outgoing c))
    | None => Raise UnicodeDecodeError
    end.
Proof.
  intros Hnl Hin. unfold Connection.receive, Connection.readline.
  rewrite Hin, (cut_line_newline body rest Hnl). cbn [bind].
  rewrite removelast_last.
  destruct body; cbn [List.app]; reflexivity.
Qed.

Lemma receive_eof c :
  Connection.receive c = Raise EOFError <->
  Connection.incoming c = [] /\ Connection.at_eof c = true.
Proof.
  unfold Connection.receive, Connection.readline.
  destruct (cut_line (Connection.incoming c)) as [[line rest]|] eqn:E.
  - destruct (cut_line_some _ _ _ E) as (body & -> & _ & Hbs).
    cbn [bind]. rewrite removelast_last. split.
    + destruct body; cbn [List.app]; destruct (decode _); discriminate.
    + intros [H _]. rewrite H in Hbs. destruct body; discriminate.
  - destruct (Connection.at_eof c); cbn [bind].
    + destruct (Connection.incoming c) as [|b bs].
      * tauto.
      * split; [|intros [? _]; discriminate].
        destruct (decode (removelast (b :: bs))); discriminate.
    + split; [discriminate|intros [_ ?]; discriminate].
Qed.

Lemma send_line c command data :
  encode command = Some data ->
  Connection.send c command =
    Ok (Connection.mk (Connection.incoming c) (Connection.at_eof c)
          (Connection.outgoing c ++ data ++ [x0a])).
Proof.
  intros E. unfold Connection.send.
  rewrite encode_app, E, encode_newline. reflexivity.
Qed.

Lemma send_ok_inv c command c' :
  Connection.send c command = Ok c' ->
  exists data, encode command = Some data /\
    c' = Connection.mk (Connection.incoming c) (Connection.at_eof c)
           (Connection.outgoing c ++ data ++ [x0a]).
Proof.
  unfold Connection.send. rewrite encode_app, encode_newline.
  destruct (encode command) as [data|]; [|discriminate].
  intros [= <-]. exists data. split; reflexivity.
Qed.

Lemma receive_sent_line command data rest eof out :
  encode command = Some data -> ~ In NEWLINE command ->
  Connection.receive (Connection.mk (data ++ x0a :: rest) eof out) =
    Ok (command, Connection.mk rest eof out).
Proof.
  intros E Hnl.
  rewrite (receive_line (Connection.mk (data ++ x0a :: rest) eof out) data rest);
    [|exact (encode_no_newline command data E Hnl)|reflexivity].
  rewrite (decode_encode command data E). reflexivity.
Qed.

(** * The wire codec *)

(** A final line that the peer did not end with a newline loses its last
    byte all the same: [line[:-1]] does not look at what it drops. *)
Example receive_unterminated_line :
  Connection.receive (Connection.mk [x61; x62; x63] true []) =
    Ok (lit "ab", Connection.mk [] true []).
Proof. reflexivity. Qed.

(** C8, as stated, fails: a line that is not valid UTF-8 is read but not
    returned ([receive] raises [UnicodeDecodeError], not [EOFError]), and a
    command without any newline that holds a lone surrogate cannot be sent
    at all. *)
Lemma receive_is_not_total_on_lines :
  Connection.readline (Connection.mk [xff; x0a] false []) =
    Ok ([xff; x0a], Connection.mk [] false [])
  /\ Connection.receive (Connection.mk [xff; x0a] false []) =
       Raise UnicodeDecodeError
  /\ ~ In NEWLINE [0xD800%N]
  /\ Connection.send (Connection.mk [] false []) [0xD800%N] =
       Raise UnicodeEncodeError.
Proof.
  repeat split.
  intros [H|[]]. discriminate.
Qed.

(** C8, amended.  [receive] takes one line off the stream; a line that ends
    in a newline is returned without it, decoded as UTF-8 (bytes that are
    not UTF-8 raise [UnicodeDecodeError]); [EOFError] is raised exactly when
    the stream has no more bytes and is closed; [send] appends exactly one
    newline to the encoded command; and what [send] wrote for a command that
    has no newline comes back from [receive] unchanged. *)
Theorem wire_codec_round_trip :
  (forall c body rest,
      ~ In x0a body ->
      Connection.incoming c = body ++ x0a :: rest ->
      Connection.receive c =
        match decode body with
        | Some text =>
            Ok (text,
                Connection.mk rest (Connection.at_eof c) (Connection.outgoing c))
        | None => Raise UnicodeDecodeError
        end)
  /\ (forall c,
        Connection.receive c = Raise EOFError <->
        Connection.incoming c = [] /\ Connection.at_eof c = true)
  /\ (forall c command data,
        encode command = Some data ->
        Connection.send c command =
          Ok (Connection.mk (Connection.incoming c) (Connection.at_eof c)
                (Connection.outgoing c ++ data ++ [x0a])))
  /\ (forall sender sender' command eof out,
        ~ In NEWLINE command ->
        Connection.outgoing sender = [] ->
        Connection.send sender command = Ok sender' ->
        Connection.receive
          (Connection.mk (Connection.outgoing sender') eof out) =
          Ok (command, Connection.mk [] eof out)).
Proof.
  split; [exact receive_line|].
  split; [exact receive_eof|].
  split; [exact send_line|].
  intros sender sender' command eof out Hnl Hempty Hsend.
  destruct (send_ok_inv _ _ _ Hsend) as (data & E & ->).
  cbn [Connection.outgoing]. rewrite Hempty. cbn [List.app].
  change (data ++ [x0a]) with (data ++ x0a :: []).
  apply receive_sent_line; assumption.
Qed.

Lemma wire_codec_round_trip_witness :
  Connection.receive
    (Connection.mk (line_bytes (lit "REPORT Warmer")) false []) =
    Ok (lit "REPORT Warmer", Connection.mk [] false []).
Proof.
  refine (proj2 (proj2 (proj2 wire_codec_round_trip))
            (Connection.mk [] false [])
            (Connection.mk [] false (line_bytes (lit "REPORT Warmer")))
            (lit "REPORT Warmer") false [] _ _ _).
  - intros H. vm_compute in H. intuition discriminate.
  - reflexivity.
  - reflexivity.
Defined.

(** * The decision rule of the client *)

Lemma fabs_exact x : Z.abs x <= 2 ^ 53 -> fabs x = Ok (Z.abs x).
Proof.
  intros H. unfold fabs. rewrite to_double_small; [reflexivity|lia].
Qed.

Lemma fabs_zero x v : fabs x = Ok v -> (v = 0 <-> x = 0).
Proof.
  unfold fabs. destruct (to_double (Z.abs x)) as [d|] eqn:E; [|discriminate].
  intros [= <-]. pose proof (to_double_zero (Z.abs x) d (Z.abs_nonneg x) E). lia.
Qed.

Lemma fabs_in_range x : Z.abs x < FABS_LIMIT -> exists v, fabs x = Ok v.
Proof.
  intros H. unfold fabs.
  destruct (to_double (Z.abs x)) as [d|] eqn:E; [exists d; reflexivity|].
  exfalso. apply (to_double_in_range (Z.abs x)); [|exact E].
  unfold FABS_LIMIT in H. lia.
Qed.

Lemma fabs_cases x : (exists v, fabs x = Ok v) \/ fabs x = Raise OverflowError.
Proof.
  unfold fabs. destruct (to_double (Z.abs x)) as [d|]; [left; exists d|right];
    reflexivity.
Qed.

(** What one completed call of [report_outcome] returns and leaves behind. *)
Lemma report_outcome_ok {W : Type} (self self' : ClientSession.t W)
  (number : Z) (w w' : W) (decision : Decision) :
  ClientSession.report_outcome self number w = Ok (decision, self', w') ->
  (decision = Correct <-> number = ClientSession.secret self)
  /\ (decision = Unsure <->
      ClientSession.last_distance self = None
      /\ number <> ClientSession.secret self)
  /\ ClientSession.secret self' = ClientSession.secret self
  /\ ClientSession.send self' = ClientSession.send self
  /\ ClientSession.receive self' = ClientSession.receive self
  /\ exists d, ClientSession.last_distance self' = Some d.
Proof.
  unfold ClientSession.report_outcome.
  destruct (fabs (number - ClientSession.secret self)) as [d| | |] eqn:E;
    cbn [bind]; try discriminate.
  pose proof (fabs_zero _ _ E) as Hz.
  match goal with
  | |- context [ClientSession.send ?s ?c w] =>
      destruct (ClientSession.send s c w) as [w1| | |]
  end; cbn [bind]; try discriminate.
  intros H. injection H as Hd Hs Hw. subst self' w'.
  cbn [ClientSession.secret ClientSession.send ClientSession.receive
       ClientSession.last_distance].
  repeat split; try (exists d; reflexivity); subst decision;
    destruct (Z.eqb_spec d 0) as [Hd|Hd];
    destruct (ClientSession.last_distance self) as [last|];
    try destruct (d <? last); try destruct (d >? last);
    try tauto; try discriminate; try lia;
    try (intros [? ?]; try discriminate; lia); try (intros; exfalso; lia).
Qed.

(** C2, as stated, fails: the distance is a double.  With secret 0 and a
    previous distance of [2^53], the guess [2^53 + 1] is farther away, so the
    rule on exact distances says [Colder]; [math.fabs] rounds the new
    distance to [2^53] and the session reports [Same]. *)
Lemma report_outcome_rounds_distance :
  let self :=
    ClientSession.mk record_send never_receive 0 (Some (2 ^ 53)) in
  exact_rule 0 (Some (2 ^ 53)) (2 ^ 53 + 1) = (Colder, 2 ^ 53 + 1)
  /\ ClientSession.report_outcome self (2 ^ 53 + 1) [] =
       Ok (Same,
           ClientSession.mk record_send never_receive 0 (Some (2 ^ 53)),
           [lit "REPORT Same"]).
Proof. split; reflexivity. Qed.

(** C2, amended.  [report_outcome] (and its coroutine twin) computes
    [new_distance] as the double nearest to [abs(number - secret)], which is
    [abs(number - secret)] itself as long as that is at most [2^53]; on such
    distances it returns the first matching decision in the stated order,
    stores [new_distance] in [last_distance] and sends the report. *)
Theorem report_outcome_decision_rule :
  forall (W : Type) (send : pystr -> W -> outcome W)
         (receive : W -> outcome (pystr * W))
         (secret : Z) (last_distance : option Z) (number : Z) (w : W),
    Z.abs (number - secret) <= 2 ^ 53 ->
    let decision := fst (exact_rule secret last_distance number) in
    let new_distance := snd (exact_rule secret last_distance number) in
    new_distance = Z.abs (number - secret)
    /\ ClientSession.report_outcome
         (ClientSession.mk send receive secret last_distance) number w =
         (w' <- send (lit "REPORT " ++ decision_text decision) w ;;
          Ok (decision,
              ClientSession.mk send receive secret (Some new_distance), w'))
    /\ AsyncClientSession.report_outcome
         (AsyncClientSession.mk send receive secret last_distance) number w =
         (w' <- send (lit "REPORT " ++ decision_text decision) w ;;
          Ok (decision,
              AsyncClientSession.mk send receive secret (Some new_distance),
              w')).
Proof.
  intros W send receive secret last_distance number w Hsmall decision
    new_distance.
  split; [reflexivity|].
  unfold ClientSession.report_outcome, AsyncClientSession.report_outcome.
  cbn [ClientSession.secret ClientSession.last_distance ClientSession.send
       ClientSession.receive AsyncClientSession.secret
       AsyncClientSession.last_distance AsyncClientSession.send
       AsyncClientSession.receive].
  rewrite (fabs_exact _ Hsmall). cbn [bind].
  split; reflexivity.
Qed.

Lemma report_outcome_decision_rule_witness :
  ClientSession.report_outcome
    (ClientSession.mk record_send never_receive 3 (Some 2)) 4 [] =
    Ok (Warmer, ClientSession.mk record_send never_receive 3 (Some 1),
        [lit "REPORT Warmer"]).
Proof.
  refine (proj1 (proj2 (report_outcome_decision_rule
            (list pystr) record_send never_receive 3 (Some 2) 4 [] _))).
  vm_compute. discriminate.
Defined.

(** C6, as stated, fails: when the first guess of a game is the secret the
    first call returns [Correct], not [Unsure]. *)
Lemma first_call_may_be_correct :
  reports (ClientSession.init record_send never_receive 3) [3] [] =
    Ok ([Correct],
        ClientSession.mk record_send never_receive 3 (Some 0),
        [lit "REPORT Correct"]).
Proof. reflexivity. Qed.

Lemma reports_ok {W : Type} (numbers : list Z) :
  forall (self self' : ClientSession.t W) (w w' : W) (decisions : list Decision),
    reports self numbers w = Ok (decisions, self', w') ->
    length decisions = length numbers
    /\ ClientSession.secret self' = ClientSession.secret self
    /\ forall (k : nat) (number : Z) (decision : Decision),
        nth_error numbers k = Some number ->
        nth_error decisions k = Some decision ->
        (decision = Unsure <->
         (k = 0%nat /\ ClientSession.last_distance self = None)
         /\ number <> ClientSession.secret self)
        /\ (decision = Correct <-> number = ClientSession.secret self).
Proof.
  induction numbers as [|n numbers IH]; intros self self' w w' decisions.
  - intros [= <- <- <-]. repeat split; try reflexivity.
    all: destruct k; discriminate.
  - cbn [reports].
    destruct (ClientSession.report_outcome self n w) as [[[d s1] w1]| | |] eqn:E1;
      cbn [bind]; try discriminate.
    destruct (reports s1 numbers w1) as [[[ds s2] w2]| | |] eqn:E2;
      cbn [bind]; try discriminate.
    intros [= <- <- <-].
    destruct (report_outcome_ok _ _ _ _ _ _ E1)
      as (Hc & Hu & Hsec & _ & _ & (dist & Hdist)).
    destruct (IH _ _ _ _ _ E2) as (Hlen & Hsec2 & Hrest).
    split; [cbn [length]; congruence|].
    split; [congruence|].
    intros [|k] number decision; cbn [nth_error].
    + intros [= <-] [= <-]. split; [|exact Hc]. rewrite Hu. tauto.
    + intros Hn Hd. destruct (Hrest k number decision Hn Hd) as [Hu' Hc'].
      rewrite Hsec in Hu', Hc'. split; [|exact Hc'].
      rewrite Hu', Hdist. split; [intros [[_ ?] _]|intros [[? _] _]];
        discriminate.
Qed.

(** C6, amended.  In a game (the calls of [report_outcome] on one session,
    each of which returns), a call returns [Unsure] exactly when it is the
    first call and its number is not the secret, so never on a later call;
    and a call returns [Correct] if and only if its number is the secret. *)
Theorem unsure_first_call_correct_iff_secret :
  forall (W : Type) (send : pystr -> W -> outcome W)
         (receive : W -> outcome (pystr * W)) (secret : Z)
         (numbers : list Z) (w w' : W) (self' : ClientSession.t W)
         (decisions : list Decision),
    reports (ClientSession.init send receive secret) numbers w =
      Ok (decisions, self', w') ->
    length decisions = length numbers
    /\ forall (k : nat) (number : Z) (decision : Decision),
        nth_error numbers k = Some number ->
        nth_error decisions k = Some decision ->
        (decision = Unsure <-> k = 0%nat /\ number <> secret)
        /\ (decision = Correct <-> number = secret).
Proof.
  intros W send receive secret numbers w w' self' decisions H.
  destruct (reports_ok numbers _ _ _ _ _ H) as (Hlen & _ & Hall).
  split; [exact Hlen|].
  intros k number decision Hn Hd.
  destruct (Hall k number decision Hn Hd) as [Hu Hc].
  cbn [ClientSession.init ClientSession.secret ClientSession.last_distance]
    in Hu, Hc.
  split; [|exact Hc]. rewrite Hu. tauto.
Qed.

Lemma unsure_first_call_correct_iff_secret_witness :
  (Unsure = Unsure <-> 0%nat = 0%nat /\ 1 <> 3)
  /\ (Unsure = Correct <-> 1 = 3).
Proof.
  refine (proj2 (unsure_first_call_correct_iff_secret
            (list pystr) record_send never_receive 3 [1; 4; 3] []
            [lit "REPORT Unsure"; lit "REPORT Warmer"; lit "REPORT Correct"]
            (ClientSession.mk record_send never_receive 3 (Some 0))
            [Unsure; Warmer; Correct] _) 0%nat 1 Unsure _ _);
    reflexivity.
Defined.

(** * Facts about numerals and command texts *)

Definition numeral_char (c : N) : Prop :=
  c = 45%N \/ (48 <= c <= 57)%N.

Lemma digits_chars u : Forall numeral_char (digits u).
Proof.
  induction u; cbn [digits]; constructor; try assumption;
    right; lia.
Qed.

Lemma str_chars z : Forall numeral_char (str z).
Proof.
  unfold str. destruct (Z.to_int z) as [u|u].
  - apply digits_chars.
  - constructor; [left; reflexivity|apply digits_chars].
Qed.

Lemma undigits_digits u : undigits (digits u) = Some u.
Proof.
  induction u; cbn [digits undigits]; try rewrite IHu; reflexivity.
Qed.

Lemma digits_head_not_minus u c s : digits u = c :: s -> c <> 45%N.
Proof.
  intros H. pose proof (digits_chars u) as F. rewrite H in F.
  inversion F as [|? ? Hc _]; subst.
  destruct u; cbn [digits] in H; try discriminate;
    injection H as <- _; discriminate.
Qed.

(** The ASCII reader reads back what [str] prints. *)
Lemma int_ascii_str z : int_ascii (str z) = Some z.
Proof.
  rewrite <- (DecimalZ.of_to z) at 2. unfold str.
  destruct z as [|p|p]; cbn [Z.to_int].
  - reflexivity.
  - pose proof (DecimalPos.Unsigned.to_uint_nonnil p) as Hnn.
    destruct (digits (Pos.to_uint p)) as [|c s] eqn:E.
    { destruct (Pos.to_uint p); try discriminate. congruence. }
    unfold int_ascii.
    destruct (N.eqb_spec c 45) as [Hc|Hc];
      [exfalso; exact (digits_head_not_minus _ _ _ E Hc)|].
    rewrite <- E, undigits_digits. reflexivity.
  - pose proof (DecimalPos.Unsigned.to_uint_nonnil p) as Hnn.
    unfold int_ascii. rewrite N.eqb_refl.
    destruct (digits (Pos.to_uint p)) as [|c s] eqn:E.
    { destruct (Pos.to_uint p); try discriminate. congruence. }
    rewrite <- E, undigits_digits. reflexivity.
Qed.

Lemma numeral_no_char (c : N) s :
  Forall numeral_char s -> ~ numeral_char c -> ~ In c s.
Proof.
  intros F Hc Hin. rewrite Forall_forall in F. exact (Hc (F c Hin)).
Qed.

Lemma str_no_space z : ~ In SPACE (str z).
Proof.
  apply numeral_no_char; [apply str_chars|].
  unfold numeral_char, SPACE. lia.
Qed.

Lemma str_no_newline z : ~ In NEWLINE (str z).
Proof.
  apply numeral_no_char; [apply str_chars|].
  unfold numeral_char, NEWLINE. lia.
Qed.

Lemma encode_ascii s :
  Forall (fun c => (c < 128)%N) s -> encode s = Some (map byte_of_N s).
Proof.
  induction 1 as [|c s Hc _ IH]; [reflexivity|].
  cbn [encode map]. rewrite IH. unfold encode_char.
  apply N.ltb_lt in Hc. rewrite Hc. reflexivity.
Qed.

Lemma str_ascii z : Forall (fun c => (c < 128)%N) (str z).
Proof.
  eapply Forall_impl; [|apply str_chars].
  intros c [->|H]; lia.
Qed.

Lemma split_no_sep sep s : ~ In sep s -> split sep s = [s].
Proof.
  induction s as [|c s IH]; intros H; [reflexivity|].
  cbn [split]. destruct (N.eqb_spec c sep) as [->|_].
  - exfalso. apply H. left. reflexivity.
  - rewrite IH; [reflexivity|]. intros Hin. apply H. right. exact Hin.
Qed.

Lemma split_app sep s t :
  ~ In sep s -> split sep (s ++ sep :: t) = s :: split sep t.
Proof.
  induction s as [|c s IH]; intros H.
  - cbn [List.app split]. rewrite N.eqb_refl. reflexivity.
  - cbn [List.app split]. destruct (N.eqb_spec c sep) as [->|_].
    + exfalso. apply H. left. reflexivity.
    + rewrite IH; [reflexivity|]. intros Hin. apply H. right. exact Hin.
Qed.

Lemma pystr_eqb_refl s : pystr_eqb s s = true.
Proof.
  unfold pystr_eqb. destruct (list_eq_dec N.eq_dec s s); congruence.
Qed.

Lemma pystr_eqb_eq s t : pystr_eqb s t = true <-> s = t.
Proof.
  unfold pystr_eqb. destruct (list_eq_dec N.eq_dec s t); split;
    congruence.
Qed.

Lemma split_params lower upper :
  split SPACE (render (PARAMS lower upper)) =
    [lit "PARAMS"; str lower; str upper].
Proof.
  unfold render.
  change (lit "PARAMS " ++ str lower ++ lit " " ++ str upper)
    with (lit "PARAMS" ++ SPACE :: (str lower ++ SPACE :: str upper)).
  rewrite split_app by (intros H; repeat (destruct H as [H|H]; [discriminate H|]); exact H).
  rewrite split_app by apply str_no_space.
  rewrite split_no_sep by apply str_no_space. reflexivity.
Qed.

(** Rendered commands are plain ASCII without a newline, so they encode
    byte for byte and are not empty. *)
Lemma ascii_check s :
  forallb (fun c => (c <? 128)%N) s = true ->
  Forall (fun c => (c < 128)%N) s.
Proof.
  intros H. rewrite forallb_forall in H. apply Forall_forall.
  intros c Hc. apply N.ltb_lt. exact (H c Hc).
Qed.

Lemma render_ascii c : Forall (fun c => (c < 128)%N) (render c).
Proof.
  destruct c as [lower upper| |d|]; unfold render.
  - apply Forall_app. split; [apply ascii_check; reflexivity|].
    apply Forall_app. split; [apply str_ascii|].
    apply Forall_app. split; [apply ascii_check; reflexivity|apply str_ascii].
  - apply ascii_check; reflexivity.
  - destruct d; apply ascii_check; reflexivity.
  - apply ascii_check; reflexivity.
Qed.

Lemma render_no_newline c : ~ In NEWLINE (render c).
Proof.
  assert (Hlit : forall s, existsb (N.eqb NEWLINE) s = false -> ~ In NEWLINE s).
  { intros s H Hin. assert (E : existsb (N.eqb NEWLINE) s = true).
    { apply existsb_exists. exists NEWLINE. split; [exact Hin|apply N.eqb_refl]. }
    congruence. }
  destruct c as [lower upper| |d|]; unfold render.
  - rewrite !in_app_iff. intros [H|[H|[H|H]]].
    + revert H. apply Hlit. reflexivity.
    + exact (str_no_newline _ H).
    + revert H. apply Hlit. reflexivity.
    + exact (str_no_newline _ H).
  - apply Hlit. reflexivity.
  - destruct d; apply Hlit; reflexivity.
  - apply Hlit. reflexivity.
Qed.

Lemma render_not_empty c : render c <> [].
Proof. destruct c as [lower upper| |d|]; try destruct d; discriminate. Qed.

Lemma encode_render c : encode (render c) = Some (map byte_of_N (render c)).
Proof. apply encode_ascii, render_ascii. Qed.

Lemma line_bytes_render c :
  line_bytes (render c) = map byte_of_N (render c) ++ [x0a].
Proof. apply line_bytes_encode, encode_render. Qed.

(** * The server session *)

Section ServerFacts.

Variable int_of_str : pystr -> option Z.
Variable rng : nat -> Z.

Local Notation dispatch := (ServerSession.dispatch int_of_str rng).
Local Notation loop_gas := (ServerSession.loop_gas int_of_str rng).
Local Notation loop := (ServerSession.loop int_of_str rng).
Local Notation next_guess := (ServerSession.next_guess rng).
Local Notation next_guess_loop := (ServerSession.next_guess_loop rng).
Local Notation send_number := (ServerSession.send_number rng).

Lemma send_number_ok fuel self pos self' pos' :
  send_number fuel self pos = Ok (self', pos') ->
  exists guess,
    next_guess fuel self pos = Ok (guess, pos')
    /\ self' =
         ServerSession.mk
           (Connection.mk
              (Connection.incoming (ServerSession.base self))
              (Connection.at_eof (ServerSession.base self))
              (Connection.outgoing (ServerSession.base self)
               ++ line_bytes (str guess)))
           (ServerSession.lower self) (ServerSession.upper self)
           (ServerSession.secret self)
           (ServerSession.guesses self ++ [guess]).
Proof.
  unfold ServerSession.send_number.
  destruct (next_guess fuel self pos) as [[guess p]| | |]; cbn [bind];
    try discriminate.
  cbn [ServerSession.base ServerSession.lower ServerSession.upper
       ServerSession.secret ServerSession.guesses].
  rewrite (send_line _ _ _ (encode_ascii _ (str_ascii guess))).
  cbn [bind]. intros [= <- <-]. exists guess. split; [reflexivity|].
  rewrite (line_bytes_encode _ _ (encode_ascii _ (str_ascii guess))).
  reflexivity.
Qed.

Lemma send_number_not_blocked fuel self pos :
  send_number fuel self pos <> Blocked.
Proof.
  unfold ServerSession.send_number, ServerSession.next_guess.
  destruct (ServerSession.secret self) as [s|].
  - cbn [bind ServerSession.base].
    rewrite (send_line _ _ _ (encode_ascii _ (str_ascii s))). discriminate.
  - assert (H : forall r, next_guess_loop fuel self pos = r -> r <> Blocked).
    { revert pos. induction fuel as [|fuel IH]; intros pos r;
        cbn [ServerSession.next_guess_loop]; [intros <-; discriminate|].
      unfold randint.
      destruct (ServerSession.lower self), (ServerSession.upper self);
        cbn [bind]; try (intros <-; discriminate).
      destruct (_ <=? _); cbn [bind]; [|intros <-; discriminate].
      destruct (in_dec _ _ _); [apply IH|intros <-; discriminate]. }
    specialize (H _ eq_refl).
    destruct (next_guess_loop fuel self pos) as [[g p]| | |];
      cbn [bind]; try discriminate; [|congruence].
    cbn [ServerSession.base].
    rewrite (send_line _ _ _ (encode_ascii _ (str_ascii g))). discriminate.
Qed.

Lemma dispatch_not_blocked fuel self pos command :
  dispatch fuel self pos command <> Blocked.
Proof.
  unfold ServerSession.dispatch.
  destruct (split SPACE command) as [|w1 [|w2 [|w3 [|w4 ws]]]];
    try discriminate.
  - destruct (pystr_eqb w1 (lit "NUMBER"));
      [apply send_number_not_blocked|].
    destruct (pystr_eqb w1 (lit "CLEAR")); discriminate.
  - destruct (pystr_eqb w1 (lit "REPORT")); [|discriminate].
    unfold ServerSession.receive_report.
    destruct (last_item _); [|discriminate].
    destruct (pystr_eqb w2 CORRECT); discriminate.
  - destruct (pystr_eqb w1 (lit "PARAMS")); [|discriminate].
    unfold ServerSession.set_params, int.
    destruct (int_of_str w2); cbn [bind]; [|discriminate].
    destruct (int_of_str w3); discriminate.
Qed.

(** A command changes neither what is left to read nor the end-of-file
    mark; it can only add to what was written. *)
Lemma dispatch_base fuel self pos command self' pos' :
  dispatch fuel self pos command = Ok (self', pos') ->
  Connection.incoming (ServerSession.base self') =
    Connection.incoming (ServerSession.base self)
  /\ Connection.at_eof (ServerSession.base self') =
       Connection.at_eof (ServerSession.base self)
  /\ exists reply,
       Connection.outgoing (ServerSession.base self') =
         Connection.outgoing (ServerSession.base self) ++ reply.
Proof.
  unfold ServerSession.dispatch.
  destruct (split SPACE command) as [|w1 [|w2 [|w3 [|w4 ws]]]];
    try discriminate.
  - destruct (pystr_eqb w1 (lit "NUMBER")).
    + intros H. destruct (send_number_ok _ _ _ _ _ H) as (g & _ & ->).
      cbn. repeat split. eexists. reflexivity.
    + destruct (pystr_eqb w1 (lit "CLEAR")); [|discriminate].
      intros [= <- <-]. cbn. repeat split. exists []. symmetry.
      apply app_nil_r.
  - destruct (pystr_eqb w1 (lit "REPORT")); [|discriminate].
    unfold ServerSession.receive_report.
    destruct (last_item _); [|discriminate].
    destruct (pystr_eqb w2 CORRECT); cbn [bind]; intros [= <- <-]; cbn;
      repeat split; exists []; symmetry; apply app_nil_r.
  - destruct (pystr_eqb w1 (lit "PARAMS")); [|discriminate].
    unfold ServerSession.set_params, int.
    destruct (int_of_str w2); cbn [bind]; [|discriminate].
    destruct (int_of_str w3); cbn [bind]; [|discriminate].
    intros [= <- <-]. cbn. repeat split. exists []. symmetry.
    apply app_nil_r.
Qed.

End ServerFacts.

Lemma receive_ok c command c' :
  Connection.receive c = Ok (command, c') ->
  (length (Connection.incoming c') < length (Connection.incoming c))%nat
  /\ Connection.at_eof c' = Connection.at_eof c
  /\ Connection.outgoing c' = Connection.outgoing c.
Proof.
  unfold Connection.receive, Connection.readline.
  destruct (cut_line (Connection.incoming c)) as [[line rest]|] eqn:E.
  - cbn [bind]. destruct line as [|b line]; [discriminate|].
    destruct (decode _); [|discriminate]. intros [= <- <-]. cbn.
    repeat split. exact (cut_line_shorter _ _ _ E).
  - destruct (Connection.at_eof c) eqn:Eeof; cbn [bind]; [|discriminate].
    destruct (Connection.incoming c) as [|b bs]; [discriminate|].
    destruct (decode _); [|discriminate]. intros [= <- <-]. cbn.
    repeat split. lia.
Qed.

Section LoopFacts.

Variable int_of_str : pystr -> option Z.
Variable rng : nat -> Z.

Local Notation dispatch := (ServerSession.dispatch int_of_str rng).
Local Notation loop_gas := (ServerSession.loop_gas int_of_str rng).
Local Notation loop := (ServerSession.loop int_of_str rng).

(** Any amount of gas above the number of buffered bytes gives the same
    run: the gas of [loop] is never the reason it stops. *)
Lemma loop_gas_irrelevant g1 : forall g2 fuel self pos,
  (length (Connection.incoming (ServerSession.base self)) < g1)%nat ->
  (length (Connection.incoming (ServerSession.base self)) < g2)%nat ->
  loop_gas g1 fuel self pos = loop_gas g2 fuel self pos.
Proof.
  induction g1 as [|g1 IH]; intros g2 fuel self pos H1 H2; [lia|].
  destruct g2 as [|g2]; [lia|]. cbn [ServerSession.loop_gas].
  destruct (Connection.receive (ServerSession.base self))
    as [[command base']| | |] eqn:E; try reflexivity.
  destruct command as [|ch command]; [reflexivity|].
  destruct (receive_ok _ _ _ E) as (Hlen & _ & _).
  match goal with
  | |- context [dispatch fuel ?s pos ?c] =>
      destruct (dispatch fuel s pos c) as [[s' p']| | |] eqn:D;
      try reflexivity
  end.
  destruct (dispatch_base _ _ _ _ _ _ _ _ D) as (Hin & _ & _).
  cbn [ServerSession.base] in Hin.
  apply IH; rewrite Hin; lia.
Qed.

(** The equation of the [while] loop. *)
Lemma loop_unfold fuel self pos :
  loop fuel self pos =
    match Connection.receive (ServerSession.base self) with
    | Ok (command, base') =>
        let self' :=
          ServerSession.mk base' (ServerSession.lower self)
            (ServerSession.upper self) (ServerSession.secret self)
            (ServerSession.guesses self) in
        match command with
        | [] => (Ok tt, self', pos)
        | _ =>
            match dispatch fuel self' pos command with
            | Ok (self'', pos') => loop fuel self'' pos'
            | Raise e => (Raise e, self', pos)
            | Blocked => (Blocked, self', pos)
            | Unfinished => (Unfinished, self', pos)
            end
        end
    | Raise e => (Raise e, self, pos)
    | Blocked => (Blocked, self, pos)
    | Unfinished => (Unfinished, self, pos)
    end.
Proof.
  unfold ServerSession.loop at 1. cbn [ServerSession.loop_gas].
  destruct (Connection.receive (ServerSession.base self))
    as [[command base']| | |] eqn:E; try reflexivity.
  destruct command as [|ch command]; [reflexivity|]. cbv zeta.
  destruct (receive_ok _ _ _ E) as (Hlen & _ & _).
  match goal with
  | |- context [dispatch fuel ?s pos ?c] =>
      destruct (dispatch fuel s pos c) as [[s' p']| | |] eqn:D;
      try reflexivity
  end.
  destruct (dispatch_base _ _ _ _ _ _ _ _ D) as (Hin & _ & _).
  cbn [ServerSession.base] in Hin.
  unfold ServerSession.loop. apply loop_gas_irrelevant; rewrite Hin; lia.
Qed.

(** A complete command line at the head of the buffer is dispatched. *)
Lemma loop_command fuel self pos command rest :
  Connection.incoming (ServerSession.base self) =
    line_bytes (render command) ++ rest ->
  loop fuel self pos =
    match dispatch fuel (feed self rest) pos (render command) with
    | Ok (self', pos') => loop fuel self' pos'
    | Raise e => (Raise e, feed self rest, pos)
    | Blocked => (Blocked, feed self rest, pos)
    | Unfinished => (Unfinished, feed self rest, pos)
    end.
Proof.
  intros Hin. rewrite loop_unfold.
  rewrite line_bytes_render, <- app_assoc in Hin. cbn [List.app] in Hin.
  destruct (ServerSession.base self) as [inc eof out] eqn:Eb.
  cbn [Connection.incoming] in Hin. subst inc.
  rewrite (receive_sent_line (render command) _ rest eof out
             (encode_render command) (render_no_newline command)).
  cbv zeta. unfold feed. rewrite Eb. cbn [Connection.at_eof Connection.outgoing].
  destruct (render command) eqn:Er;
    [exfalso; exact (render_not_empty command Er)|].
  reflexivity.
Qed.

(** A bare newline ends the loop. *)
Lemma loop_blank_line fuel self pos rest :
  Connection.incoming (ServerSession.base self) = x0a :: rest ->
  loop fuel self pos = (Ok tt, feed self rest, pos).
Proof.
  intros Hin. rewrite loop_unfold.
  rewrite (receive_line (ServerSession.base self) [] rest);
    [|intros []|exact Hin].
  reflexivity.
Qed.

(** With no complete line buffered and the connection open, the loop
    waits. *)
Lemma loop_waits fuel self pos :
  ~ In x0a (Connection.incoming (ServerSession.base self)) ->
  Connection.at_eof (ServerSession.base self) = false ->
  loop fuel self pos = (Blocked, self, pos).
Proof.
  intros Hnl Heof. rewrite loop_unfold.
  unfold Connection.receive, Connection.readline.
  rewrite (cut_line_none _ Hnl), Heof. reflexivity.
Qed.

End LoopFacts.

Section DispatchFacts.

Variable int_of_str : pystr -> option Z.
Variable rng : nat -> Z.

Local Notation dispatch := (ServerSession.dispatch int_of_str rng).

Lemma dispatch_number fuel self pos :
  dispatch fuel self pos (render NUMBER) =
    ServerSession.send_number rng fuel self pos.
Proof. reflexivity. Qed.

Lemma dispatch_clear fuel self pos :
  dispatch fuel self pos (render CLEAR) =
    Ok (ServerSession.clear_state self, pos).
Proof. reflexivity. Qed.

Lemma dispatch_report fuel self pos d :
  dispatch fuel self pos (render (REPORT d)) =
    (self' <- ServerSession.receive_report self (decision_text d) ;;
     Ok (self', pos)).
Proof. destruct d; reflexivity. Qed.

Lemma dispatch_params fuel self pos lower upper :
  dispatch fuel self pos (render (PARAMS lower upper)) =
    (self' <- ServerSession.set_params int_of_str self (str lower) (str upper) ;;
     Ok (self', pos)).
Proof.
  unfold ServerSession.dispatch. rewrite split_params. reflexivity.
Qed.

Lemma receive_report_text self d :
  ServerSession.receive_report self (decision_text d) =
    match last_item (ServerSession.guesses self) with
    | None => Raise IndexError
    | Some last =>
        if is_correct d
        then Ok (ServerSession.mk (ServerSession.base self)
                   (ServerSession.lower self) (ServerSession.upper self)
                   (Some last) (ServerSession.guesses self))
        else Ok self
    end.
Proof.
  unfold ServerSession.receive_report.
  destruct (last_item _); [|reflexivity]. destruct d; reflexivity.
Qed.

End DispatchFacts.

(** C10.  When [receive] returns the empty string the loop ends at once:
    it returns normally, the session attributes and the bytes written are
    what they were, nothing is raised; and [receive] returns the empty
    string for a bare newline on a connection that is still open. *)
Theorem empty_command_ends_loop :
  (forall (int_of_str : pystr -> option Z) (rng : nat -> Z) (fuel : nat)
          (self : ServerSession.t) (pos : nat) (base' : Connection.t),
      Connection.receive (ServerSession.base self) = Ok ([], base') ->
      ServerSession.loop int_of_str rng fuel self pos =
        (Ok tt,
         ServerSession.mk base' (ServerSession.lower self)
           (ServerSession.upper self) (ServerSession.secret self)
           (ServerSession.guesses self),
         pos)
      /\ Connection.outgoing base' =
           Connection.outgoing (ServerSession.base self))
  /\ (forall (rest out : bytes),
        Connection.receive (Connection.mk (x0a :: rest) false out) =
          Ok ([], Connection.mk rest false out)).
Proof.
  split.
  - intros int_of_str rng fuel self pos base' H.
    rewrite loop_unfold, H. split; [reflexivity|].
    destruct (receive_ok _ _ _ H) as (_ & _ & Hout). exact Hout.
  - intros rest out.
    rewrite (receive_line (Connection.mk (x0a :: rest) false out) [] rest);
      [reflexivity|intros []|reflexivity].
Qed.

Lemma empty_command_ends_loop_witness :
  ServerSession.loop int_ascii counting 5
    (feed (ServerSession.mk (Connection.mk [] false []) (Some 1) (Some 5)
             None [1; 4])
       (x0a :: line_bytes (lit "NUMBER"))) 0 =
    (Ok tt,
     ServerSession.mk
       (Connection.mk (line_bytes (lit "NUMBER")) false [])
       (Some 1) (Some 5) None [1; 4],
     0%nat).
Proof.
  refine (proj1 (proj1 empty_command_ends_loop int_ascii counting 5%nat
            (feed (ServerSession.mk (Connection.mk [] false []) (Some 1)
                     (Some 5) None [1; 4])
               (x0a :: line_bytes (lit "NUMBER")))
            0%nat (Connection.mk (line_bytes (lit "NUMBER")) false []) _)).
  reflexivity.
Defined.

(** C7, as stated, fails: a [NUMBER] sent to a session whose bounds are not
    set does not raise [UnknownCommandError]; [random.randint(None, None)]
    raises [TypeError]. *)
Lemma number_before_params_is_type_error :
  handle_connection int_ascii counting 1
    (Connection.mk (line_bytes (lit "NUMBER")) false []) 0 =
    (Raise TypeError, ServerSession.init (Connection.mk [] false []), 0%nat)
  /\ @Raise unit TypeError <> Raise (UnknownCommandError (lit "NUMBER")).
Proof. split; [reflexivity|discriminate]. Qed.

(** C7, amended.  In the uninitialised state (after [__init__] or
    [clear_state]) a [NUMBER] command fails: [next_guess] calls
    [random.randint] with missing bounds, which raises [TypeError]; no
    reply is written and no unknown-command error is raised. *)
Theorem number_uninitialized_raises :
  forall (int_of_str : pystr -> option Z) (rng : nat -> Z) (fuel : nat)
         (self : ServerSession.t) (pos : nat) (rest : bytes),
    let fresh := ServerSession.clear_state self in
    ServerSession.dispatch int_of_str rng (S fuel) fresh pos (lit "NUMBER") =
      Raise TypeError
    /\ ServerSession.loop int_of_str rng (S fuel)
         (feed fresh (line_bytes (lit "NUMBER") ++ rest)) pos =
         (Raise TypeError, feed fresh rest, pos)
    /\ handle_connection int_of_str rng (S fuel)
         (Connection.mk (line_bytes (lit "NUMBER") ++ rest) false []) pos =
         (Raise TypeError,
          ServerSession.init (Connection.mk rest false []), pos).
Proof.
  intros int_of_str rng fuel self pos rest fresh.
  assert (D : forall s, ServerSession.dispatch int_of_str rng (S fuel)
                          (ServerSession.clear_state s) pos (lit "NUMBER") =
                        Raise TypeError) by reflexivity.
  split; [apply D|]. split.
  - rewrite (loop_command int_of_str rng (S fuel) _ pos NUMBER rest)
      by reflexivity.
    change (feed (feed fresh (line_bytes (lit "NUMBER") ++ rest)) rest)
      with (ServerSession.clear_state (feed self rest)).
    change (render NUMBER) with (lit "NUMBER"). rewrite D. reflexivity.
  - unfold handle_connection, serve_session.
    rewrite (loop_command int_of_str rng (S fuel) _ pos NUMBER rest)
      by reflexivity.
    change (render NUMBER) with (lit "NUMBER").
    change (feed (ServerSession.init _) rest)
      with (ServerSession.clear_state
              (ServerSession.mk (Connection.mk rest false []) None None None [])).
    rewrite D. reflexivity.
Qed.

(** * Rejection sampling in [next_guess] *)

Lemma draw_in_range rng lower upper pos :
  lower <= upper -> lower <= draw rng lower upper pos <= upper.
Proof.
  intros H. unfold draw.
  pose proof (Z.mod_pos_bound (rng pos) (upper - lower + 1)). lia.
Qed.

Section GuessFacts.

Variable rng : nat -> Z.
Variable self : ServerSession.t.
Variables lo hi : Z.
Hypothesis Hlower : ServerSession.lower self = Some lo.
Hypothesis Hupper : ServerSession.upper self = Some hi.
Hypothesis Hrange : lo <= hi.

Local Notation next_guess_loop := (ServerSession.next_guess_loop rng).
Local Notation guesses := (ServerSession.guesses self).

Lemma next_guess_loop_step fuel pos :
  next_guess_loop (S fuel) self pos =
    if in_dec Z.eq_dec (draw rng lo hi pos) guesses
    then next_guess_loop fuel self (S pos)
    else Ok (draw rng lo hi pos, S pos).
Proof.
  cbn [ServerSession.next_guess_loop]. unfold randint.
  rewrite Hlower, Hupper.
  destruct (Z.leb_spec lo hi) as [_|H]; [|lia]. reflexivity.
Qed.

(** A result of the loop is a draw that is not among the guesses, and
    all the draws before it are. *)
Lemma next_guess_loop_ok fuel : forall pos guess pos',
  next_guess_loop fuel self pos = Ok (guess, pos') ->
  lo <= guess <= hi /\ ~ In guess guesses /\ (pos < pos')%nat.
Proof.
  induction fuel as [|fuel IH]; intros pos guess pos'; [discriminate|].
  rewrite next_guess_loop_step.
  destruct (in_dec Z.eq_dec (draw rng lo hi pos) guesses) as [Hin|Hout].
  - intros H. destruct (IH _ _ _ H) as (? & ? & ?). repeat split; try lia.
    assumption.
  - intros [= <- <-]. repeat split; try lia; try assumption;
      apply draw_in_range; assumption.
Qed.

Lemma next_guess_loop_cases fuel : forall pos,
  (exists guess pos', next_guess_loop fuel self pos = Ok (guess, pos'))
  \/ next_guess_loop fuel self pos = Unfinished.
Proof.
  induction fuel as [|fuel IH]; intros pos; [right; reflexivity|].
  rewrite next_guess_loop_step.
  destruct (in_dec Z.eq_dec (draw rng lo hi pos) guesses); [apply IH|].
  left. eauto.
Qed.

(** Once the loop has finished, more fuel changes nothing. *)
Lemma next_guess_loop_more fuel : forall fuel' pos r,
  next_guess_loop fuel self pos = Ok r ->
  (fuel <= fuel')%nat ->
  next_guess_loop fuel' self pos = Ok r.
Proof.
  induction fuel as [|fuel IH]; intros fuel' pos r; [discriminate|].
  intros H Hle. destruct fuel' as [|fuel']; [lia|].
  rewrite next_guess_loop_step in *.
  destruct (in_dec Z.eq_dec (draw rng lo hi pos) guesses);
    [apply IH; [exact H|lia]|exact H].
Qed.

(** If some later draw is not among the guesses the loop finishes. *)
Lemma next_guess_loop_hits k : forall pos,
  ~ In (draw rng lo hi (pos + k)) guesses ->
  exists guess pos', next_guess_loop (S k) self pos = Ok (guess, pos').
Proof.
  induction k as [|k IH]; intros pos Hout; rewrite next_guess_loop_step.
  - rewrite Nat.add_0_r in Hout.
    destruct (in_dec Z.eq_dec (draw rng lo hi pos) guesses);
      [contradiction|eauto].
  - destruct (in_dec Z.eq_dec (draw rng lo hi pos) guesses); [|eauto].
    apply IH. replace (S pos + k)%nat with (pos + S k)%nat by lia.
    exact Hout.
Qed.

(** If the guesses cover the range the loop never finishes. *)
Lemma next_guess_loop_spins fuel : forall pos,
  (forall v, lo <= v <= hi -> In v guesses) ->
  next_guess_loop fuel self pos = Unfinished.
Proof.
  induction fuel as [|fuel IH]; intros pos Hall; [reflexivity|].
  rewrite next_guess_loop_step.
  destruct (in_dec Z.eq_dec (draw rng lo hi pos) guesses) as [_|Hout];
    [apply IH; exact Hall|].
  exfalso. apply Hout, Hall, draw_in_range. exact Hrange.
Qed.

End GuessFacts.

Lemma counting_fair lower upper : lower <= upper -> fair counting lower upper.
Proof.
  intros Hr pos v Hv. unfold draw, counting.
  set (n := upper - lower + 1).
  exists (Z.to_nat ((v - lower - Z.of_nat pos) mod n)).
  assert (Hn : 0 < n) by (unfold n; lia).
  pose proof (Z.mod_pos_bound (v - lower - Z.of_nat pos) n Hn).
  rewrite Nat2Z.inj_add, Z2Nat.id by lia.
  rewrite Z.add_mod_idemp_r by lia.
  replace (Z.of_nat pos + (v - lower - Z.of_nat pos)) with (v - lower) by lia.
  rewrite Z.mod_small by (unfold n; lia). lia.
Qed.

(** C9, as stated, fails for a session whose range is empty: after
    [PARAMS 5 1] every integer of the range is among the guesses (there is
    none), yet [next_guess] does not run forever; [random.randint(5, 1)]
    raises [ValueError]. *)
Lemma next_guess_empty_range_raises :
  let self :=
    ServerSession.mk (Connection.mk [] false []) (Some 5) (Some 1) None [] in
  (forall v, 5 <= v <= 1 -> In v (ServerSession.guesses self))
  /\ ServerSession.next_guess counting 1 self 0 = Raise ValueError
  /\ fst (fst (handle_connection int_ascii counting 1
                 (Connection.mk
                    (wire [render (PARAMS 5 1); render NUMBER]) false []) 0)) =
       Raise ValueError.
Proof.
  split; [intros v Hv; lia|]. split; [reflexivity|]. vm_compute. reflexivity.
Qed.

(** C9, amended.  For a session with bounds [lower <= upper] set and no
    pinned secret: when the guesses contain every integer of the range the
    rejection-sampling loop of [next_guess] never ends, whatever is drawn;
    whatever [next_guess] returns is a member of the range that is not among
    the guesses; and when the draws are fair (every member of the range
    keeps turning up) [next_guess] returns if and only if some integer of
    the range is absent from the guesses. *)
Theorem next_guess_returns_iff_unguessed :
  forall (rng : nat -> Z) (self : ServerSession.t) (lo hi : Z),
    ServerSession.lower self = Some lo ->
    ServerSession.upper self = Some hi ->
    lo <= hi ->
    ServerSession.secret self = None ->
    ((forall v, lo <= v <= hi -> In v (ServerSession.guesses self)) ->
     forall fuel pos,
       ServerSession.next_guess rng fuel self pos = Unfinished)
    /\ (forall fuel pos guess pos',
          ServerSession.next_guess rng fuel self pos = Ok (guess, pos') ->
          lo <= guess <= hi /\ ~ In guess (ServerSession.guesses self))
    /\ (fair rng lo hi ->
        forall pos,
          (exists fuel guess pos',
              ServerSession.next_guess rng fuel self pos = Ok (guess, pos'))
          <->
          (exists v, lo <= v <= hi /\ ~ In v (ServerSession.guesses self))).
Proof.
  intros rng self lo hi Hlo Hhi Hr Hsec.
  unfold ServerSession.next_guess. rewrite Hsec.
  split; [intros Hall fuel pos;
          exact (next_guess_loop_spins rng self lo hi Hlo Hhi Hr fuel pos Hall)|].
  split.
  - intros fuel pos guess pos' H.
    destruct (next_guess_loop_ok rng self lo hi Hlo Hhi Hr fuel _ _ _ H)
      as (? & ? & _). split; assumption.
  - intros Hfair pos. split.
    + intros (fuel & guess & pos' & H).
      destruct (next_guess_loop_ok rng self lo hi Hlo Hhi Hr fuel _ _ _ H)
        as (? & ? & _). exists guess. split; assumption.
    + intros (v & Hv & Hout). destruct (Hfair pos v Hv) as (k & Hk).
      exists (S k). apply (next_guess_loop_hits rng self lo hi Hlo Hhi Hr).
      rewrite Hk. exact Hout.
Qed.

Lemma next_guess_returns_iff_unguessed_witness :
  (exists fuel guess pos',
      ServerSession.next_guess counting fuel
        (ServerSession.mk (Connection.mk [] false []) (Some 1) (Some 3) None
           [1; 2]) 0 = Ok (guess, pos'))
  <-> (exists v, 1 <= v <= 3 /\ ~ In v [1; 2]).
Proof.
  refine (proj2 (proj2 (next_guess_returns_iff_unguessed counting
            (ServerSession.mk (Connection.mk [] false []) (Some 1) (Some 3)
               None [1; 2]) 1 3 _ _ _ _)) _ 0%nat).
  - reflexivity.
  - reflexivity.
  - lia.
  - reflexivity.
  - apply counting_fair. lia.
Defined.

(** * Runs of the server loop over a sequence of commands *)

Lemma wire_cons c cs : wire (c :: cs) = line_bytes c ++ wire cs.
Proof. reflexivity. Qed.

Lemma wire_app a b : wire (a ++ b) = wire a ++ wire b.
Proof. unfold wire. rewrite map_app, concat_app. reflexivity. Qed.

Lemma feed_same self data :
  Connection.incoming (ServerSession.base self) = data -> feed self data = self.
Proof.
  destruct self as [[inc eof out] lo hi sec gs]. cbn. intros ->. reflexivity.
Qed.

Lemma feed_feed self a b : feed (feed self a) b = feed self b.
Proof. reflexivity. Qed.

Lemma next_guess_fresh rng fuel self : forall pos guess pos',
  ServerSession.secret self = None ->
  ServerSession.next_guess rng fuel self pos = Ok (guess, pos') ->
  ~ In guess (ServerSession.guesses self).
Proof.
  intros pos guess pos' Hsec. unfold ServerSession.next_guess. rewrite Hsec.
  revert pos. induction fuel as [|fuel IH]; intros pos; [discriminate|].
  cbn [ServerSession.next_guess_loop].
  destruct (randint rng pos _ _) as [[g p]| | |]; cbn [bind];
    try discriminate.
  destruct (in_dec Z.eq_dec g (ServerSession.guesses self)) as [|Hn];
    [apply IH|].
  intros H. injection H as <- <-. exact Hn.
Qed.

Section RunFacts.

Variable int_of_str : pystr -> option Z.
Variable rng : nat -> Z.

Local Notation loop := (ServerSession.loop int_of_str rng).

Lemma loop_no_input fuel self pos :
  Connection.incoming (ServerSession.base self) = [] ->
  loop fuel self pos = (out_of_input self, self, pos).
Proof.
  intros Hin. rewrite loop_unfold.
  unfold Connection.receive, Connection.readline, out_of_input.
  rewrite Hin. cbn [cut_line].
  destruct (Connection.at_eof (ServerSession.base self)); reflexivity.
Qed.

Lemma returned_since_nil self data : returned_since self (feed self data) [].
Proof.
  unfold returned_since. cbn. rewrite !app_nil_r. repeat split.
Qed.

(** Before the secret is pinned no number is returned twice, and none that
    was already among the guesses. *)
Lemma before_lock_run fuel commands : forall self pos,
  forallb before_lock commands = true ->
  ServerSession.secret self = None ->
  exists numbers,
    returned_since self
      (snd (fst (loop fuel (feed self (wire (map render commands))) pos)))
      numbers
    /\ NoDup numbers
    /\ (forall g, In g numbers -> ~ In g (ServerSession.guesses self))
    /\ ServerSession.secret
         (snd (fst (loop fuel (feed self (wire (map render commands))) pos)))
       = None.
Proof.
  induction commands as [|c commands IH]; intros self pos Hall Hsec.
  - rewrite loop_no_input by reflexivity. exists []. cbn [fst snd].
    split; [apply returned_since_nil|]. split; [constructor|].
    split; [intros g []|exact Hsec].
  - cbn [forallb] in Hall. apply andb_true_iff in Hall.
    destruct Hall as [Hc Hall]. cbn [map]. rewrite wire_cons.
    rewrite (loop_command int_of_str rng fuel _ pos c
               (wire (map render commands))) by reflexivity.
    rewrite feed_feed.
    assert (Hstop : exists numbers,
               returned_since self (feed self (wire (map render commands)))
                 numbers
               /\ NoDup numbers
               /\ (forall g, In g numbers ->
                     ~ In g (ServerSession.guesses self))
               /\ ServerSession.secret
                    (feed self (wire (map render commands))) = None).
    { exists []. split; [apply returned_since_nil|].
      split; [constructor|]. split; [intros g []|exact Hsec]. }
    destruct c as [lo hi| |d|]; try discriminate.
    + rewrite dispatch_number.
      destruct (ServerSession.send_number rng fuel
                  (feed self (wire (map render commands))) pos)
        as [[self1 pos1]| | |] eqn:E; try exact Hstop.
      destruct (send_number_ok _ _ _ _ _ _ E) as (g & Hg & Hself1).
      cbn [feed ServerSession.base ServerSession.lower ServerSession.upper
           ServerSession.secret ServerSession.guesses Connection.incoming
           Connection.at_eof Connection.outgoing] in Hself1.
      assert (Hnew : ~ In g (ServerSession.guesses self))
        by exact (next_guess_fresh rng fuel
                    (feed self (wire (map render commands))) _ _ _ Hsec Hg).
      assert (Hsec1 : ServerSession.secret self1 = None)
        by (subst self1; exact Hsec).
      destruct (IH self1 pos1 Hall Hsec1) as (numbers & Hret & Hnd & Hfresh & Hs).
      rewrite (feed_same self1 (wire (map render commands))) in Hret, Hs
        by (subst self1; reflexivity).
      exists (g :: numbers).
      destruct Hret as (Hg1 & Ho1 & Hl1 & Hu1).
      split; [|split; [|split]].
      * unfold returned_since. rewrite Hg1, Ho1, Hl1, Hu1. subst self1.
        cbn [ServerSession.base ServerSession.lower ServerSession.upper
             ServerSession.guesses Connection.outgoing map].
        rewrite wire_cons, <- !app_assoc. repeat split.
      * constructor; [|exact Hnd]. intros Hin.
        apply (Hfresh g Hin). subst self1. cbn [ServerSession.guesses].
        apply in_or_app. right. left. reflexivity.
      * intros x [<-|Hin]; [exact Hnew|]. intros Hx.
        apply (Hfresh x Hin). subst self1. cbn [ServerSession.guesses].
        apply in_or_app. left. exact Hx.
      * exact Hs.
    + rewrite dispatch_report, receive_report_text.
      cbn [before_lock] in Hc. apply negb_true_iff in Hc. rewrite Hc.
      destruct (last_item _); cbn [bind]; [|exact Hstop].
      destruct (IH (feed self (wire (map render commands))) pos Hall Hsec)
        as (numbers & Hret & Hnd & Hfresh & Hs).
      rewrite feed_feed in Hret, Hs.
      exists numbers. split; [|split; [|split]]; assumption.
Qed.

End RunFacts.

(** C5.  Inside one [PARAMS]-to-[CLEAR] cycle and before any
    [REPORT Correct] (the session is unpinned and receives only [NUMBER] and
    [REPORT] of other decisions), the numbers returned, however far the run
    gets, are pairwise distinct and differ from every earlier guess of the
    cycle; they are the lines written, and the cycle starts, after [PARAMS],
    unpinned and with no guesses. *)
Theorem no_number_returned_twice :
  forall (int_of_str : pystr -> option Z) (rng : nat -> Z) (fuel : nat)
         (self : ServerSession.t) (pos : nat) (commands : list Command),
    forallb before_lock commands = true ->
    ServerSession.secret self = None ->
    (exists numbers,
        returned_since self
          (snd (fst (ServerSession.loop int_of_str rng fuel
                       (feed self (wire (map render commands))) pos)))
          numbers
        /\ NoDup numbers
        /\ (forall g, In g numbers -> ~ In g (ServerSession.guesses self)))
    /\ (forall lower_text upper_text started,
          ServerSession.set_params int_of_str self lower_text upper_text =
            Ok started ->
          ServerSession.secret started = None
          /\ ServerSession.guesses started = []).
Proof.
  intros int_of_str rng fuel self pos commands Hall Hsec. split.
  - destruct (before_lock_run int_of_str rng fuel commands self pos Hall Hsec)
      as (numbers & Hret & Hnd & Hfresh & _).
    exists numbers. split; [exact Hret|split; [exact Hnd|exact Hfresh]].
  - intros lower_text upper_text started.
    unfold ServerSession.set_params, int.
    destruct (int_of_str lower_text); cbn [bind]; [|discriminate].
    destruct (int_of_str upper_text); cbn [bind]; [|discriminate].
    intros [= <-]. split; reflexivity.
Qed.

Lemma no_number_returned_twice_witness :
  exists numbers,
    returned_since
      (ServerSession.mk (Connection.mk [] false []) (Some 1) (Some 5) None [])
      (snd (fst (ServerSession.loop int_ascii counting 5
                   (feed
                      (ServerSession.mk (Connection.mk [] false []) (Some 1)
                         (Some 5) None [])
                      (wire (map render [NUMBER; REPORT Unsure; NUMBER])))
                   0)))
      numbers
    /\ NoDup numbers
    /\ (forall g, In g numbers -> ~ In g []).
Proof.
  refine (proj1 (no_number_returned_twice int_ascii counting 5
            (ServerSession.mk (Connection.mk [] false []) (Some 1) (Some 5)
               None [])
            0 [NUMBER; REPORT Unsure; NUMBER] _ _));
    reflexivity.
Defined.

Lemma last_item_app gs x : last_item (gs ++ [x]) = Some x.
Proof.
  induction gs as [|g gs IH]; [reflexivity|].
  cbn [List.app last_item]. destruct (gs ++ [x]) eqn:E; [|exact IH].
  destruct gs; discriminate.
Qed.

Lemma repeat_snoc (x : Z) n : repeat x n ++ [x] = x :: repeat x n.
Proof. induction n as [|n IH]; [reflexivity|]. cbn. rewrite IH. reflexivity. Qed.

(** A pinned session answers every [NUMBER] with the pinned number, and
    [NUMBER] and [REPORT] commands never make it fail. *)
Lemma pinned_run int_of_str rng fuel commands :
  forall inc eof out lo hi gs pinned pos,
    forallb number_or_report commands = true ->
    last_item gs = Some pinned ->
    ServerSession.loop int_of_str rng fuel
      (feed (ServerSession.mk (Connection.mk inc eof out) lo hi (Some pinned) gs)
         (wire (map render commands))) pos =
      (if eof then Raise EOFError else Blocked,
       ServerSession.mk
         (Connection.mk [] eof
            (out ++ wire (map str
                            (repeat pinned (length (filter is_number commands))))))
         lo hi (Some pinned)
         (gs ++ repeat pinned (length (filter is_number commands))),
       pos).
Proof.
  induction commands as [|c commands IH];
    intros inc eof out lo hi gs pinned pos Hall Hlast.
  - rewrite loop_no_input by reflexivity. cbn. rewrite !app_nil_r.
    reflexivity.
  - cbn [forallb] in Hall. apply andb_true_iff in Hall.
    destruct Hall as [Hc Hall]. cbn [map]. rewrite wire_cons.
    rewrite (loop_command int_of_str rng fuel _ pos c
               (wire (map render commands))) by reflexivity.
    rewrite feed_feed. destruct c as [l u| |d|]; try discriminate.
    + rewrite dispatch_number. unfold ServerSession.send_number,
        ServerSession.next_guess.
      cbn [feed ServerSession.secret ServerSession.base ServerSession.lower
           ServerSession.upper ServerSession.guesses Connection.at_eof
           Connection.outgoing bind].
      rewrite (send_line _ _ _ (encode_ascii _ (str_ascii pinned))).
      cbn [bind Connection.incoming Connection.at_eof Connection.outgoing].
      rewrite <- (line_bytes_encode _ _ (encode_ascii _ (str_ascii pinned))).
      pose proof (IH (wire (map render commands)) eof
                    (out ++ line_bytes (str pinned)) lo hi (gs ++ [pinned])
                    pinned pos Hall (last_item_app gs pinned)) as H.
      unfold feed in H. cbn [ServerSession.base ServerSession.lower
        ServerSession.upper ServerSession.secret ServerSession.guesses
        Connection.at_eof Connection.outgoing] in H.
      rewrite H. cbn [filter is_number length repeat map].
      rewrite wire_cons, <- !app_assoc. reflexivity.
    + rewrite dispatch_report, receive_report_text.
      cbn [feed ServerSession.guesses]. rewrite Hlast.
      cbn [filter is_number].
      destruct (is_correct d); cbn [bind];
        exact (IH _ eof out lo hi gs pinned pos Hall Hlast).
Qed.

(** C4, as stated, fails: [PARAMS] unpins the secret as [CLEAR] does.  With
    the draws 1, 2 the session pins 1, and after a second [PARAMS 1 2], with
    no [CLEAR] in between, [NUMBER] returns 2. *)
Lemma params_unpins_secret :
  forallb (fun c => match c with CLEAR => false | _ => true end)
    [PARAMS 1 2; NUMBER; REPORT Correct; PARAMS 1 2; NUMBER] = true
  /\ handle_connection int_ascii counting 5
       (Connection.mk
          (wire (map render
                   [PARAMS 1 2; NUMBER; REPORT Correct; PARAMS 1 2; NUMBER]))
          false []) 0 =
       (Blocked,
        ServerSession.mk
          (Connection.mk [] false (wire [str 1; str 2]))
          (Some 1) (Some 2) None [2],
        2%nat).
Proof. split; [reflexivity|]. vm_compute. reflexivity. Qed.

(** C4, amended.  Once [REPORT Correct] has been processed, pinning the
    secret to the last guess, every subsequent [NUMBER] of the session
    returns that same integer until a [CLEAR] or a [PARAMS] command is
    processed: over any sequence of [NUMBER] and [REPORT] commands the
    session fails on none of them and writes the pinned number once per
    [NUMBER]. *)
Theorem pinned_secret_is_repeated :
  forall (int_of_str : pystr -> option Z) (rng : nat -> Z) (fuel : nat)
         (self pinned_self : ServerSession.t) (pos : nat)
         (commands : list Command),
    ServerSession.receive_report self CORRECT = Ok pinned_self ->
    forallb number_or_report commands = true ->
    exists pinned,
      last_item (ServerSession.guesses self) = Some pinned
      /\ ServerSession.secret pinned_self = Some pinned
      /\ let replies := repeat pinned (length (filter is_number commands)) in
         ServerSession.loop int_of_str rng fuel
           (feed pinned_self (wire (map render commands))) pos =
           (out_of_input self,
            ServerSession.mk
              (Connection.mk [] (Connection.at_eof (ServerSession.base self))
                 (Connection.outgoing (ServerSession.base self)
                  ++ wire (map str replies)))
              (ServerSession.lower self) (ServerSession.upper self)
              (Some pinned) (ServerSession.guesses self ++ replies),
            pos).
Proof.
  intros int_of_str rng fuel self pinned_self pos commands Hreport Hall.
  unfold ServerSession.receive_report in Hreport.
  destruct (last_item (ServerSession.guesses self)) as [pinned|] eqn:Hlast;
    [|discriminate].
  rewrite pystr_eqb_refl in Hreport. injection Hreport as <-.
  exists pinned. split; [reflexivity|]. split; [reflexivity|].
  destruct self as [[inc eof out] lo hi sec gs].
  cbn [ServerSession.base ServerSession.lower ServerSession.upper
       ServerSession.guesses Connection.at_eof Connection.outgoing] in *.
  cbv zeta. unfold out_of_input. cbn [ServerSession.base Connection.at_eof].
  apply pinned_run; assumption.
Qed.

Lemma pinned_secret_is_repeated_witness :
  exists pinned,
    last_item [1; 4; 3] = Some pinned
    /\ ServerSession.secret
         (ServerSession.mk (Connection.mk [] false []) (Some 1) (Some 5)
            (Some 3) [1; 4; 3]) = Some pinned
    /\ ServerSession.loop int_ascii counting 0
         (feed
            (ServerSession.mk (Connection.mk [] false []) (Some 1) (Some 5)
               (Some 3) [1; 4; 3])
            (wire (map render [NUMBER; REPORT Correct; NUMBER]))) 0 =
         (Blocked,
          ServerSession.mk
            (Connection.mk [] false ([] ++ wire (map str [pinned; pinned])))
            (Some 1) (Some 5) (Some pinned) ([1; 4; 3] ++ [pinned; pinned]),
          0%nat).
Proof.
  refine (pinned_secret_is_repeated int_ascii counting 0
            (ServerSession.mk (Connection.mk [] false []) (Some 1) (Some 5)
               None [1; 4; 3])
            (ServerSession.mk (Connection.mk [] false []) (Some 1) (Some 5)
               (Some 3) [1; 4; 3])
            0 [NUMBER; REPORT Correct; NUMBER] _ _);
    reflexivity.
Defined.

(** * The protocol state of a world *)

Section ProtocolFacts.

Variable int_of_str : pystr -> option Z.
Variable rng : nat -> Z.
Variable fuel : nat.

Local Notation dispatch := (ServerSession.dispatch int_of_str rng fuel).
Local Notation loop := (ServerSession.loop int_of_str rng fuel).
Local Notation take := (absorb1 int_of_str rng fuel).
Local Notation takes := (absorb int_of_str rng fuel).
Local Notation serve := (Threaded.serve int_of_str rng fuel).

Lemma next_guess_loop_base f : forall b b' lo hi sec sec' gs pos,
  ServerSession.next_guess_loop rng f (ServerSession.mk b lo hi sec gs) pos =
  ServerSession.next_guess_loop rng f (ServerSession.mk b' lo hi sec' gs) pos.
Proof.
  induction f as [|f IH]; intros b b' lo hi sec sec' gs pos; [reflexivity|].
  cbn [ServerSession.next_guess_loop ServerSession.lower ServerSession.upper
       ServerSession.guesses].
  destruct (randint rng pos lo hi) as [[g p]| | |]; cbn [bind];
    try reflexivity.
  destruct (in_dec Z.eq_dec g gs); [apply IH|reflexivity].
Qed.

(** A command does not look at the connection of the session; it only
    appends its reply to what was written. *)
Lemma dispatch_rebase inc eof out lo hi sec gs pos text :
  dispatch (ServerSession.mk (Connection.mk inc eof out) lo hi sec gs) pos text =
    match dispatch (ServerSession.mk (Connection.mk [] false []) lo hi sec gs)
            pos text with
    | Ok (s, p) =>
        Ok (ServerSession.mk
              (Connection.mk inc eof
                 (out ++ Connection.outgoing (ServerSession.base s)))
              (ServerSession.lower s) (ServerSession.upper s)
              (ServerSession.secret s) (ServerSession.guesses s), p)
    | Raise e => Raise e
    | Blocked => Blocked
    | Unfinished => Unfinished
    end.
Proof.
  unfold ServerSession.dispatch.
  destruct (split SPACE text) as [|w1 [|w2 [|w3 [|w4 ws]]]]; try reflexivity.
  - destruct (pystr_eqb w1 (lit "NUMBER")).
    + unfold ServerSession.send_number, ServerSession.next_guess.
      cbn [ServerSession.secret]. destruct sec as [pinned|].
      * cbn [bind ServerSession.base ServerSession.lower ServerSession.upper
             ServerSession.secret ServerSession.guesses].
        rewrite !(send_line _ _ _ (encode_ascii _ (str_ascii pinned))).
        reflexivity.
      * rewrite (next_guess_loop_base fuel (Connection.mk inc eof out)
                   (Connection.mk [] false []) lo hi None None gs pos).
        destruct (ServerSession.next_guess_loop rng fuel _ pos)
          as [[g p]| | |]; cbn [bind]; try reflexivity.
        cbn [ServerSession.base ServerSession.lower ServerSession.upper
             ServerSession.secret ServerSession.guesses].
        rewrite !(send_line _ _ _ (encode_ascii _ (str_ascii g))).
        reflexivity.
    + destruct (pystr_eqb w1 (lit "CLEAR")); [|reflexivity].
      cbn. rewrite app_nil_r. reflexivity.
  - destruct (pystr_eqb w1 (lit "REPORT")); [|reflexivity].
    unfold ServerSession.receive_report. cbn [ServerSession.guesses].
    destruct (last_item gs); [|reflexivity].
    destruct (pystr_eqb w2 CORRECT); cbn; rewrite app_nil_r; reflexivity.
  - destruct (pystr_eqb w1 (lit "PARAMS")); [|reflexivity].
    unfold ServerSession.set_params, int.
    destruct (int_of_str w2); cbn [bind]; [|reflexivity].
    destruct (int_of_str w3); cbn; [|reflexivity].
    rewrite app_nil_r. reflexivity.
Qed.

Lemma absorb_nil n : takes n [] = n.
Proof. reflexivity. Qed.

Lemma absorb_cons n c cs : takes n (c :: cs) = takes (take n c) cs.
Proof. reflexivity. Qed.

Lemma absorb_app n a b : takes n (a ++ b) = takes (takes n a) b.
Proof. unfold absorb. apply fold_left_app. Qed.

Lemma absorb1_idle n c : Threaded.handler n <> Blocked -> take n c = n.
Proof.
  unfold absorb1. destruct (Threaded.handler n); congruence.
Qed.

Lemma absorb_idle cs : forall n, Threaded.handler n <> Blocked -> takes n cs = n.
Proof.
  induction cs as [|c cs IH]; intros n H; [reflexivity|].
  rewrite absorb_cons, absorb1_idle by exact H. apply IH. exact H.
Qed.

End ProtocolFacts.


Section SettleFacts.

Variable int_of_str : pystr -> option Z.
Variable rng : nat -> Z.
Variable fuel : nat.

Local Notation dispatch := (ServerSession.dispatch int_of_str rng fuel).
Local Notation loop := (ServerSession.loop int_of_str rng fuel).
Local Notation take := (absorb1 int_of_str rng fuel).
Local Notation takes := (absorb int_of_str rng fuel).
Local Notation serve := (Threaded.serve int_of_str rng fuel).
Local Notation corresponds := (corresponds int_of_str rng fuel).

Lemma next_guess_loop_not_eof f : forall self pos,
  ServerSession.next_guess_loop rng f self pos <> Raise EOFError.
Proof.
  induction f as [|f IH]; intros self pos; [discriminate|].
  cbn [ServerSession.next_guess_loop]. unfold randint.
  destruct (ServerSession.lower self), (ServerSession.upper self);
    cbn [bind]; try discriminate.
  destruct (_ <=? _); cbn [bind]; [|discriminate].
  destruct (in_dec _ _ _); [apply IH|discriminate].
Qed.

Lemma dispatch_not_eof self pos text : dispatch self pos text <> Raise EOFError.
Proof.
  unfold ServerSession.dispatch.
  destruct (split SPACE text) as [|w1 [|w2 [|w3 [|w4 ws]]]]; try discriminate.
  - destruct (pystr_eqb w1 (lit "NUMBER")).
    + unfold ServerSession.send_number, ServerSession.next_guess.
      destruct (ServerSession.secret self) as [s|].
      * cbn [bind ServerSession.base].
        rewrite (send_line _ _ _ (encode_ascii _ (str_ascii s))). discriminate.
      * pose proof (next_guess_loop_not_eof fuel self pos) as H.
        destruct (ServerSession.next_guess_loop rng fuel self pos)
          as [[g p]|e| |]; cbn [bind]; try discriminate; [|congruence].
        cbn [ServerSession.base].
        rewrite (send_line _ _ _ (encode_ascii _ (str_ascii g))). discriminate.
    + destruct (pystr_eqb w1 (lit "CLEAR")); discriminate.
  - destruct (pystr_eqb w1 (lit "REPORT")); [|discriminate].
    unfold ServerSession.receive_report.
    destruct (last_item _); [|discriminate].
    destruct (pystr_eqb w2 CORRECT); discriminate.
  - destruct (pystr_eqb w1 (lit "PARAMS")); [|discriminate].
    unfold ServerSession.set_params, int.
    destruct (int_of_str w2); cbn [bind]; [|discriminate].
    destruct (int_of_str w3); discriminate.
Qed.

(** The loop over the lines of a sequence of commands is the handling of
    those commands one after the other. *)
Lemma loop_wire commands : forall inc out lo hi sec gs pos,
  let r :=
    loop (ServerSession.mk
            (Connection.mk (wire (map render commands)) false out)
            lo hi sec gs) pos in
  let st := fst (fst r) in
  let s := snd (fst r) in
  takes (Threaded.mk (Connection.mk (inc ++ out) false [])
           (ServerSession.mk (Connection.mk [] false []) lo hi sec gs)
           Blocked pos 0)
    (map render commands) =
    Threaded.mk
      (Connection.mk (inc ++ Connection.outgoing (ServerSession.base s))
         (Threaded.gone st) [])
      (ServerSession.mk (Connection.mk [] false [])
         (ServerSession.lower s) (ServerSession.upper s)
         (ServerSession.secret s) (ServerSession.guesses s))
      st (snd r) 0
  /\ st <> Raise EOFError
  /\ st <> Ok tt
  /\ Connection.at_eof (ServerSession.base s) = false
  /\ (st = Blocked -> Connection.incoming (ServerSession.base s) = []).
Proof.
  induction commands as [|c commands IH]; intros inc out lo hi sec gs pos.
  - cbv zeta. rewrite loop_no_input by reflexivity. cbn.
    repeat split; discriminate.
  - cbv zeta. cbn [map]. rewrite wire_cons.
    rewrite (loop_command int_of_str rng fuel _ pos c
               (wire (map render commands))) by reflexivity.
    rewrite (absorb_cons int_of_str rng fuel). unfold absorb1.
    cbn [Threaded.handler Threaded.session Threaded.random_pos
         Threaded.client_end Connection.incoming Connection.at_eof feed
         ServerSession.base ServerSession.lower ServerSession.upper
         ServerSession.secret ServerSession.guesses Connection.outgoing].
    rewrite (dispatch_rebase int_of_str rng fuel
               (wire (map render commands)) false out lo hi sec gs pos).
    pose proof (dispatch_not_blocked int_of_str rng fuel
                  (ServerSession.mk (Connection.mk [] false []) lo hi sec gs)
                  pos (render c)) as Hnb.
    pose proof (dispatch_not_eof
                  (ServerSession.mk (Connection.mk [] false []) lo hi sec gs)
                  pos (render c)) as Hne.
    destruct (dispatch (ServerSession.mk (Connection.mk [] false []) lo hi sec gs)
                pos (render c)) as [[s1 p1]|e| |]; [| | congruence |].
    + specialize (IH inc (out ++ Connection.outgoing (ServerSession.base s1))
                    (ServerSession.lower s1) (ServerSession.upper s1)
                    (ServerSession.secret s1) (ServerSession.guesses s1) p1).
      cbv zeta in IH. rewrite <- app_assoc. exact IH.
    + cbn [fst snd]. rewrite absorb_idle by (cbn; discriminate).
      cbn. repeat split; try discriminate. congruence.
    + cbn [fst snd]. rewrite absorb_idle by (cbn; discriminate).
      cbn. repeat split; discriminate.
Qed.

(** After the handler has run, the world stands for the protocol state in
    which every pending command has been handled. *)
Lemma serve_represents w n pending :
  represents w n pending ->
  represents (serve w) (takes n (map render pending)) [].
Proof.
  intros (Htidy & Hseof & Hsout & Hceof & Hblocked).
  destruct w as [[ci ce co] [[si se so] lo hi sec gs] h pos clk].
  cbn [Threaded.session Threaded.client_end Threaded.handler
       ServerSession.base Connection.incoming Connection.at_eof
       Connection.outgoing] in *.
  subst se so n.
  destruct h as [u|e| |].
  - rewrite absorb_idle by (cbn; discriminate).
    unfold represents. cbn. repeat split; try assumption; discriminate.
  - rewrite absorb_idle by (cbn; discriminate).
    unfold represents. cbn. repeat split; try assumption; discriminate.
  - destruct (Hblocked eq_refl) as [-> ->]. cbn in Hceof. subst ce.
    unfold Threaded.serve, serve_session.
    cbn [Threaded.handler Threaded.session Threaded.client_end
         Threaded.random_pos Threaded.clock ServerSession.base
         ServerSession.lower ServerSession.upper ServerSession.secret
         ServerSession.guesses Connection.incoming Connection.at_eof
         Connection.outgoing List.app].
    destruct (loop_wire pending ci [] lo hi sec gs pos)
      as (Htakes & Hne & Hnok & Heof & Hin).
    cbv zeta in Htakes. rewrite app_nil_r in Htakes.
    unfold tidy. cbn [Threaded.handler Threaded.session Threaded.client_end
      Threaded.random_pos ServerSession.lower ServerSession.upper
      ServerSession.secret ServerSession.guesses Connection.incoming
      Connection.at_eof].
    rewrite Htakes.
    destruct (loop (ServerSession.mk
                      (Connection.mk (wire (map render pending)) false [])
                      lo hi sec gs) pos) as [[st s] p] eqn:El.
    cbn [fst snd] in *.
    destruct st as [[]|e| |]; [congruence|destruct e; try congruence| |];
      unfold represents;
      cbn [Threaded.handler Threaded.session Threaded.client_end
           Threaded.random_pos ServerSession.base ServerSession.lower
           ServerSession.upper ServerSession.secret ServerSession.guesses
           Connection.incoming Connection.at_eof Connection.outgoing orb tidy
           Threaded.gone map wire concat];
      repeat split; try assumption; try discriminate;
      try (apply Hin; reflexivity).
  - rewrite absorb_idle by (cbn; discriminate).
    unfold represents. cbn. repeat split; try assumption; discriminate.
Qed.

End SettleFacts.

(** * The threaded runner and the protocol state *)

Lemma receive_outgoing i e o o' :
  Connection.receive (Connection.mk i e o') =
    match Connection.receive (Connection.mk i e o) with
    | Ok (t, c) =>
        Ok (t, Connection.mk (Connection.incoming c) (Connection.at_eof c) o')
    | Raise er => Raise er
    | Blocked => Blocked
    | Unfinished => Unfinished
    end.
Proof.
  unfold Connection.receive, Connection.readline.
  cbn [Connection.incoming Connection.at_eof Connection.outgoing].
  destruct (cut_line i) as [[line rest]|].
  - cbn [bind]. destruct line; [reflexivity|].
    destruct (decode _); reflexivity.
  - destruct e; cbn [bind]; [|reflexivity].
    destruct i; [reflexivity|]. destruct (decode _); reflexivity.
Qed.

(** On an open connection, what [receive] returns or raises is not changed
    by bytes that arrive later. *)
Lemma receive_stable i o x e2 o2 :
  match Connection.receive (Connection.mk i false o) with
  | Ok (t, c) =>
      Connection.receive (Connection.mk (i ++ x) e2 o2) =
        Ok (t, Connection.mk (Connection.incoming c ++ x) e2 o2)
  | Raise er => Connection.receive (Connection.mk (i ++ x) e2 o2) = Raise er
  | _ => True
  end.
Proof.
  unfold Connection.receive, Connection.readline.
  cbn [Connection.incoming Connection.at_eof Connection.outgoing].
  destruct (cut_line i) as [[line rest]|] eqn:E; [|exact I].
  rewrite (cut_line_app _ x _ _ E). cbn [bind].
  destruct line; [reflexivity|]. destruct (decode _); reflexivity.
Qed.

Lemma receive_open_not_eof i o :
  Connection.receive (Connection.mk i false o) <> Raise EOFError.
Proof.
  intros H. apply receive_eof in H. destruct H as [_ H]. discriminate.
Qed.

Section ThreadedFacts.

Variable int_of_str : pystr -> option Z.
Variable rng : nat -> Z.
Variable fuel : nat.

Local Notation take := (absorb1 int_of_str rng fuel).
Local Notation takes := (absorb int_of_str rng fuel).
Local Notation serve := (Threaded.serve int_of_str rng fuel).
Local Notation corresponds := (corresponds int_of_str rng fuel).

(** Handling commands adds replies to the unread ones and may close the
    connection; it does not depend on what is unread. *)
Lemma takes_reinbox commands : forall n,
  exists m replies closed,
    forall x e,
      takes (reinbox n x e) commands = reinbox m (x ++ replies) (e || closed).
Proof.
  induction commands as [|c commands IH]; intros n.
  - exists n, [], false. intros x e.
    rewrite app_nil_r, orb_false_r. reflexivity.
  - destruct (Threaded.handler n) as [hu|hx| |] eqn:Eh.
    1, 2, 4: exists n, [], false; intros x e;
      rewrite absorb_idle by (cbn [reinbox Threaded.handler]; congruence);
      rewrite app_nil_r, orb_false_r; reflexivity.
    destruct (ServerSession.dispatch int_of_str rng fuel (Threaded.session n)
                (Threaded.random_pos n) c) as [[s p]|er| |] eqn:Ed.
    + destruct (IH (Threaded.mk (Connection.mk [] false [])
                      (ServerSession.mk (Connection.mk [] false [])
                         (ServerSession.lower s) (ServerSession.upper s)
                         (ServerSession.secret s) (ServerSession.guesses s))
                      Blocked p 0)) as (m & replies & closed & Hm).
      exists m, (Connection.outgoing (ServerSession.base s) ++ replies), closed.
      intros x e. rewrite absorb_cons. unfold absorb1.
      cbn [reinbox Threaded.handler Threaded.session Threaded.random_pos
           Threaded.client_end Connection.incoming Connection.at_eof].
      rewrite Eh, Ed. rewrite app_assoc. apply Hm.
    + exists (Threaded.mk (Connection.mk [] false []) (Threaded.session n)
                (Raise er) (Threaded.random_pos n) 0), [], true.
      intros x e. rewrite absorb_cons. unfold absorb1.
      cbn [reinbox Threaded.handler Threaded.session Threaded.random_pos
           Threaded.client_end Connection.incoming Connection.at_eof].
      rewrite Eh, Ed. rewrite absorb_idle by (cbn; discriminate).
      rewrite app_nil_r, orb_true_r. reflexivity.
    + exfalso. exact (dispatch_not_blocked _ _ _ _ _ _ Ed).
    + exists (Threaded.mk (Connection.mk [] false []) (Threaded.session n)
                Unfinished (Threaded.random_pos n) 0), [], false.
      intros x e. rewrite absorb_cons. unfold absorb1.
      cbn [reinbox Threaded.handler Threaded.session Threaded.random_pos
           Threaded.client_end Connection.incoming Connection.at_eof].
      rewrite Eh, Ed. rewrite absorb_idle by (cbn; discriminate).
      rewrite app_nil_r, orb_false_r. reflexivity.
Qed.

Lemma represents_push w n pending c k :
  represents w n pending ->
  represents
    (Threaded.mk
       (Connection.mk (Connection.incoming (Threaded.client_end w))
          (Connection.at_eof (Threaded.client_end w))
          (Connection.outgoing (Threaded.client_end w)
           ++ line_bytes (render c)))
       (Threaded.session w) (Threaded.handler w) (Threaded.random_pos w) k)
    n (pending ++ [c]).
Proof.
  intros (Htidy & Hseof & Hsout & Hceof & Hblocked).
  unfold represents. cbn [Threaded.session Threaded.client_end
    Threaded.handler Connection.at_eof Connection.outgoing].
  repeat split; try assumption.
  - apply (Hblocked H).
  - destruct (Hblocked H) as [_ ->].
    rewrite map_app, wire_app. cbn [map wire concat]. rewrite app_nil_r.
    reflexivity.
Qed.

Lemma represents_clock w n pending k :
  represents w n pending ->
  represents (Threaded.mk (Threaded.client_end w) (Threaded.session w)
                (Threaded.handler w) (Threaded.random_pos w) k) n pending.
Proof.
  intros (Htidy & Hseof & Hsout & Hceof & Hblocked).
  unfold represents. repeat split; try assumption; apply (Hblocked H).
Qed.

Lemma corresponds_serve w v : corresponds w v -> corresponds (serve w) v.
Proof.
  intros (n & pending & Hrep & Hv).
  exists (takes n (map render pending)), []. split.
  - apply serve_represents. exact Hrep.
  - exact Hv.
Qed.

Lemma corresponds_preempt sched w v :
  corresponds w v ->
  corresponds (Threaded.preempt int_of_str rng sched fuel w) v.
Proof.
  intros (n & pending & Hrep & Hv). unfold Threaded.preempt.
  pose proof (represents_clock w n pending (S (Threaded.clock w)) Hrep) as H.
  destruct (sched (Threaded.clock w)).
  - apply corresponds_serve. exists n, pending. split; assumption.
  - exists n, pending. split; assumption.
Qed.

(** Sending a command, whenever the handler thread gets to see it, amounts
    to the handler taking it. *)
Lemma corresponds_send sched w v c :
  corresponds w v ->
  exists w',
    Threaded.send int_of_str rng sched fuel (render c) w = Ok w'
    /\ corresponds w' (take v (render c)).
Proof.
  intros (n & pending & Hrep & Hv). unfold Threaded.send.
  rewrite (send_line _ _ _ (encode_render c)). cbn [bind].
  eexists. split; [reflexivity|].
  apply corresponds_preempt.
  exists n, (pending ++ [c]). split.
  - rewrite <- line_bytes_render.
    apply (represents_push w n pending c (Threaded.clock w) Hrep).
  - rewrite map_app, absorb_app, Hv. reflexivity.
Qed.

End ThreadedFacts.

Lemma receive_not_unfinished c : Connection.receive c <> Unfinished.
Proof.
  unfold Connection.receive, Connection.readline.
  destruct (cut_line _) as [[line rest]|].
  - cbn [bind]. destruct line; [discriminate|]. destruct (decode _); discriminate.
  - destruct (Connection.at_eof c); cbn [bind]; [|discriminate].
    destruct (Connection.incoming c); [discriminate|].
    destruct (decode _); discriminate.
Qed.

Section ThreadedReceive.

Variable int_of_str : pystr -> option Z.
Variable rng : nat -> Z.
Variable fuel : nat.

Local Notation takes := (absorb int_of_str rng fuel).
Local Notation serve := (Threaded.serve int_of_str rng fuel).
Local Notation corresponds := (corresponds int_of_str rng fuel).

(** Reading in a world whose handler has seen everything. *)
Lemma receive_settled w v :
  represents w v [] ->
  agree corresponds
    ('(text, c) <- Connection.receive (Threaded.client_end w) ;;
     Ok (text,
         Threaded.mk c (Threaded.session w) (Threaded.handler w)
           (Threaded.random_pos w) (Threaded.clock w)))
    ('(text, c) <- Connection.receive (Threaded.client_end v) ;;
     Ok (text,
         Threaded.mk c (Threaded.session v) (Threaded.handler v)
           (Threaded.random_pos v) (Threaded.clock v))).
Proof.
  intros (Htidy & Hseof & Hsout & Hceof & Hblocked).
  destruct w as [[ci ce co] s h pos clk]. subst v.
  cbn [tidy Threaded.session Threaded.client_end Threaded.handler
       Threaded.random_pos Threaded.clock Connection.incoming
       Connection.at_eof Connection.outgoing] in *.
  rewrite (receive_outgoing ci ce co []).
  destruct (Connection.receive (Connection.mk ci ce co)) as [[t c]|e| |] eqn:E;
    cbn [bind agree]; try exact I; try reflexivity.
  split; [reflexivity|].
  destruct (receive_ok _ _ _ E) as (_ & Heof & Hout).
  cbn [Connection.at_eof Connection.outgoing] in Heof, Hout.
  exists (Threaded.mk
            (Connection.mk (Connection.incoming c) (Connection.at_eof c) [])
            (ServerSession.mk (Connection.mk [] false [])
               (ServerSession.lower s) (ServerSession.upper s)
               (ServerSession.secret s) (ServerSession.guesses s)) h pos 0), [].
  split; [|reflexivity].
  unfold represents. cbn [tidy Threaded.session Threaded.client_end
    Threaded.handler Threaded.random_pos Connection.incoming
    Connection.at_eof Connection.outgoing map wire concat].
  repeat split; try assumption; try congruence.
  - apply (Hblocked H).
  - rewrite Hout. apply (Hblocked H).
Qed.

(** Reading a reply amounts to reading it in the protocol state. *)
Lemma corresponds_receive w v :
  corresponds w v -> awaitable v ->
  agree corresponds (Threaded.receive int_of_str rng fuel w)
    (settled_receive v).
Proof.
  intros (n & pending & Hrep & Hv) Hawait.
  pose proof (serve_represents int_of_str rng fuel w n pending Hrep) as Hserved.
  rewrite Hv in Hserved.
  assert (Hhandler : Threaded.handler (serve w) = Threaded.handler v).
  { destruct Hserved as (<- & _). reflexivity. }
  assert (Hafter :
            agree corresponds
              (match Threaded.handler (serve w) with
               | Unfinished => Unfinished
               | _ =>
                   '(text, c) <- Connection.receive
                                   (Threaded.client_end (serve w)) ;;
                   Ok (text,
                       Threaded.mk c (Threaded.session (serve w))
                         (Threaded.handler (serve w))
                         (Threaded.random_pos (serve w))
                         (Threaded.clock (serve w)))
               end)
              (settled_receive v)).
  { unfold settled_receive. rewrite Hhandler.
    pose proof (receive_settled (serve w) v Hserved) as H.
    rewrite Hhandler in H.
    destruct (Threaded.handler v); try exact H. exact I. }
  assert (Hstuck : Threaded.handler w = Unfinished ->
                   Connection.receive (Threaded.client_end w) = Blocked).
  { intros Eh.
    assert (Hidle : serve w = w)
      by (unfold Threaded.serve; rewrite Eh; reflexivity).
    rewrite Hidle in Hserved, Hhandler.
    rewrite Eh in Hhandler. symmetry in Hhandler.
    specialize (Hawait Hhandler).
    destruct Hserved as (<- & _).
    destruct w as [[ci ce co] s h pos clk].
    cbn [tidy Threaded.client_end Connection.incoming Connection.at_eof]
      in *.
    rewrite (receive_outgoing ci ce co []) in Hawait.
    destruct (Connection.receive (Connection.mk ci ce co)) as [[t c]|e| |];
      try discriminate. reflexivity. }
  unfold Threaded.receive.
  destruct (Threaded.handler w) as [hu|he| |] eqn:Eh.
  1, 2, 4:
    assert (Hidle : serve w = w)
      by (unfold Threaded.serve; rewrite Eh; reflexivity);
    rewrite Hidle in Hafter; rewrite Eh in Hafter;
    try (rewrite (Hstuck eq_refl) in *; rewrite Hidle, Eh; exact Hafter);
    destruct (Connection.receive (Threaded.client_end w)) as [[t c]|e| |] eqn:E;
    try exact Hafter;
    try (exfalso; exact (receive_not_unfinished _ E));
    rewrite Hidle, Eh, E; exact Hafter.
  destruct (Connection.receive (Threaded.client_end w)) as [[t c]|e| |] eqn:E;
    [| |exact Hafter|exfalso; exact (receive_not_unfinished _ E)].
  - (* a line is there already *)
    (* the handler is waiting: the line stays first whatever it replies *)
    destruct Hrep as (Htidy & Hseof & Hsout & Hceof & Hblocked).
    destruct (Hblocked Eh) as [Hsin Hcout].
    destruct w as [[ci ce co] s h pos clk].
    cbn [tidy Threaded.session Threaded.client_end Threaded.handler
         Threaded.random_pos Threaded.clock Connection.incoming
         Connection.at_eof Connection.outgoing] in *.
    subst h. cbn [Threaded.gone] in Hceof. subst ce.
    destruct (takes_reinbox int_of_str rng fuel (map render pending) n)
      as (m & replies & closed & Hm).
    assert (Hn : n = reinbox n ci false) by (subst n; reflexivity).
    rewrite Hn, Hm in Hv. cbn [orb] in Hv.
    pose proof (receive_stable ci co replies closed []) as Hst.
    rewrite E in Hst.
    destruct (receive_ok _ _ _ E) as (_ & Heof & Hout).
    cbn [Connection.at_eof Connection.outgoing] in Heof, Hout.
    assert (Hnu : Threaded.handler v <> Unfinished).
    { intros Hu. specialize (Hawait Hu). subst v.
      cbn [reinbox Threaded.client_end] in Hawait. congruence. }
    unfold settled_receive. subst v.
    cbn [reinbox Threaded.client_end Threaded.handler Threaded.session
         Threaded.random_pos Threaded.clock] in *.
    rewrite Hst. cbn [bind].
    destruct (Threaded.handler m) eqn:Ehm; try congruence;
      (split; [reflexivity|]);
      exists (reinbox n (Connection.incoming c) false), pending;
      (split;
       [subst n; unfold represents, tidy, reinbox;
        cbn [Threaded.session Threaded.client_end Threaded.handler
             Threaded.random_pos Threaded.clock Connection.incoming
             Connection.at_eof Connection.outgoing Threaded.gone];
        rewrite ?Heof, ?Hout;
        repeat split; try assumption; congruence
       |rewrite Hm; cbn [orb]; unfold reinbox; rewrite Ehm; reflexivity]).
  - (* undecodable line: the same in the protocol state *)
    destruct Hrep as (Htidy & Hseof & Hsout & Hceof & Hblocked).
    destruct (Hblocked Eh) as [Hsin Hcout].
    destruct w as [[ci ce co] s h pos clk].
    cbn [tidy Threaded.session Threaded.client_end Threaded.handler
         Threaded.random_pos Threaded.clock Connection.incoming
         Connection.at_eof Connection.outgoing] in *.
    subst h. cbn [Threaded.gone] in Hceof. subst ce.
    destruct (takes_reinbox int_of_str rng fuel (map render pending) n)
      as (m & replies & closed & Hm).
    assert (Hn : n = reinbox n ci false) by (subst n; reflexivity).
    rewrite Hn, Hm in Hv. cbn [orb] in Hv.
    pose proof (receive_stable ci co replies closed []) as Hst.
    rewrite E in Hst.
    assert (Hnu : Threaded.handler v <> Unfinished).
    { intros Hu. specialize (Hawait Hu). subst v.
      cbn [reinbox Threaded.client_end] in Hawait. congruence. }
    unfold settled_receive. subst v.
    cbn [reinbox Threaded.client_end Threaded.handler] in *.
    rewrite Hst. destruct (Threaded.handler m); try congruence; reflexivity.
Qed.

End ThreadedReceive.

(** * The coroutine classes do what the threaded ones do *)

Lemma sync_send c command :
  Connection.send (sync_connection c) command =
    omap sync_connection (AsyncConnection.send c command).
Proof.
  unfold Connection.send, AsyncConnection.send, omap.
  destruct (encode _); reflexivity.
Qed.

Lemma sync_receive_connection c :
  Connection.receive (sync_connection c) =
    omap (fun tc => (fst tc, sync_connection (snd tc)))
      (AsyncConnection.receive c).
Proof.
  unfold Connection.receive, AsyncConnection.receive, Connection.readline,
    AsyncConnection.readline, omap, sync_connection.
  cbn [Connection.incoming Connection.at_eof Connection.outgoing].
  destruct (cut_line _) as [[line rest]|].
  - cbn [bind]. destruct line; [reflexivity|].
    destruct (decode _); reflexivity.
  - destruct (AsyncConnection.eof _); cbn [bind]; [|reflexivity].
    destruct (AsyncConnection.buffer _); [reflexivity|].
    destruct (decode _); reflexivity.
Qed.

Section SyncFacts.

Variable int_of_str : pystr -> option Z.
Variable rng : nat -> Z.

Lemma sync_next_guess_loop fuel : forall b ab lo hi sec sec' gs pos,
  ServerSession.next_guess_loop rng fuel (ServerSession.mk b lo hi sec gs) pos =
    AsyncServerSession.next_guess_loop rng fuel
      (AsyncServerSession.mk ab lo hi sec' gs) pos.
Proof.
  induction fuel as [|fuel IH]; intros b ab lo hi sec sec' gs pos;
    [reflexivity|].
  cbn [ServerSession.next_guess_loop AsyncServerSession.next_guess_loop
       ServerSession.lower ServerSession.upper ServerSession.guesses
       AsyncServerSession.lower AsyncServerSession.upper
       AsyncServerSession.guesses].
  destruct (randint rng pos lo hi) as [[g p]| | |]; cbn [bind];
    try reflexivity.
  destruct (in_dec Z.eq_dec g gs); [apply IH|reflexivity].
Qed.

Lemma sync_dispatch fuel s pos text :
  ServerSession.dispatch int_of_str rng fuel (sync_session s) pos text =
    omap (fun sp => (sync_session (fst sp), snd sp))
      (AsyncServerSession.dispatch int_of_str rng fuel s pos text).
Proof.
  destruct s as [[[buf eof] [wr]] lo hi sec gs].
  unfold ServerSession.dispatch, AsyncServerSession.dispatch, sync_session,
    sync_connection.
  cbn [AsyncServerSession.secret AsyncServerSession.base
       AsyncServerSession.lower AsyncServerSession.upper
       AsyncServerSession.guesses AsyncConnection.reader
       AsyncConnection.writer AsyncConnection.buffer AsyncConnection.eof
       AsyncConnection.written].
  destruct (split SPACE text) as [|w1 [|w2 [|w3 [|w4 ws]]]]; try reflexivity.
  - destruct (pystr_eqb w1 (lit "NUMBER")).
    + unfold ServerSession.send_number, AsyncServerSession.send_number,
        ServerSession.next_guess, AsyncServerSession.next_guess, omap.
      cbn [sync_session sync_connection ServerSession.secret
           AsyncServerSession.secret AsyncServerSession.base
           AsyncServerSession.lower AsyncServerSession.upper
           AsyncServerSession.guesses AsyncConnection.reader
           AsyncConnection.writer AsyncConnection.buffer AsyncConnection.eof
           AsyncConnection.written].
      destruct sec as [pinned|].
      * cbn [bind ServerSession.base ServerSession.lower ServerSession.upper
             ServerSession.secret ServerSession.guesses
             AsyncServerSession.base AsyncServerSession.lower
             AsyncServerSession.upper AsyncServerSession.secret
             AsyncServerSession.guesses].
        unfold Connection.send, AsyncConnection.send.
        destruct (encode _); reflexivity.
      * rewrite (sync_next_guess_loop fuel (Connection.mk buf eof wr)
                   (AsyncConnection.mk (AsyncConnection.mk_reader buf eof)
                      (AsyncConnection.mk_writer wr)) lo hi None None gs pos).
        destruct (AsyncServerSession.next_guess_loop rng fuel _ pos)
          as [[g p]| | |]; cbn [bind]; try reflexivity.
        cbn [bind ServerSession.base ServerSession.lower ServerSession.upper
             ServerSession.secret ServerSession.guesses
             AsyncServerSession.base AsyncServerSession.lower
             AsyncServerSession.upper AsyncServerSession.secret
             AsyncServerSession.guesses].
        unfold Connection.send, AsyncConnection.send.
        destruct (encode _); reflexivity.
    + destruct (pystr_eqb w1 (lit "CLEAR")); reflexivity.
  - destruct (pystr_eqb w1 (lit "REPORT")); [|reflexivity].
    unfold ServerSession.receive_report, AsyncServerSession.receive_report.
    cbn [sync_session ServerSession.guesses AsyncServerSession.guesses].
    destruct (last_item gs); [|reflexivity].
    destruct (pystr_eqb w2 CORRECT); reflexivity.
  - destruct (pystr_eqb w1 (lit "PARAMS")); [|reflexivity].
    unfold ServerSession.set_params, AsyncServerSession.set_params, int.
    destruct (int_of_str w2); cbn [bind]; [|reflexivity].
    destruct (int_of_str w3); reflexivity.
Qed.

End SyncFacts.

Section SyncRunner.

Variable int_of_str : pystr -> option Z.
Variable rng : nat -> Z.
Variable fuel : nat.

Lemma sync_loop_gas gas : forall s pos,
  ServerSession.loop_gas int_of_str rng gas fuel (sync_session s) pos =
    (fst (fst (AsyncServerSession.loop_gas int_of_str rng gas fuel s pos)),
     sync_session
       (snd (fst (AsyncServerSession.loop_gas int_of_str rng gas fuel s pos))),
     snd (AsyncServerSession.loop_gas int_of_str rng gas fuel s pos)).
Proof.
  induction gas as [|gas IH]; intros s pos; [reflexivity|].
  cbn [ServerSession.loop_gas AsyncServerSession.loop_gas].
  change (ServerSession.base (sync_session s))
    with (sync_connection (AsyncServerSession.base s)).
  rewrite sync_receive_connection. unfold omap.
  destruct (AsyncConnection.receive (AsyncServerSession.base s))
    as [[command base']| | |]; cbn [bind fst snd]; try reflexivity.
  destruct command as [|ch command]; [reflexivity|].
  change (ServerSession.mk (sync_connection base')
            (ServerSession.lower (sync_session s))
            (ServerSession.upper (sync_session s))
            (ServerSession.secret (sync_session s))
            (ServerSession.guesses (sync_session s)))
    with (sync_session
            (AsyncServerSession.mk base' (AsyncServerSession.lower s)
               (AsyncServerSession.upper s) (AsyncServerSession.secret s)
               (AsyncServerSession.guesses s))).
  rewrite sync_dispatch. unfold omap.
  destruct (AsyncServerSession.dispatch int_of_str rng fuel _ pos _)
    as [[s' p']| | |]; cbn [bind fst snd]; try reflexivity.
  apply IH.
Qed.

Lemma sync_serve_session s pos :
  serve_session int_of_str rng fuel (sync_session s) pos =
    (fst (fst (serve_async_session int_of_str rng fuel s pos)),
     sync_session (snd (fst (serve_async_session int_of_str rng fuel s pos))),
     snd (serve_async_session int_of_str rng fuel s pos)).
Proof.
  unfold serve_session, serve_async_session, ServerSession.loop,
    AsyncServerSession.loop.
  change (Connection.incoming (ServerSession.base (sync_session s)))
    with (AsyncConnection.buffer
            (AsyncConnection.reader (AsyncServerSession.base s))).
  rewrite sync_loop_gas.
  destruct (AsyncServerSession.loop_gas int_of_str rng _ fuel s pos)
    as [[st s'] p']. cbn [fst snd].
  destruct st as [u|e| |]; try reflexivity. destruct e; reflexivity.
Qed.

(** The event loop running the handler task is the handler thread
    running. *)
Lemma sync_serve w :
  sync_world (EventLoop.serve int_of_str rng fuel w) =
    Threaded.serve int_of_str rng fuel (sync_world w).
Proof.
  destruct w as [[[cbuf ceof] [cwr]] [[[sbuf seof] [swr]] lo hi sec gs] h pos].
  unfold EventLoop.serve, Threaded.serve, sync_world.
  cbn [EventLoop.task EventLoop.client_end EventLoop.session
       EventLoop.random_pos Threaded.handler Threaded.client_end
       Threaded.session Threaded.random_pos Threaded.clock].
  destruct h as [u|e| |]; try reflexivity.
  cbn [sync_session sync_connection AsyncServerSession.base
       AsyncServerSession.lower AsyncServerSession.upper
       AsyncServerSession.secret AsyncServerSession.guesses
       AsyncConnection.reader AsyncConnection.writer AsyncConnection.buffer
       AsyncConnection.eof AsyncConnection.written ServerSession.base
       ServerSession.lower ServerSession.upper ServerSession.secret
       ServerSession.guesses Connection.incoming Connection.at_eof
       Connection.outgoing].
  match goal with
  | |- context [serve_async_session int_of_str rng fuel ?s pos] =>
      pose proof (sync_serve_session s pos) as H;
      destruct (serve_async_session int_of_str rng fuel s pos)
        as [[st s'] p'] eqn:E
  end.
  unfold sync_session at 1, sync_connection at 1 in H.
  cbn [fst snd AsyncServerSession.base
       AsyncServerSession.lower AsyncServerSession.upper
       AsyncServerSession.secret AsyncServerSession.guesses
       AsyncConnection.reader AsyncConnection.writer AsyncConnection.buffer
       AsyncConnection.eof AsyncConnection.written] in H.
  rewrite H. reflexivity.
Qed.

Lemma sync_receive w :
  Threaded.receive int_of_str rng fuel (sync_world w) =
    omap (fun tw => (fst tw, sync_world (snd tw)))
      (EventLoop.receive int_of_str rng fuel w).
Proof.
  unfold Threaded.receive, EventLoop.receive.
  rewrite <- sync_serve.
  change (Threaded.client_end (sync_world w))
    with (sync_connection (EventLoop.client_end w)).
  rewrite sync_receive_connection. unfold omap at 1.
  destruct (AsyncConnection.receive (EventLoop.client_end w))
    as [[t c]| | |]; cbn [bind]; try reflexivity.
  change (Threaded.handler (sync_world (EventLoop.serve int_of_str rng fuel w)))
    with (EventLoop.task (EventLoop.serve int_of_str rng fuel w)).
  change (Threaded.client_end
            (sync_world (EventLoop.serve int_of_str rng fuel w)))
    with (sync_connection
            (EventLoop.client_end (EventLoop.serve int_of_str rng fuel w))).
  rewrite sync_receive_connection. unfold omap.
  destruct (EventLoop.task (EventLoop.serve int_of_str rng fuel w));
    try reflexivity;
    destruct (AsyncConnection.receive _) as [[t c]| | |]; reflexivity.
Qed.

Lemma sync_send_world command w :
  omap sync_world (EventLoop.send command w) =
    omap (fun c =>
            Threaded.mk c (Threaded.session (sync_world w))
              (Threaded.handler (sync_world w))
              (Threaded.random_pos (sync_world w)) 0)
      (Connection.send (Threaded.client_end (sync_world w)) command).
Proof.
  unfold EventLoop.send.
  change (Threaded.client_end (sync_world w))
    with (sync_connection (EventLoop.client_end w)).
  rewrite sync_send. unfold omap.
  destruct (AsyncConnection.send _ _); reflexivity.
Qed.

End SyncRunner.

(** ** Games on the protocol state *)

Section QuietFacts.

Variable int_of_str : pystr -> option Z.
Variable rng : nat -> Z.
Variable fuel : nat.

Local Notation take := (absorb1 int_of_str rng fuel).

Lemma quiet_awaitable v c : quiet v -> awaitable (take v c).
Proof.
  intros (Hin & Heof & Hbase) Hun.
  destruct v as [[ci ce co] s h pos clk].
  cbn [Threaded.client_end Threaded.handler Threaded.session
       Connection.incoming Connection.at_eof] in *. subst ci ce.
  unfold absorb1 in *.
  cbn [Threaded.client_end Threaded.handler Threaded.session
       Threaded.random_pos Connection.incoming Connection.at_eof] in *.
  destruct h as [u|e| |]; cbn [Threaded.handler] in Hun; try discriminate.
  - destruct (ServerSession.dispatch int_of_str rng fuel s pos c)
      as [[s' p']|e| |]; cbn [Threaded.handler Threaded.client_end] in *;
      try discriminate; reflexivity.
  - reflexivity.
Qed.


Lemma quiet_silent v c :
  quiet v ->
  (forall s' p',
     ServerSession.dispatch int_of_str rng fuel (Threaded.session v)
       (Threaded.random_pos v) c = Ok (s', p') ->
     Connection.outgoing (ServerSession.base s') = []) ->
  quiet (take v c).
Proof.
  intros (Hin & Heof & Hbase) Hout.
  destruct v as [[ci ce co] s h pos clk].
  cbn [Threaded.client_end Threaded.handler Threaded.session
       Threaded.random_pos Connection.incoming Connection.at_eof] in *.
  subst ci ce. unfold absorb1, quiet.
  cbn [Threaded.client_end Threaded.handler Threaded.session
       Threaded.random_pos Connection.incoming Connection.at_eof].
  destruct h as [u|e| |];
    try (cbn [Threaded.client_end Threaded.handler Threaded.session
              Connection.incoming Connection.at_eof];
         repeat split; assumption).
  destruct (ServerSession.dispatch int_of_str rng fuel s pos c)
    as [[s' p']|e| |] eqn:E;
    cbn [Threaded.client_end Threaded.handler Threaded.session
         Connection.incoming Connection.at_eof Threaded.gone
         ServerSession.base];
    repeat split; try assumption.
  rewrite (Hout s' p' eq_refl). reflexivity.
Qed.

Lemma quiet_report v d : quiet v -> quiet (take v (render (REPORT d))).
Proof.
  intros Hq. apply quiet_silent; [exact Hq|].
  intros s' p'. rewrite dispatch_report, receive_report_text.
  destruct Hq as (_ & _ & Hbase).
  destruct (last_item _); [|discriminate].
  destruct (is_correct d); cbn [bind]; intros [= <- _];
    cbn [ServerSession.base]; rewrite Hbase; reflexivity.
Qed.

Lemma quiet_params v lower upper :
  quiet v -> quiet (take v (render (PARAMS lower upper))).
Proof.
  intros Hq. apply quiet_silent; [exact Hq|].
  intros s' p'. rewrite dispatch_params. unfold ServerSession.set_params.
  destruct Hq as (_ & _ & Hbase).
  destruct (int int_of_str (str lower)); cbn [bind]; try discriminate.
  destruct (int int_of_str (str upper)); cbn [bind]; try discriminate.
  intros [= <- _]. cbn [ServerSession.base ServerSession.clear_state].
  rewrite Hbase. reflexivity.
Qed.

Lemma receive_reply z eof out :
  Connection.receive (Connection.mk (line_bytes (str z)) eof out) =
    Ok (str z, Connection.mk [] eof out).
Proof.
  rewrite (line_bytes_encode _ _ (encode_ascii _ (str_ascii z))).
  apply receive_sent_line.
  - apply encode_ascii, str_ascii.
  - apply str_no_newline.
Qed.

(** What the handler in a quiet state does with [NUMBER], as the client
    then reads it. *)
Lemma quiet_number v :
  quiet v ->
  match settled_receive (take v (render NUMBER)) with
  | Ok (text, v') =>
      quiet v' /\ Threaded.handler v = Blocked
      /\ exists guess pos',
           ServerSession.next_guess rng fuel (Threaded.session v)
             (Threaded.random_pos v) = Ok (guess, pos')
           /\ text = str guess
           /\ v' =
                Threaded.mk (Connection.mk [] false [])
                  (ServerSession.mk (Connection.mk [] false [])
                     (ServerSession.lower (Threaded.session v))
                     (ServerSession.upper (Threaded.session v))
                     (ServerSession.secret (Threaded.session v))
                     (ServerSession.guesses (Threaded.session v) ++ [guess]))
                  Blocked pos' 0
  | Raise e => e = EOFError
  | Blocked => False
  | Unfinished => True
  end.
Proof.
  intros (Hin & Heof & Hbase).
  destruct v as [[ci ce co] s h pos clk].
  cbn [Threaded.client_end Threaded.handler Threaded.session
       Threaded.random_pos Connection.incoming Connection.at_eof] in *.
  subst ci ce. unfold absorb1, settled_receive.
  cbn [Threaded.client_end Threaded.handler Threaded.session
       Threaded.random_pos Connection.incoming Connection.at_eof].
  destruct h as [u|e| |];
    cbn [Threaded.handler Threaded.client_end Threaded.gone]; try exact I;
    try reflexivity.
  rewrite dispatch_number.
  destruct (ServerSession.send_number rng fuel s pos) as [[s' p']|e| |] eqn:E;
    cbn [Threaded.handler Threaded.client_end Threaded.session
         Threaded.random_pos Threaded.clock]; try exact I; try reflexivity.
  - destruct (send_number_ok rng fuel s pos s' p' E) as (g & Hg & ->).
    cbn [ServerSession.base Connection.outgoing Connection.incoming
         Connection.at_eof ServerSession.lower ServerSession.upper
         ServerSession.secret ServerSession.guesses].
    rewrite Hbase. cbn [Connection.outgoing List.app].
    rewrite receive_reply. cbn [bind].
    split; [repeat split|]. split; [reflexivity|].
    exists g, p'. repeat split. exact Hg.
  - exfalso. revert E. rewrite <- (dispatch_number int_of_str).
    apply dispatch_not_blocked.
Qed.

End QuietFacts.

Section Simulation.

Variable int_of_str : pystr -> option Z.
Variable rng : nat -> Z.
Variable fuel : nat.
Variable W : Type.
Variable send1 : pystr -> W -> outcome W.
Variable recv1 : W -> outcome (pystr * W).
Variable sleep1 : W -> W.
Variable corr : W -> Threaded.World -> Prop.

Local Notation take := (absorb1 int_of_str rng fuel).

Hypothesis Hsend : forall w v c,
  corr w v ->
  exists w', send1 (render c) w = Ok w' /\ corr w' (take v (render c)).
Hypothesis Hrecv : forall w v,
  corr w v -> awaitable v -> agree corr (recv1 w) (settled_receive v).
Hypothesis Hsleep : forall w v, corr w v -> corr (sleep1 w) v.

Local Notation client := (ClientSession.mk send1 recv1).
Local Notation model := (settled_session int_of_str rng fuel).

Lemma request_number_sim secret last w v :
  corr w v -> quiet v ->
  related (fun x y => fst x = fst y /\ corr (snd x) (snd y) /\ quiet (snd y))
    (ClientSession.request_number int_of_str (client secret last) w)
    (ClientSession.request_number int_of_str (model secret last) v).
Proof.
  intros Hc Hq. unfold ClientSession.request_number, settled_session.
  cbn [ClientSession.send ClientSession.receive].
  change (lit "NUMBER") with (render NUMBER).
  destruct (Hsend w v NUMBER Hc) as (w1 & -> & Hc1).
  unfold settled_send. cbn [bind].
  pose proof (Hrecv w1 _ Hc1 (quiet_awaitable int_of_str rng fuel v _ Hq)) as Ha.
  pose proof (quiet_number int_of_str rng fuel v Hq) as Hn.
  destruct (recv1 w1) as [[t w2]|e| |];
    destruct (settled_receive (take v (render NUMBER))) as [[t' v2]|e'| |];
    cbn [agree] in Ha; try contradiction; cbn [bind related]; try exact I;
    try assumption.
  destruct Ha as [<- Hc2]. destruct Hn as [Hq2 _].
  destruct (int int_of_str t); cbn [bind related fst snd]; auto.
Qed.

Lemma report_outcome_sim secret last number w v :
  corr w v -> quiet v ->
  related
    (fun x y =>
       fst (fst x) = fst (fst y)
       /\ (exists dist,
             snd (fst x) = client secret (Some dist)
             /\ snd (fst y) = model secret (Some dist))
       /\ corr (snd x) (snd y) /\ quiet (snd y))
    (ClientSession.report_outcome (client secret last) number w)
    (ClientSession.report_outcome (model secret last) number v).
Proof.
  intros Hc Hq. unfold ClientSession.report_outcome, settled_session.
  cbn [ClientSession.send ClientSession.receive ClientSession.secret
       ClientSession.last_distance].
  destruct (fabs (number - secret)) as [dist|e| |]; cbn [bind related];
    try exact I; try reflexivity.
  match goal with
  | |- context [lit "REPORT " ++ decision_text ?d] =>
      change (lit "REPORT " ++ decision_text d) with (render (REPORT d));
      destruct (Hsend w v (REPORT d) Hc) as (w1 & -> & Hc1);
      pose proof (quiet_report int_of_str rng fuel v d Hq) as Hq1
  end.
  unfold settled_send. cbn [bind related fst snd].
  split; [reflexivity|]. split; [|split; assumption].
  exists dist. split; reflexivity.
Qed.

Lemma iter_sim secret rounds : forall last w v,
  corr w v -> quiet v ->
  fst (ClientSession.iter int_of_str rounds (client secret last) w) =
    fst (ClientSession.iter int_of_str rounds (model secret last) v)
  /\ related (fun x y => corr (snd x) (snd y))
       (snd (ClientSession.iter int_of_str rounds (client secret last) w))
       (snd (ClientSession.iter int_of_str rounds (model secret last) v)).
Proof.
  induction rounds as [|rounds IH]; intros last w v Hc Hq.
  - split; [reflexivity|exact I].
  - cbn [ClientSession.iter].
    pose proof (request_number_sim secret last w v Hc Hq) as Hr.
    destruct (ClientSession.request_number int_of_str (client secret last) w)
      as [[n w1]|e| |];
      destruct (ClientSession.request_number int_of_str (model secret last) v)
        as [[n' v1]|e'| |];
      cbn [related] in Hr; try contradiction;
      try (split; [reflexivity|]; cbn [snd related]; assumption).
    cbn [fst snd] in Hr. destruct Hr as (<- & Hc1 & Hq1).
    pose proof (report_outcome_sim secret last n w1 v1 Hc1 Hq1) as Ho.
    destruct (ClientSession.report_outcome (client secret last) n w1)
      as [[[d s] w2]|e| |];
      destruct (ClientSession.report_outcome (model secret last) n v1)
        as [[[d' s'] v2]|e'| |];
      cbn [related] in Ho; try contradiction;
      try (split; [reflexivity|]; cbn [snd related]; assumption).
    cbn [fst snd] in Ho.
    destruct Ho as (<- & (dist & -> & ->) & Hc2 & Hq2).
    destruct (is_correct d).
    + split; [reflexivity|]. cbn [snd related]. exact Hc2.
    + destruct (IH (Some dist) w2 v2 Hc2 Hq2) as [Hres Hfin].
      destruct (ClientSession.iter int_of_str rounds
                  (client secret (Some dist)) w2) as [later final].
      destruct (ClientSession.iter int_of_str rounds
                  (model secret (Some dist)) v2) as [later' final'].
      cbn [fst snd] in *. subst later'. split; [reflexivity|exact Hfin].
Qed.

Lemma collect_sim secret rounds last w v :
  corr w v -> quiet v ->
  related (fun x y => fst x = fst y /\ corr (snd x) (snd y))
    (ClientSession.collect int_of_str rounds (client secret last) w)
    (ClientSession.collect int_of_str rounds (model secret last) v).
Proof.
  intros Hc Hq. unfold ClientSession.collect.
  destruct (iter_sim secret rounds last w v Hc Hq) as [Hres Hfin].
  destruct (ClientSession.iter int_of_str rounds (client secret last) w)
    as [results final].
  destruct (ClientSession.iter int_of_str rounds (model secret last) v)
    as [results' final'].
  cbn [fst snd] in *. subst results'.
  destruct final as [[s w']|e| |]; destruct final' as [[s' v']|e'| |];
    cbn [related] in *; try contradiction; try exact I; try assumption.
  cbn [fst snd] in *. split; [reflexivity|assumption].
Qed.

(** A whole game, played in a world and on the protocol state it amounts
    to, gives the same results. *)
Lemma game_sim lower upper secret w v :
  corr w v -> quiet v ->
  results_of
    (w <- send1 (render (PARAMS lower upper)) w ;;
     '(a, w) <- ClientSession.collect int_of_str fuel
                  (ClientSession.init send1 recv1 secret) w ;;
     w <- send1 (render CLEAR) (sleep1 w) ;;
     Ok (a, w)) =
    results_of (settled_play int_of_str rng fuel lower upper secret v).
Proof.
  intros Hc Hq. unfold settled_play, settled_send, ClientSession.init.
  destruct (Hsend w v (PARAMS lower upper) Hc) as (w1 & -> & Hc1).
  cbn [bind].
  pose proof (collect_sim secret fuel None w1 _ Hc1
                (quiet_params int_of_str rng fuel v lower upper Hq)) as Hg.
  destruct (ClientSession.collect int_of_str fuel (client secret None) w1)
    as [[a w2]|e| |];
    destruct (ClientSession.collect int_of_str fuel (model secret None) _)
      as [[a' v2]|e'| |];
    cbn [related] in Hg; try contradiction; cbn [bind results_of];
    try reflexivity; try (f_equal; assumption).
  cbn [fst snd] in Hg. destruct Hg as [<- Hc2].
  destruct (Hsend (sleep1 w2) v2 CLEAR (Hsleep w2 v2 Hc2)) as (w3 & -> & _).
  reflexivity.
Qed.

End Simulation.

Section Runners.

Variable int_of_str : pystr -> option Z.
Variable rng : nat -> Z.
Variable fuel : nat.

Local Notation take := (absorb1 int_of_str rng fuel).
Local Notation corresponds := (corresponds int_of_str rng fuel).

Lemma connected_corresponds pos :
  corresponds (Threaded.connected pos) (Threaded.connected pos).
Proof.
  exists (Threaded.connected pos), []. split; [|reflexivity].
  unfold represents. cbn. repeat split; reflexivity.
Qed.

Lemma connected_quiet pos : quiet (Threaded.connected pos).
Proof. repeat split. Qed.

(** A game of the threaded runner, whatever the scheduler does, is the
    game on the protocol state. *)
Lemma threaded_play_settled sched lower upper secret pos :
  results_of
    (Threaded.play int_of_str rng sched fuel lower upper secret
       (Threaded.connected pos)) =
    results_of
      (settled_play int_of_str rng fuel lower upper secret
         (Threaded.connected pos)).
Proof.
  unfold Threaded.play, Threaded.new_game.
  apply (game_sim int_of_str rng fuel Threaded.World
           (Threaded.send int_of_str rng sched fuel)
           (Threaded.receive int_of_str rng fuel)
           (Threaded.sleep int_of_str rng sched fuel) corresponds).
  - intros w v c. apply corresponds_send.
  - intros w v. apply corresponds_receive.
  - intros w v. apply corresponds_preempt.
  - apply connected_corresponds.
  - apply connected_quiet.
Qed.

Lemma async_send_corresponds w v c :
  corresponds (sync_world w) v ->
  exists w',
    EventLoop.send (render c) w = Ok w'
    /\ corresponds (sync_world w') (take v (render c)).
Proof.
  intros (n & pending & Hrep & Hv).
  pose proof (sync_send_world (render c) w) as Hs.
  change (Threaded.client_end (sync_world w))
    with (sync_connection (EventLoop.client_end w)) in Hs.
  rewrite (send_line _ _ _ (encode_render c)) in Hs.
  destruct (EventLoop.send (render c) w) as [w'|e| |]; try discriminate.
  exists w'. split; [reflexivity|].
  apply (f_equal (fun o => match o with Ok x => x | _ => sync_world w' end))
    in Hs.
  cbn [omap bind] in Hs. rewrite Hs.
  exists n, (pending ++ [c]). split.
  - rewrite <- line_bytes_render.
    apply (represents_push (sync_world w) n pending c 0 Hrep).
  - rewrite map_app, absorb_app, Hv. reflexivity.
Qed.

Lemma async_receive_corresponds w v :
  corresponds (sync_world w) v -> awaitable v ->
  agree (fun w v => corresponds (sync_world w) v)
    (EventLoop.receive int_of_str rng fuel w) (settled_receive v).
Proof.
  intros Hc Ha.
  pose proof (corresponds_receive int_of_str rng fuel _ v Hc Ha) as H.
  rewrite sync_receive in H.
  destruct (EventLoop.receive int_of_str rng fuel w) as [[t w']|e| |];
    cbn [omap bind fst snd] in H; exact H.
Qed.

Lemma async_sleep_corresponds w v :
  corresponds (sync_world w) v ->
  corresponds (sync_world (EventLoop.sleep int_of_str rng fuel w)) v.
Proof.
  intros Hc. unfold EventLoop.sleep. rewrite sync_serve.
  apply corresponds_serve. exact Hc.
Qed.

End Runners.

(** The coroutine client session is the threaded one. *)
Section SyncClient.

Variable int_of_str : pystr -> option Z.
Variable W : Type.

Lemma sync_request_number (self : AsyncClientSession.t W) w :
  AsyncClientSession.request_number int_of_str self w =
    ClientSession.request_number int_of_str (sync_client self) w.
Proof. reflexivity. Qed.

Lemma sync_report_outcome (self : AsyncClientSession.t W) number w :
  omap (fun x => (fst (fst x), sync_client (snd (fst x)), snd x))
    (AsyncClientSession.report_outcome self number w) =
    ClientSession.report_outcome (sync_client self) number w.
Proof.
  unfold AsyncClientSession.report_outcome, ClientSession.report_outcome,
    omap, sync_client.
  cbn [ClientSession.send ClientSession.receive ClientSession.secret
       ClientSession.last_distance AsyncClientSession.send
       AsyncClientSession.receive AsyncClientSession.secret
       AsyncClientSession.last_distance].
  destruct (fabs (number - AsyncClientSession.secret self)) as [d|e| |];
    cbn [bind]; try reflexivity.
  destruct (AsyncClientSession.send self _ w); reflexivity.
Qed.

Lemma sync_aiter rounds : forall (self : AsyncClientSession.t W) w,
  (fst (AsyncClientSession.aiter int_of_str rounds self w),
   omap (fun x => (sync_client (fst x), snd x))
     (snd (AsyncClientSession.aiter int_of_str rounds self w))) =
    ClientSession.iter int_of_str rounds (sync_client self) w.
Proof.
  induction rounds as [|rounds IH]; intros self w; [reflexivity|].
  cbn [AsyncClientSession.aiter ClientSession.iter].
  rewrite <- sync_request_number.
  destruct (AsyncClientSession.request_number int_of_str self w)
    as [[n w1]|e| |]; try reflexivity.
  rewrite <- sync_report_outcome. unfold omap at 2.
  destruct (AsyncClientSession.report_outcome self n w1)
    as [[[d s] w2]|e| |]; cbn [bind fst snd]; try reflexivity.
  destruct (is_correct d); [reflexivity|].
  rewrite <- IH.
  destruct (AsyncClientSession.aiter int_of_str rounds s w2) as [later final].
  reflexivity.
Qed.

Lemma sync_collect rounds (self : AsyncClientSession.t W) w :
  AsyncClientSession.collect int_of_str rounds self w =
    ClientSession.collect int_of_str rounds (sync_client self) w.
Proof.
  unfold AsyncClientSession.collect, ClientSession.collect.
  rewrite <- sync_aiter.
  destruct (AsyncClientSession.aiter int_of_str rounds self w)
    as [results [[s w']|e| |]]; reflexivity.
Qed.

End SyncClient.

(** A game of the coroutine runner is the game on the protocol state. *)
Lemma async_play_settled int_of_str rng fuel lower upper secret pos :
  results_of
    (EventLoop.play int_of_str rng fuel lower upper secret
       (EventLoop.connected pos)) =
    results_of
      (settled_play int_of_str rng fuel lower upper secret
         (Threaded.connected pos)).
Proof.
  unfold EventLoop.play, EventLoop.new_async_game.
  transitivity
    (results_of
       (w <- EventLoop.send (render (PARAMS lower upper))
               (EventLoop.connected pos) ;;
        '(a, w) <- ClientSession.collect int_of_str fuel
                     (ClientSession.init EventLoop.send
                        (EventLoop.receive int_of_str rng fuel) secret) w ;;
        w <- EventLoop.send (render CLEAR)
               (EventLoop.sleep int_of_str rng fuel w) ;;
        Ok (a, w))).
  { change (lit "PARAMS " ++ str lower ++ lit " " ++ str upper)
      with (render (PARAMS lower upper)).
    destruct (EventLoop.send (render (PARAMS lower upper)) _) as [w| | |];
      cbn [bind]; try reflexivity.
    rewrite sync_collect. reflexivity. }
  apply (game_sim int_of_str rng fuel EventLoop.World
           EventLoop.send
           (EventLoop.receive int_of_str rng fuel)
           (EventLoop.sleep int_of_str rng fuel)
           (fun w v => corresponds int_of_str rng fuel (sync_world w) v)).
  - intros w v c. apply async_send_corresponds.
  - intros w v. apply async_receive_corresponds.
  - intros w v. apply async_sleep_corresponds.
  - apply connected_corresponds.
  - apply connected_quiet.
Qed.

(** One game, run both ways: the draws are 1, 2, 3 and the secret
    is 3. *)
Example threaded_game_runs :
  results_of
    (Threaded.play int_ascii counting (fun _ => true) 5 1 3 3
       (Threaded.connected 0)) =
    Ok [(1, Unsure); (2, Warmer); (3, Correct)].
Proof. vm_compute. reflexivity. Qed.

Example async_game_runs :
  results_of
    (EventLoop.play int_ascii counting 5 1 3 3 (EventLoop.connected 0)) =
    Ok [(1, Unsure); (2, Warmer); (3, Correct)].
Proof. vm_compute. reflexivity. Qed.

(** C3: for every triple (lower, upper, secret), every sequence of draws
    (and every reader of numerals, scheduler and bound on the loops), a
    game of the thread-based implementation and a game of the
    coroutine-based implementation give the same list of
    (number, decision) pairs, or fail in the same way. *)
Theorem threads_and_coroutines_agree (int_of_str : pystr -> option Z)
  (rng : nat -> Z) (sched : nat -> bool) (fuel : nat)
  (lower upper secret : Z) (pos : nat) :
  results_of
    (Threaded.play int_of_str rng sched fuel lower upper secret
       (Threaded.connected pos)) =
    results_of
      (EventLoop.play int_of_str rng fuel lower upper secret
         (EventLoop.connected pos)).
Proof.
  rewrite threaded_play_settled, async_play_settled. reflexivity.
Qed.

(** ** The game on the protocol state comes to an end *)

(** Distinct numbers of a range, none of them the secret, are fewer than
    the range has members. *)
Lemma guesses_bounded lower upper secret (guesses : list Z) :
  lower <= secret <= upper ->
  NoDup guesses ->
  (forall g, In g guesses -> lower <= g <= upper /\ g <> secret) ->
  (length guesses <= Z.to_nat (upper - lower))%nat.
Proof.
  intros Hs Hnd Hin.
  assert (Hlen : (length (secret :: guesses) <=
                  length (map (fun i => (lower + Z.of_nat i)%Z)
                            (seq 0 (Z.to_nat (upper - lower + 1)))))%nat).
  { apply NoDup_incl_length.
    - constructor; [|exact Hnd]. intros H. apply (Hin _ H). reflexivity.
    - intros x Hx. apply in_map_iff. exists (Z.to_nat (x - lower)).
      assert (lower <= x <= upper) as Hr.
      { destruct Hx as [<-|Hx]; [exact Hs|apply (Hin _ Hx)]. }
      split; [lia|]. apply in_seq. lia. }
  rewrite length_map, length_seq in Hlen. cbn [length] in Hlen. lia.
Qed.

Section GameFacts.

Variable int_of_str : pystr -> option Z.
Variable rng : nat -> Z.
Variables lower upper secret : Z.

Local Notation model fuel := (settled_session int_of_str rng fuel secret).
Local Notation board guesses :=
  (ServerSession.mk (Connection.mk [] false []) (Some lower) (Some upper)
     None guesses).

Lemma playing_params fuel pos :
  int_of_str (str lower) = Some lower ->
  int_of_str (str upper) = Some upper ->
  absorb1 int_of_str rng fuel (Threaded.connected pos)
    (render (PARAMS lower upper)) = playing lower upper [] pos.
Proof.
  intros Hlo Hhi. unfold absorb1, Threaded.connected.
  cbn [Threaded.handler Threaded.session Threaded.random_pos
       Threaded.client_end].
  rewrite dispatch_params. unfold ServerSession.set_params, int.
  rewrite Hlo. cbn [bind]. rewrite Hhi. reflexivity.
Qed.

Lemma playing_number fuel last guesses pos guess pos' :
  int_of_str (str guess) = Some guess ->
  ServerSession.next_guess_loop rng fuel (board guesses) pos =
    Ok (guess, pos') ->
  ClientSession.request_number int_of_str (model fuel last)
    (playing lower upper guesses pos) =
    Ok (guess, playing lower upper (guesses ++ [guess]) pos').
Proof.
  intros Hint Hg. unfold ClientSession.request_number, settled_session.
  cbn [ClientSession.send ClientSession.receive].
  change (lit "NUMBER") with (render NUMBER).
  unfold settled_send, absorb1, playing.
  cbn [bind Threaded.handler Threaded.session Threaded.random_pos
       Threaded.client_end].
  rewrite dispatch_number.
  unfold ServerSession.send_number, ServerSession.next_guess.
  cbn [ServerSession.secret]. rewrite Hg. cbn [bind].
  cbn [ServerSession.base ServerSession.lower ServerSession.upper
       ServerSession.secret ServerSession.guesses].
  rewrite (send_line _ _ _ (encode_ascii _ (str_ascii guess))).
  cbn [bind Connection.incoming Connection.at_eof Connection.outgoing
       ServerSession.base ServerSession.lower ServerSession.upper
       ServerSession.secret ServerSession.guesses List.app].
  unfold settled_receive.
  cbn [Threaded.handler Threaded.client_end Threaded.session
       Threaded.random_pos Threaded.clock].
  rewrite (receive_sent_line (str guess) _ [] false []
             (encode_ascii _ (str_ascii guess)) (str_no_newline guess)).
  cbn [bind]. unfold int. rewrite Hint. reflexivity.
Qed.

Lemma fabs_nothing : fabs 0 = Ok 0.
Proof. apply (fabs_exact 0). cbn. discriminate. Qed.

Lemma playing_report_correct fuel last guesses pos :
  exists self v,
    ClientSession.report_outcome (model fuel last) secret
      (playing lower upper guesses pos) = Ok (Correct, self, v).
Proof.
  unfold ClientSession.report_outcome, settled_session.
  cbn [ClientSession.send ClientSession.receive ClientSession.secret
       ClientSession.last_distance].
  rewrite Z.sub_diag, fabs_nothing. cbn [bind Z.eqb].
  unfold settled_send. cbn [bind]. eexists. eexists. reflexivity.
Qed.

Lemma playing_report_wrong fuel last guesses guess pos distance :
  guess <> secret -> fabs (guess - secret) = Ok distance ->
  exists decision,
    is_correct decision = false
    /\ decision <> Correct
    /\ ClientSession.report_outcome (model fuel last) guess
         (playing lower upper (guesses ++ [guess]) pos) =
         Ok (decision, model fuel (Some distance),
             playing lower upper (guesses ++ [guess]) pos).
Proof.
  intros Hne Hd.
  assert (Hnz : (distance =? 0) = false).
  { apply Z.eqb_neq. intros Hz. apply (fabs_zero _ _ Hd) in Hz. lia. }
  unfold ClientSession.report_outcome, settled_session.
  cbn [ClientSession.send ClientSession.receive ClientSession.secret
       ClientSession.last_distance].
  rewrite Hd. cbn [bind]. rewrite Hnz.
  match goal with
  | |- context [decision_text ?d] => set (decision := d)
  end.
  assert (Hic : is_correct decision = false).
  { subst decision. destruct last as [l|]; [|reflexivity].
    destruct (distance <? l); [reflexivity|].
    destruct (distance >? l); reflexivity. }
  exists decision. split; [exact Hic|].
  split; [intros E; rewrite E in Hic; discriminate|].
  change (lit "REPORT " ++ decision_text decision)
    with (render (REPORT decision)).
  unfold settled_send, absorb1, playing.
  cbn [bind Threaded.handler Threaded.session Threaded.random_pos
       Threaded.client_end].
  rewrite dispatch_report, receive_report_text.
  cbn [ServerSession.guesses]. rewrite last_item_app, Hic. reflexivity.
Qed.

Hypothesis Hint :
  forall z, lower <= z <= upper -> int_of_str (str z) = Some z.
Hypothesis Hsecret : lower <= secret <= upper.
Hypothesis Hlimit : upper - lower < FABS_LIMIT.
Hypothesis Hfair : fair rng lower upper.

(** With [remaining] members of the range other than the secret still
    unguessed, the rounds end with the secret found, after at most
    [remaining + 1] of them, once the loops are given room enough. *)
Lemma rounds_end remaining : forall guesses pos last,
  NoDup guesses ->
  (forall g, In g guesses -> lower <= g <= upper /\ g <> secret) ->
  (length guesses + remaining = Z.to_nat (upper - lower))%nat ->
  exists fuel0 : nat,
    forall fuel rounds : nat,
      (fuel0 <= fuel)%nat -> (remaining < rounds)%nat ->
      exists results self v,
        ClientSession.iter int_of_str rounds (model fuel last)
          (playing lower upper guesses pos) = (results, Ok (self, v))
        /\ (length results <= S remaining)%nat
        /\ ends_correct secret results.
Proof.
  assert (Hrange : lower <= upper) by lia.
  induction remaining as [|remaining IH]; intros guesses pos last Hnd Hin Hlen.
  all: destruct (Hfair pos secret Hsecret) as [k Hk].
  all: assert (Hfresh : ~ In (draw rng lower upper (pos + k)) guesses)
         by (rewrite Hk; intros H; apply (Hin _ H); reflexivity).
  all: destruct (next_guess_loop_hits rng (board guesses) lower upper
                   eq_refl eq_refl Hrange k pos Hfresh)
         as (guess & pos' & Hg).
  all: destruct (next_guess_loop_ok rng (board guesses) lower upper
                   eq_refl eq_refl Hrange _ _ _ _ Hg)
         as (Hin_range & Hnew & _).
  all: cbn [ServerSession.guesses] in Hnew.
  all: destruct (Z.eq_dec guess secret) as [->|Hne].
  all: try (exists (S k); intros fuel rounds Hfuel Hrounds;
            destruct rounds as [|rounds]; [lia|];
            cbn [ClientSession.iter];
            rewrite (playing_number fuel last guesses pos secret pos'
                       (Hint secret Hsecret)
                       (next_guess_loop_more rng (board guesses) lower upper
                          eq_refl eq_refl Hrange _ _ _ _ Hg Hfuel));
            destruct (playing_report_correct fuel last (guesses ++ [secret])
                        pos') as (self & v & ->);
            cbn [is_correct];
            exists [(secret, Correct)], self, v;
            split; [reflexivity|]; split; [cbn; lia|];
            exists []; split; [reflexivity|constructor]).
  all: assert (Hnd' : NoDup (guesses ++ [guess]))
         by (apply NoDup_app; repeat split;
             [exact Hnd|repeat constructor; intros []|
              intros x Hx [<-|[]]; exact (Hnew Hx)]).
  all: assert (Hin' : forall g, In g (guesses ++ [guess]) ->
                 lower <= g <= upper /\ g <> secret)
         by (intros g Hg'; apply in_app_or in Hg';
             destruct Hg' as [Hg'|[<-|[]]]; [exact (Hin _ Hg')|];
             split; assumption).
  all: pose proof (guesses_bounded lower upper secret _ Hsecret Hnd' Hin')
         as Hmany.
  all: rewrite length_app in Hmany; cbn [length] in Hmany.
  - lia.
  - assert (Hfar : Z.abs (guess - secret) < FABS_LIMIT) by lia.
    destruct (fabs_in_range _ Hfar) as [distance Hd].
    destruct (IH (guesses ++ [guess]) pos' (Some distance) Hnd' Hin')
      as [fuel1 Hrest].
    { rewrite length_app. cbn [length]. lia. }
    exists (Nat.max (S k) fuel1). intros fuel rounds Hfuel Hrounds.
    destruct rounds as [|rounds]; [lia|].
    cbn [ClientSession.iter].
    rewrite (playing_number fuel last guesses pos guess pos'
               (Hint guess Hin_range)).
    2:{ apply (next_guess_loop_more rng (board guesses) lower upper
                 eq_refl eq_refl Hrange _ _ _ _ Hg). lia. }
    destruct (playing_report_wrong fuel last guesses guess pos' distance
                Hne Hd) as (decision & Hwrong & Hnot & ->).
    rewrite Hwrong.
    destruct (Hrest fuel rounds) as (results & self & v & -> & Hcount & Hend);
      [lia|lia|].
    exists ((guess, decision) :: results), self, v.
    split; [reflexivity|]. split; [cbn [length]; lia|].
    destruct Hend as (earlier & -> & Hall).
    exists ((guess, decision) :: earlier). split; [reflexivity|].
    constructor; [split; assumption|exact Hall].
Qed.

(** The whole game on the protocol state. *)
Lemma settled_play_ends pos :
  exists fuel0 : nat,
    forall fuel : nat,
      (fuel0 <= fuel)%nat ->
      exists results,
        results_of
          (settled_play int_of_str rng fuel lower upper secret
             (Threaded.connected pos)) = Ok results
        /\ Z.of_nat (length results) <= upper - lower + 1
        /\ ends_correct secret results.
Proof.
  destruct (rounds_end (Z.to_nat (upper - lower)) [] pos None)
    as [fuel0 Hgame].
  { constructor. }
  { intros g []. }
  { reflexivity. }
  exists (Nat.max fuel0 (S (Z.to_nat (upper - lower)))).
  intros fuel Hfuel.
  destruct (Hgame fuel fuel) as (results & self & v & Hiter & Hcount & Hend);
    [lia|lia|].
  exists results. split; [|split; [lia|exact Hend]].
  unfold settled_play, settled_send. cbn [bind].
  rewrite playing_params by (apply Hint; lia).
  unfold ClientSession.collect.
  rewrite Hiter. reflexivity.
Qed.

End GameFacts.

Lemma fabs_huge : fabs (2 ^ 1029 - 0) = Raise OverflowError.
Proof. vm_compute. reflexivity. Qed.

(** A range wider than the largest float: the first number drawn is
    [2 ^ 1029], and [math.fabs] cannot convert its distance to the
    secret. *)
Lemma huge_range_game_overflows :
  0 <= 0 <= 2 ^ 1030
  /\ forall (sched : nat -> bool) (fuel : nat),
       results_of
         (Threaded.play int_ascii (constant (2 ^ 1029)) sched (S fuel)
            0 (2 ^ 1030) 0 (Threaded.connected 0)) = Raise OverflowError.
Proof.
  split; [split; [lia|apply Z.pow_nonneg; lia]|].
  intros sched fuel. rewrite threaded_play_settled.
  unfold settled_play, settled_send. cbn [bind].
  rewrite (playing_params int_ascii _ 0 (2 ^ 1030) (S fuel) 0%nat
             (int_ascii_str _) (int_ascii_str _)).
  unfold ClientSession.collect. cbn [ClientSession.iter].
  rewrite (playing_number int_ascii _ 0 (2 ^ 1030) 0 (S fuel) None [] 0%nat
             (2 ^ 1029) 1%nat (int_ascii_str _)).
  - unfold ClientSession.report_outcome, settled_session.
    cbn [ClientSession.secret]. rewrite fabs_huge. reflexivity.
  - rewrite (next_guess_loop_step (constant (2 ^ 1029))
               (ServerSession.mk (Connection.mk [] false []) (Some 0)
                  (Some (2 ^ 1030)) None [])
               0 (2 ^ 1030) eq_refl eq_refl).
    + cbn [ServerSession.guesses].
      destruct (in_dec Z.eq_dec _ []) as [[]|_].
      vm_compute. reflexivity.
    + apply Z.pow_nonneg. lia.
Qed.

(** C1, amended.  For every triple (lower, upper, secret) with
    [lower <= secret <= upper] whose bounds have at most 4300 decimal
    digits (so that [str] and [int] convert every number of the range) and
    whose range is narrower than the largest float
    ([upper - lower < 2^1024 - 2^970]), and every sequence of draws in
    which each number of the range keeps turning up: a client session run
    against a server session, by threads under any scheduling or by
    coroutines, comes to an end once its loops are given room enough; it
    takes at most [upper - lower + 1] NUMBER/REPORT rounds, the decision of
    the final round is [Correct], its number is the secret, and no earlier
    round guessed the secret or reported [Correct].  Of [int] only what
    CPython gives is used: that it reads back the numeral of a number
    within the digits limit. *)
Theorem game_ends_with_secret (int_of_str : pystr -> option Z)
  (rng : nat -> Z) (lower upper secret : Z) (pos : nat) :
  (forall z, convertible z -> int_of_str (str z) = Some z) ->
  convertible lower ->
  convertible upper ->
  lower <= secret <= upper ->
  upper - lower < FABS_LIMIT ->
  fair rng lower upper ->
  exists fuel0 : nat,
    forall (sched : nat -> bool) (fuel : nat),
      (fuel0 <= fuel)%nat ->
      exists results,
        results_of
          (Threaded.play int_of_str rng sched fuel lower upper secret
             (Threaded.connected pos)) = Ok results
        /\ results_of
             (EventLoop.play int_of_str rng fuel lower upper secret
                (EventLoop.connected pos)) = Ok results
        /\ Z.of_nat (length results) <= upper - lower + 1
        /\ ends_correct secret results.
Proof.
  intros Hint Hlower Hupper Hsecret Hlimit Hfair.
  assert (Hrange : forall z, lower <= z <= upper ->
                     int_of_str (str z) = Some z).
  { intros z Hz. apply Hint. unfold convertible in *.
    set (bound := 10 ^ INT_MAX_STR_DIGITS) in *. clearbody bound. lia. }
  destruct (settled_play_ends int_of_str rng lower upper secret Hrange
              Hsecret Hlimit Hfair pos) as [fuel0 Hgame].
  exists fuel0. intros sched fuel Hfuel.
  destruct (Hgame fuel Hfuel) as (results & Hres & Hcount & Hend).
  exists results.
  rewrite threaded_play_settled, async_play_settled.
  repeat split; assumption.
Qed.

Lemma game_ends_with_secret_witness :
  exists fuel0 : nat,
    forall (sched : nat -> bool) (fuel : nat),
      (fuel0 <= fuel)%nat ->
      exists results,
        results_of
          (Threaded.play int_ascii counting sched fuel 1 3 2
             (Threaded.connected 0)) = Ok results
        /\ results_of
             (EventLoop.play int_ascii counting fuel 1 3 2
                (EventLoop.connected 0)) = Ok results
        /\ Z.of_nat (length results) <= 3 - 1 + 1
        /\ ends_correct 2 results.
Proof.
  apply (game_ends_with_secret int_ascii counting 1 3 2 0).
  - intros z _. apply int_ascii_str.
  - vm_compute. reflexivity.
  - vm_compute. reflexivity.
  - lia.
  - vm_compute. reflexivity.
  - apply counting_fair. lia.
Defined.

(** * Further properties of the connection *)

Lemma send_all_wire commands : forall c,
  Forall (fun command => encode command <> None) commands ->
  send_all c commands =
    Ok (Connection.mk (Connection.incoming c) (Connection.at_eof c)
          (Connection.outgoing c ++ wire commands)).
Proof.
  induction commands as [|command later IH]; intros c Hall.
  - cbn [send_all wire map concat]. rewrite app_nil_r. destruct c; reflexivity.
  - inversion Hall as [|x xs Hx Hxs]; subst.
    destruct (encode command) as [data|] eqn:E; [|contradiction].
    cbn [send_all]. rewrite (send_line _ _ _ E). cbn [bind].
    rewrite (IH _ Hxs).
    cbn [Connection.incoming Connection.at_eof Connection.outgoing].
    rewrite wire_cons, (line_bytes_encode _ _ E), <- !app_assoc. reflexivity.
Qed.

Lemma receive_all_wire commands : forall rest eof out,
  Forall (fun command => encode command <> None /\ ~ In NEWLINE command)
    commands ->
  receive_all (length commands)
    (Connection.mk (wire commands ++ rest) eof out) =
    Ok (commands, Connection.mk rest eof out).
Proof.
  induction commands as [|command later IH]; intros rest eof out Hall.
  - reflexivity.
  - inversion Hall as [|x xs [Hx Hnl] Hxs]; subst.
    destruct (encode command) as [data|] eqn:E; [|contradiction].
    cbn [length receive_all].
    rewrite wire_cons, (line_bytes_encode _ _ E), <- !app_assoc.
    cbn [List.app].
    rewrite (receive_sent_line command data _ eof out E Hnl). cbn [bind].
    rewrite (IH rest eof out Hxs). reflexivity.
Qed.

(** X1.  Commands sent one after the other arrive one by one and in the
    order sent: when every command can be encoded and none contains a
    newline, [send] succeeds on each of them, appending their lines to the
    bytes written, and as many calls of [receive] on those bytes return the
    commands unchanged and leave what follows them unread. *)
Theorem commands_arrive_in_order :
  forall (sender : Connection.t) (commands : list pystr),
    Forall (fun command => encode command <> None /\ ~ In NEWLINE command)
      commands ->
    send_all sender commands =
      Ok (Connection.mk (Connection.incoming sender)
            (Connection.at_eof sender)
            (Connection.outgoing sender ++ wire commands))
    /\ forall (more : bytes) (eof : bool) (out : bytes),
         receive_all (length commands)
           (Connection.mk (wire commands ++ more) eof out) =
           Ok (commands, Connection.mk more eof out).
Proof.
  intros sender commands Hall. split.
  - apply send_all_wire. eapply Forall_impl; [|exact Hall].
    intros command [H _]. exact H.
  - intros more eof out. apply receive_all_wire. exact Hall.
Qed.

Lemma commands_arrive_in_order_witness :
  send_all (Connection.mk [] false []) [lit "PARAMS 1 5"; lit "NUMBER"] =
    Ok (Connection.mk [] false
          ([] ++ wire [lit "PARAMS 1 5"; lit "NUMBER"]))
  /\ forall (more : bytes) (eof : bool) (out : bytes),
       receive_all 2
         (Connection.mk (wire [lit "PARAMS 1 5"; lit "NUMBER"] ++ more)
            eof out) =
         Ok ([lit "PARAMS 1 5"; lit "NUMBER"], Connection.mk more eof out).
Proof.
  apply (commands_arrive_in_order (Connection.mk [] false [])
           [lit "PARAMS 1 5"; lit "NUMBER"]).
  repeat constructor; try discriminate;
    intros H; vm_compute in H; intuition discriminate.
Defined.

(** The first line of a text and what follows its first newline. *)
Lemma split_first_line s :
  exists w ws,
    split NEWLINE s = w :: ws
    /\ ~ In NEWLINE w
    /\ ((ws = [] /\ s = w)
        \/ exists t, s = w ++ NEWLINE :: t /\ ws = split NEWLINE t).
Proof.
  induction s as [|c s IH].
  - exists [], []. split; [reflexivity|]. split; [intros []|]. left. auto.
  - cbn [split]. destruct (N.eqb_spec c NEWLINE) as [->|Hc].
    + exists [], (split NEWLINE s). split; [reflexivity|].
      split; [intros []|]. right. exists s. split; reflexivity.
    + destruct IH as (w & ws & -> & Hw & Hcase).
      exists (c :: w), ws. split; [reflexivity|]. split.
      * intros [H|H]; [congruence|exact (Hw H)].
      * destruct Hcase as [[-> ->]|(t & -> & ->)].
        -- left. auto.
        -- right. exists t. split; reflexivity.
Qed.

Lemma encode_prefix s t : encode (s ++ t) <> None -> encode s <> None.
Proof. rewrite encode_app. destruct (encode s); [discriminate|congruence]. Qed.

Lemma encode_suffix s t : encode (s ++ t) <> None -> encode t <> None.
Proof.
  rewrite encode_app. destruct (encode s), (encode t); congruence.
Qed.

Lemma line_bytes_app w t :
  encode (w ++ NEWLINE :: t) <> None ->
  line_bytes (w ++ NEWLINE :: t) = line_bytes w ++ line_bytes t.
Proof.
  intros H. unfold line_bytes.
  pose proof (encode_prefix _ _ H) as Hw.
  pose proof (encode_suffix _ _ H) as Ht.
  change (NEWLINE :: t) with ([NEWLINE] ++ t) in Ht.
  apply encode_suffix in Ht.
  rewrite <- app_assoc. cbn [List.app].
  rewrite (encode_app w (NEWLINE :: t ++ [NEWLINE])).
  change (NEWLINE :: t ++ [NEWLINE]) with ([NEWLINE] ++ (t ++ [NEWLINE])).
  rewrite (encode_app [NEWLINE]), encode_newline.
  rewrite (encode_app w [NEWLINE]), encode_newline.
  rewrite (encode_app t [NEWLINE]), encode_newline.
  destruct (encode w) as [a|]; [|contradiction].
  destruct (encode t) as [b|]; [|contradiction].
  rewrite <- app_assoc. reflexivity.
Qed.

Lemma receive_all_lines n : forall command more eof out,
  (length command < n)%nat ->
  encode command <> None ->
  receive_all (length (split NEWLINE command))
    (Connection.mk (line_bytes command ++ more) eof out) =
    Ok (split NEWLINE command, Connection.mk more eof out).
Proof.
  induction n as [|n IH]; intros command more eof out Hlen Henc; [lia|].
  destruct (split_first_line command) as (w & ws & Hsplit & Hw & Hcase).
  rewrite Hsplit. cbn [length receive_all].
  destruct Hcase as [[-> ->]|(t & -> & ->)].
  - destruct (encode w) as [data|] eqn:E; [|contradiction].
    rewrite (line_bytes_encode _ _ E), <- app_assoc. cbn [List.app].
    rewrite (receive_sent_line w data _ eof out E Hw). reflexivity.
  - rewrite (line_bytes_app _ _ Henc).
    pose proof (encode_prefix _ _ Henc) as Hwe.
    destruct (encode w) as [data|] eqn:E; [|contradiction].
    rewrite (line_bytes_encode _ _ E), <- !app_assoc. cbn [List.app].
    rewrite (receive_sent_line w data _ eof out E Hw). cbn [bind].
    rewrite IH.
    + reflexivity.
    + rewrite length_app in Hlen. cbn [length] in Hlen. lia.
    + apply (encode_suffix [NEWLINE]), (encode_suffix w). exact Henc.
Qed.

(** X2.  [send] does not escape newlines: a command with newlines in it is
    received as several commands, the pieces of the command between its
    newlines, in order, one per call of [receive]. *)
Theorem newline_splits_command :
  forall (sender : Connection.t) (command : pystr) (more : bytes)
         (eof : bool) (out : bytes),
    encode command <> None ->
    Connection.send sender command =
      Ok (Connection.mk (Connection.incoming sender)
            (Connection.at_eof sender)
            (Connection.outgoing sender ++ line_bytes command))
    /\ receive_all (length (split NEWLINE command))
         (Connection.mk (line_bytes command ++ more) eof out) =
         Ok (split NEWLINE command, Connection.mk more eof out).
Proof.
  intros sender command more eof out Henc. split.
  - destruct (encode command) as [data|] eqn:E; [|contradiction].
    rewrite (send_line _ _ _ E), (line_bytes_encode _ _ E). reflexivity.
  - apply (receive_all_lines (S (length command))); [lia|exact Henc].
Qed.

Lemma newline_splits_command_witness :
  Connection.send (Connection.mk [] false [])
    (lit "NUMBER" ++ [NEWLINE] ++ lit "CLEAR") =
    Ok (Connection.mk [] false
          ([] ++ line_bytes (lit "NUMBER" ++ [NEWLINE] ++ lit "CLEAR")))
  /\ receive_all
       (length (split NEWLINE (lit "NUMBER" ++ [NEWLINE] ++ lit "CLEAR")))
       (Connection.mk
          (line_bytes (lit "NUMBER" ++ [NEWLINE] ++ lit "CLEAR") ++ [])
          false []) =
       Ok (split NEWLINE (lit "NUMBER" ++ [NEWLINE] ++ lit "CLEAR"),
           Connection.mk [] false []).
Proof.
  apply (newline_splits_command (Connection.mk [] false [])
           (lit "NUMBER" ++ [NEWLINE] ++ lit "CLEAR") [] false []).
  vm_compute. discriminate.
Defined.

(** X3.  A line that is not finished: while the peer has not closed,
    [receive] waits for the rest; once the peer has closed, [receive]
    returns the bytes there are without the last one, decoded, so the last
    character of an unterminated final line is lost. *)
Theorem unfinished_line_is_cut :
  forall (body : bytes) (last : byte) (out : bytes),
    ~ In x0a (body ++ [last]) ->
    Connection.receive (Connection.mk (body ++ [last]) false out) = Blocked
    /\ Connection.receive (Connection.mk (body ++ [last]) true out) =
         match decode body with
         | Some text => Ok (text, Connection.mk [] true out)
         | None => Raise UnicodeDecodeError
         end.
Proof.
  intros body last out Hnl.
  unfold Connection.receive, Connection.readline.
  cbn [Connection.incoming Connection.at_eof Connection.outgoing].
  rewrite (cut_line_none _ Hnl). split; [reflexivity|].
  cbn [bind]. rewrite removelast_last.
  destruct (body ++ [last]) as [|b bs] eqn:E.
  - destruct body; discriminate.
  - reflexivity.
Qed.

Lemma unfinished_line_is_cut_witness :
  Connection.receive (Connection.mk ([x61; x62] ++ [x63]) false []) = Blocked
  /\ Connection.receive (Connection.mk ([x61; x62] ++ [x63]) true []) =
       match decode [x61; x62] with
       | Some text => Ok (text, Connection.mk [] true [])
       | None => Raise UnicodeDecodeError
       end.
Proof.
  apply (unfinished_line_is_cut [x61; x62] x63 []).
  cbn. intros H. repeat (destruct H as [H|H]; [discriminate|]). exact H.
Defined.

Lemma encode_char_none c :
  encode_char c = None <-> is_surrogate c = true \/ (0x110000 <= c)%N.
Proof.
  unfold encode_char, is_surrogate.
  destruct (N.ltb_spec c 0x80).
  { split; [discriminate|]. intros [Hs|Hs]; [|lia].
    apply andb_true_iff in Hs as [Hlo _]. apply N.leb_le in Hlo. lia. }
  destruct (N.ltb_spec c 0x800).
  { split; [discriminate|]. intros [Hs|Hs]; [|lia].
    apply andb_true_iff in Hs as [Hlo _]. apply N.leb_le in Hlo. lia. }
  destruct (N.ltb_spec c 0x10000).
  { destruct ((0xD800 <=? c)%N && (c <=? 0xDFFF)%N) eqn:S.
    - split; auto.
    - split; [discriminate|]. intros [Hs|Hs]; [discriminate|lia]. }
  destruct (N.ltb_spec c 0x110000).
  { split; [discriminate|]. intros [Hs|Hs]; [|lia].
    apply andb_true_iff in Hs as [_ Hhi]. apply N.leb_le in Hhi. lia. }
  split; auto.
Qed.

Lemma encode_none s :
  encode s = None <->
  Exists (fun c => is_surrogate c = true \/ (0x110000 <= c)%N) s.
Proof.
  induction s as [|c s IH].
  - split; [discriminate|]. intros H. inversion H.
  - cbn [encode]. destruct (encode_char c) as [b|] eqn:Ec.
    + destruct (encode s) as [bs|] eqn:Es.
      * split; [discriminate|]. intros H. inversion H as [? ? Hc|? ? Hs]; subst.
        -- apply encode_char_none in Hc. congruence.
        -- apply IH in Hs. discriminate.
      * split; [|reflexivity]. intros _. apply Exists_cons_tl, IH. reflexivity.
    + split; [|reflexivity]. intros _. apply Exists_cons_hd.
      apply encode_char_none. exact Ec.
Qed.

(** X4.  [send] fails exactly on text that UTF-8 cannot encode: it raises
    [UnicodeEncodeError] if and only if the command holds a surrogate code
    point (or a value beyond U+10FFFF, which no [str] holds); in that case
    nothing is written, and in every other case the encoded command and one
    newline are written and [send] returns. *)
Theorem send_fails_on_surrogates :
  forall (c : Connection.t) (command : pystr),
    (Connection.send c command = Raise UnicodeEncodeError <->
     Exists (fun ch => is_surrogate ch = true \/ (0x110000 <= ch)%N) command)
    /\ (Connection.send c command <> Raise UnicodeEncodeError <->
        exists data,
          encode command = Some data
          /\ Connection.send c command =
               Ok (Connection.mk (Connection.incoming c) (Connection.at_eof c)
                     (Connection.outgoing c ++ data ++ [x0a]))).
Proof.
  intros c command. rewrite <- encode_none.
  destruct (encode command) as [data|] eqn:E.
  - rewrite (send_line _ _ _ E). split; split; try discriminate.
    intros _. exists data. split; reflexivity.
  - assert (Hs : Connection.send c command = Raise UnicodeEncodeError).
    { unfold Connection.send. rewrite encode_app, E. reflexivity. }
    rewrite Hs. split; split; try reflexivity; try contradiction.
    intros (data & Hd & _). discriminate.
Qed.

(** * Further properties of the server session *)

Section ServerErrors.

Variable int_of_str : pystr -> option Z.
Variable rng : nat -> Z.

Local Notation dispatch := (ServerSession.dispatch int_of_str rng).
Local Notation loop_gas := (ServerSession.loop_gas int_of_str rng).
Local Notation loop := (ServerSession.loop int_of_str rng).

Lemma set_params_raises self lower_text upper_text e :
  ServerSession.set_params int_of_str self lower_text upper_text = Raise e ->
  e = ValueError.
Proof.
  unfold ServerSession.set_params, int.
  destruct (int_of_str lower_text); cbn [bind]; [|congruence].
  destruct (int_of_str upper_text); cbn [bind]; congruence.
Qed.

Lemma next_guess_loop_raises fuel : forall self pos e,
  ServerSession.next_guess_loop rng fuel self pos = Raise e ->
  e = TypeError \/ e = ValueError.
Proof.
  induction fuel as [|fuel IH]; intros self pos e; [discriminate|].
  cbn [ServerSession.next_guess_loop]. unfold randint.
  destruct (ServerSession.lower self) as [lo|];
    [|cbn [bind]; intros [= <-]; auto].
  destruct (ServerSession.upper self) as [hi|];
    [|cbn [bind]; intros [= <-]; auto].
  destruct (lo <=? hi); cbn [bind]; [|intros [= <-]; auto].
  destruct (in_dec Z.eq_dec _ _); [apply IH|discriminate].
Qed.

Lemma send_number_raises fuel self pos e :
  ServerSession.send_number rng fuel self pos = Raise e ->
  e = TypeError \/ e = ValueError.
Proof.
  unfold ServerSession.send_number, ServerSession.next_guess.
  destruct (ServerSession.secret self) as [pinned|].
  - cbn [bind ServerSession.base].
    rewrite (send_line _ _ _ (encode_ascii _ (str_ascii pinned))).
    discriminate.
  - destruct (ServerSession.next_guess_loop rng fuel self pos)
      as [[guess pos']|e'| |] eqn:E; cbn [bind ServerSession.base];
      try discriminate.
    + rewrite (send_line _ _ _ (encode_ascii _ (str_ascii guess))).
      discriminate.
    + intros [= <-]. exact (next_guess_loop_raises _ _ _ _ E).
Qed.

Lemma receive_report_raises self decision e :
  ServerSession.receive_report self decision = Raise e -> e = IndexError.
Proof.
  unfold ServerSession.receive_report.
  destruct (last_item _); [|congruence].
  destruct (pystr_eqb decision CORRECT); discriminate.
Qed.

(** X5.  Which command lines the server rejects: [UnknownCommandError] is
    raised, with the whole line as its argument, exactly for a line that is
    none of [PARAMS a b], [NUMBER], [REPORT d] and [CLEAR] when cut at its
    single spaces (the words are compared as they are: another case, a
    missing or additional argument or a doubled space make a line unknown);
    and when the line read is such a line the loop ends there: the session
    is as it was, nothing is written and the rest of the input stays
    unread. *)
Theorem unknown_command_is_rejected :
  forall (fuel : nat) (self : ServerSession.t) (pos : nat) (command : pystr),
    let unknown :=
      (forall a b, split SPACE command <> [lit "PARAMS"; a; b])
      /\ split SPACE command <> [lit "NUMBER"]
      /\ (forall d, split SPACE command <> [lit "REPORT"; d])
      /\ split SPACE command <> [lit "CLEAR"] in
    (forall c,
        dispatch fuel self pos command = Raise (UnknownCommandError c) <->
        c = command /\ unknown)
    /\ (forall base',
          Connection.receive (ServerSession.base self) = Ok (command, base') ->
          command <> [] ->
          unknown ->
          loop fuel self pos =
            (Raise (UnknownCommandError command),
             ServerSession.mk base' (ServerSession.lower self)
               (ServerSession.upper self) (ServerSession.secret self)
               (ServerSession.guesses self),
             pos)).
Proof.
  intros fuel self pos command unknown.
  assert (Hiff : forall s c,
             dispatch fuel s pos command = Raise (UnknownCommandError c) <->
             c = command /\ unknown).
  { intros s c. subst unknown. unfold ServerSession.dispatch.
    destruct (split SPACE command) as [|w1 [|w2 [|w3 [|w4 ws]]]].
    - split; [intros [= <-]|reflexivity || intros [-> _]; reflexivity].
      repeat split; try discriminate; intros; discriminate.
    - destruct (pystr_eqb w1 (lit "NUMBER")) eqn:E1.
      + apply pystr_eqb_eq in E1. subst w1. split.
        * intros H. apply send_number_raises in H.
          destruct H; discriminate.
        * intros (_ & _ & H & _). contradiction.
      + destruct (pystr_eqb w1 (lit "CLEAR")) eqn:E2.
        * apply pystr_eqb_eq in E2. subst w1. split; [discriminate|].
          intros (_ & _ & _ & _ & H). contradiction.
        * split; [intros [= <-]|intros [-> _]; reflexivity].
          repeat split; try discriminate; intros; try discriminate.
          -- intros [= ->]. rewrite pystr_eqb_refl in E1. discriminate.
          -- intros [= ->]. rewrite pystr_eqb_refl in E2. discriminate.
    - destruct (pystr_eqb w1 (lit "REPORT")) eqn:E1.
      + apply pystr_eqb_eq in E1. subst w1. split.
        * destruct (ServerSession.receive_report s w2) eqn:E;
            cbn [bind]; try discriminate.
          intros [= ->]. apply receive_report_raises in E. discriminate.
        * intros (_ & _ & _ & H & _). exfalso. exact (H w2 eq_refl).
      + split; [intros [= <-]|intros [-> _]; reflexivity].
        repeat split; try discriminate; intros; try discriminate.
        intros [= -> ->]. rewrite pystr_eqb_refl in E1. discriminate.
    - destruct (pystr_eqb w1 (lit "PARAMS")) eqn:E1.
      + apply pystr_eqb_eq in E1. subst w1. split.
        * destruct (ServerSession.set_params int_of_str s w2 w3) eqn:E;
            cbn [bind]; try discriminate.
          intros [= ->]. apply set_params_raises in E. discriminate.
        * intros (_ & H & _). exfalso. exact (H w2 w3 eq_refl).
      + split; [intros [= <-]|intros [-> _]; reflexivity].
        repeat split; try discriminate; intros; try discriminate.
        intros [= -> -> ->]. rewrite pystr_eqb_refl in E1. discriminate.
    - split; [intros [= <-]|intros [-> _]; reflexivity].
      repeat split; try discriminate; intros; discriminate. }
  split; [apply Hiff|].
  intros base' Hrecv Hne Hunknown.
  rewrite loop_unfold, Hrecv. cbn zeta.
  destruct command as [|ch command]; [contradiction|].
  match goal with
  | |- context [dispatch fuel ?s pos ?c] =>
      pose proof (proj2 (Hiff s c) (conj eq_refl Hunknown)) as Hd
  end.
  rewrite Hd. reflexivity.
Qed.

Lemma dispatch_raises fuel self pos command e :
  dispatch fuel self pos command = Raise e ->
  e = UnknownCommandError command \/ e = ValueError \/ e = TypeError
  \/ e = IndexError.
Proof.
  unfold ServerSession.dispatch.
  destruct (split SPACE command) as [|w1 [|w2 [|w3 [|w4 ws]]]];
    try (intros [= <-]; auto).
  - destruct (pystr_eqb w1 (lit "NUMBER")).
    + intros H. apply send_number_raises in H. tauto.
    + destruct (pystr_eqb w1 (lit "CLEAR")); [discriminate|].
      intros [= <-]. auto.
  - destruct (pystr_eqb w1 (lit "REPORT")); [|intros [= <-]; auto].
    destruct (ServerSession.receive_report self w2) eqn:E; cbn [bind];
      try discriminate.
    intros [= <-]. apply receive_report_raises in E. auto.
  - destruct (pystr_eqb w1 (lit "PARAMS")); [|intros [= <-]; auto].
    destruct (ServerSession.set_params int_of_str self w2 w3) eqn:E;
      cbn [bind]; try discriminate.
    intros [= <-]. apply set_params_raises in E. auto.
Qed.




End ServerErrors.


Section ServerCommands.

Variable int_of_str : pystr -> option Z.
Variable rng : nat -> Z.

Local Notation dispatch := (ServerSession.dispatch int_of_str rng).
Local Notation loop_gas := (ServerSession.loop_gas int_of_str rng).
Local Notation loop := (ServerSession.loop int_of_str rng).

Lemma render_is_known fuel self pos c unknown :
  dispatch fuel self pos (render c) <> Raise (UnknownCommandError unknown).
Proof.
  intros H. destruct c as [lower upper| |decision|].
  - rewrite dispatch_params in H.
    destruct (ServerSession.set_params int_of_str self _ _) eqn:E;
      cbn [bind] in H; try discriminate.
    injection H as ->. apply set_params_raises in E. discriminate.
  - rewrite dispatch_number in H. apply send_number_raises in H.
    destruct H; discriminate.
  - rewrite dispatch_report in H.
    destruct (ServerSession.receive_report self _) eqn:E;
      cbn [bind] in H; try discriminate.
    injection H as ->. apply receive_report_raises in E. discriminate.
  - rewrite dispatch_clear in H. discriminate.
Qed.

(** X7.  The two sides agree on the commands: whatever the bounds
    (negative ones too) and the decision, no line that [new_game] or a
    client session sends is rejected by the server as unknown; it is
    carried out, or fails with [ValueError], [TypeError] or [IndexError],
    or the server is still looking for a number to return. *)
Theorem client_commands_are_known :
  forall (fuel : nat) (self : ServerSession.t) (pos : nat) (c : Command),
    (exists self' pos', dispatch fuel self pos (render c) = Ok (self', pos'))
    \/ dispatch fuel self pos (render c) = Unfinished
    \/ dispatch fuel self pos (render c) = Raise ValueError
    \/ dispatch fuel self pos (render c) = Raise TypeError
    \/ dispatch fuel self pos (render c) = Raise IndexError.
Proof.
  intros fuel self pos c.
  destruct (dispatch fuel self pos (render c)) as [[self' pos']|e| |] eqn:E.
  - left. exists self', pos'. reflexivity.
  - destruct (dispatch_raises int_of_str rng _ _ _ _ _ E)
      as [-> | [-> | [-> | ->]]]; auto.
    exfalso. exact (render_is_known _ _ _ _ _ E).
  - exfalso. exact (dispatch_not_blocked _ _ _ _ _ _ E).
  - auto.
Qed.

Lemma dispatch_report_line fuel self pos decision :
  ~ In SPACE decision ->
  dispatch fuel self pos (lit "REPORT " ++ decision) =
    (self' <- ServerSession.receive_report self decision ;; Ok (self', pos)).
Proof.
  intros Hd. unfold ServerSession.dispatch.
  change (lit "REPORT " ++ decision)
    with (lit "REPORT" ++ SPACE :: decision).
  rewrite split_app, (split_no_sep _ _ Hd).
  - reflexivity.
  - cbn. intros H. repeat (destruct H as [H|H]; [discriminate|]). exact H.
Qed.

(** X8.  A report needs a guess to refer to: in a session with no guess
    made (a new one, or one that has just handled [PARAMS] or [CLEAR]) a
    [REPORT] line, whatever its decision, raises [IndexError]. *)
Theorem report_without_guess_raises :
  forall (fuel : nat) (self : ServerSession.t) (pos : nat)
         (decision : pystr),
    ~ In SPACE decision ->
    (ServerSession.guesses self = [] ->
     dispatch fuel self pos (lit "REPORT " ++ decision) = Raise IndexError)
    /\ dispatch fuel (ServerSession.init (ServerSession.base self)) pos
         (lit "REPORT " ++ decision) = Raise IndexError
    /\ dispatch fuel (ServerSession.clear_state self) pos
         (lit "REPORT " ++ decision) = Raise IndexError
    /\ (forall lower_text upper_text started,
          ServerSession.set_params int_of_str self lower_text upper_text =
            Ok started ->
          dispatch fuel started pos (lit "REPORT " ++ decision) =
            Raise IndexError).
Proof.
  intros fuel self pos decision Hd.
  assert (H : forall s, ServerSession.guesses s = [] ->
            dispatch fuel s pos (lit "REPORT " ++ decision) = Raise IndexError).
  { intros s Hs. rewrite (dispatch_report_line _ _ _ _ Hd).
    unfold ServerSession.receive_report. rewrite Hs. reflexivity. }
  split; [apply H|]. split; [apply H; reflexivity|].
  split; [apply H; reflexivity|].
  intros lower_text upper_text started Hset. apply H.
  revert Hset. unfold ServerSession.set_params.
  destruct (int int_of_str lower_text); cbn [bind]; try discriminate.
  destruct (int int_of_str upper_text); cbn [bind]; try discriminate.
  intros [= <-]. reflexivity.
Qed.

(** X9.  The server does not check the decision of a report: once a guess
    has been made, a [REPORT] with any text other than exactly [Correct]
    (another case, a misspelling, nothing at all) is accepted and changes
    nothing, and no [REPORT] is ever answered; [REPORT Correct] pins the
    last guess and changes nothing else. *)
Theorem report_text_is_not_checked :
  forall (fuel : nat) (self : ServerSession.t) (pos : nat)
         (decision : pystr) (last : Z),
    ~ In SPACE decision ->
    last_item (ServerSession.guesses self) = Some last ->
    (decision <> CORRECT ->
     dispatch fuel self pos (lit "REPORT " ++ decision) = Ok (self, pos))
    /\ (decision = CORRECT ->
        dispatch fuel self pos (lit "REPORT " ++ decision) =
          Ok (ServerSession.mk (ServerSession.base self)
                (ServerSession.lower self) (ServerSession.upper self)
                (Some last) (ServerSession.guesses self), pos)).
Proof.
  intros fuel self pos decision last Hd Hlast.
  rewrite (dispatch_report_line _ _ _ _ Hd).
  unfold ServerSession.receive_report. rewrite Hlast.
  destruct (pystr_eqb decision CORRECT) eqn:E.
  - apply pystr_eqb_eq in E. split; [contradiction|reflexivity].
  - split; [reflexivity|]. intros ->. rewrite pystr_eqb_refl in E.
    discriminate.
Qed.

End ServerCommands.

Lemma report_without_guess_raises_witness :
  (ServerSession.guesses (ServerSession.init (Connection.mk [] false [])) = [] ->
   ServerSession.dispatch int_ascii counting 1
     (ServerSession.init (Connection.mk [] false [])) 0
     (lit "REPORT " ++ lit "Warmer") = Raise IndexError)
  /\ ServerSession.dispatch int_ascii counting 1
       (ServerSession.init
          (ServerSession.base
             (ServerSession.init (Connection.mk [] false [])))) 0
       (lit "REPORT " ++ lit "Warmer") = Raise IndexError
  /\ ServerSession.dispatch int_ascii counting 1
       (ServerSession.clear_state
          (ServerSession.init (Connection.mk [] false []))) 0
       (lit "REPORT " ++ lit "Warmer") = Raise IndexError
  /\ (forall lower_text upper_text started,
        ServerSession.set_params int_ascii
          (ServerSession.init (Connection.mk [] false []))
          lower_text upper_text = Ok started ->
        ServerSession.dispatch int_ascii counting 1 started 0
          (lit "REPORT " ++ lit "Warmer") = Raise IndexError).
Proof.
  apply (report_without_guess_raises int_ascii counting 1
           (ServerSession.init (Connection.mk [] false [])) 0 (lit "Warmer")).
  cbn. intros H. repeat (destruct H as [H|H]; [discriminate|]). exact H.
Defined.

Lemma report_text_is_not_checked_witness :
  let self :=
    ServerSession.mk (Connection.mk [] false []) (Some 1) (Some 5) None [4] in
  (lit "correct" <> CORRECT ->
   ServerSession.dispatch int_ascii counting 1 self 0
     (lit "REPORT " ++ lit "correct") = Ok (self, 0%nat))
  /\ (lit "correct" = CORRECT ->
      ServerSession.dispatch int_ascii counting 1 self 0
        (lit "REPORT " ++ lit "correct") =
        Ok (ServerSession.mk (ServerSession.base self)
              (ServerSession.lower self) (ServerSession.upper self)
              (Some 4) (ServerSession.guesses self), 0%nat)).
Proof.
  apply (report_text_is_not_checked int_ascii counting 1
           (ServerSession.mk (Connection.mk [] false []) (Some 1) (Some 5)
              None [4]) 0 (lit "correct") 4).
  - cbn. intros H. repeat (destruct H as [H|H]; [discriminate|]). exact H.
  - reflexivity.
Defined.

Section ServerReplies.

Variable int_of_str : pystr -> option Z.
Variable rng : nat -> Z.

Local Notation dispatch := (ServerSession.dispatch int_of_str rng).
Local Notation loop_gas := (ServerSession.loop_gas int_of_str rng).
Local Notation loop := (ServerSession.loop int_of_str rng).

Lemma dispatch_reply fuel self pos command self' pos' :
  dispatch fuel self pos command = Ok (self', pos') ->
  Connection.outgoing (ServerSession.base self') =
    Connection.outgoing (ServerSession.base self)
  \/ exists guess,
       Connection.outgoing (ServerSession.base self') =
         Connection.outgoing (ServerSession.base self)
         ++ line_bytes (str guess).
Proof.
  unfold ServerSession.dispatch.
  destruct (split SPACE command) as [|w1 [|w2 [|w3 [|w4 ws]]]];
    try discriminate.
  - destruct (pystr_eqb w1 (lit "NUMBER")).
    + intros H. apply send_number_ok in H. destruct H as (guess & _ & ->).
      right. exists guess. reflexivity.
    + destruct (pystr_eqb w1 (lit "CLEAR")); [|discriminate].
      intros [= <- _]. left. reflexivity.
  - destruct (pystr_eqb w1 (lit "REPORT")); [|discriminate].
    unfold ServerSession.receive_report.
    destruct (last_item _); [|discriminate].
    destruct (pystr_eqb w2 CORRECT); cbn [bind]; intros [= <- _];
      left; reflexivity.
  - destruct (pystr_eqb w1 (lit "PARAMS")); [|discriminate].
    unfold ServerSession.set_params.
    destruct (int int_of_str w2); cbn [bind]; try discriminate.
    destruct (int int_of_str w3); cbn [bind]; try discriminate.
    intros [= <- _]. left. reflexivity.
Qed.

Lemma loop_gas_replies gas : forall fuel self pos,
  exists numbers,
    Connection.outgoing
      (ServerSession.base (snd (fst (loop_gas gas fuel self pos)))) =
      Connection.outgoing (ServerSession.base self)
      ++ wire (map str numbers).
Proof.
  induction gas as [|gas IH]; intros fuel self pos.
  - exists []. cbn. rewrite app_nil_r. reflexivity.
  - cbn [ServerSession.loop_gas].
    destruct (Connection.receive (ServerSession.base self))
      as [[command base']|e| |] eqn:Er;
      try (exists []; cbn; rewrite app_nil_r; reflexivity).
    destruct (receive_ok _ _ _ Er) as (_ & _ & Hout).
    destruct command as [|ch command];
      [exists []; cbn; rewrite app_nil_r; exact Hout|].
    destruct (dispatch fuel _ pos (ch :: command))
      as [[self' pos']|e| |] eqn:Ed;
      try (exists []; cbn; rewrite app_nil_r; exact Hout).
    destruct (IH fuel self' pos') as [numbers Hn].
    destruct (dispatch_reply _ _ _ _ _ _ Ed) as [Hsame|[guess Hone]];
      cbn [ServerSession.base] in *.
    + exists numbers. rewrite Hn, Hsame, Hout. reflexivity.
    + exists (guess :: numbers). rewrite Hn, Hone, Hout.
      cbn [map]. rewrite wire_cons, <- app_assoc. reflexivity.
Qed.

(** X10.  All the server ever writes is numbers: whatever bytes arrive,
    the bytes [handle_connection] has written when it stops are lines that
    each hold the decimal numeral of one integer. *)
Theorem handler_writes_numerals :
  forall (fuel : nat) (connection : Connection.t) (pos : nat),
  exists numbers : list Z,
    Connection.outgoing
      (ServerSession.base
         (snd (fst (handle_connection int_of_str rng fuel connection pos)))) =
      Connection.outgoing connection ++ wire (map str numbers).
Proof.
  intros fuel connection pos.
  unfold handle_connection, serve_session, ServerSession.loop.
  match goal with
  | |- context [ServerSession.loop_gas int_of_str rng ?g fuel ?s pos] =>
      destruct (loop_gas_replies g fuel s pos) as [numbers H];
      destruct (ServerSession.loop_gas int_of_str rng g fuel s pos)
        as [[st s'] p']
  end.
  exists numbers. cbn [fst snd] in H.
  destruct st as [u|e| |]; try exact H. destruct e; exact H.
Qed.

Lemma receive_closed_not_blocked c :
  Connection.at_eof c = true -> Connection.receive c <> Blocked.
Proof.
  intros Heof. unfold Connection.receive, Connection.readline.
  rewrite Heof.
  destruct (cut_line (Connection.incoming c)) as [[line rest]|]; cbn [bind].
  - destruct line; [discriminate|]. destruct (decode _); discriminate.
  - destruct (Connection.incoming c); [discriminate|].
    destruct (decode _); discriminate.
Qed.

Lemma loop_gas_closed gas : forall fuel self pos,
  Connection.at_eof (ServerSession.base self) = true ->
  (length (Connection.incoming (ServerSession.base self)) < gas)%nat ->
  fst (fst (loop_gas gas fuel self pos)) <> Blocked.
Proof.
  induction gas as [|gas IH]; intros fuel self pos Heof Hlen; [lia|].
  cbn [ServerSession.loop_gas].
  destruct (Connection.receive (ServerSession.base self))
    as [[command base']|e| |] eqn:Er; cbn [fst]; try discriminate.
  - destruct (receive_ok _ _ _ Er) as (Hshort & Heof' & _).
    destruct command as [|ch command]; [discriminate|].
    destruct (dispatch fuel _ pos (ch :: command))
      as [[self' pos']|e| |] eqn:Ed; cbn [fst]; try discriminate.
    + destruct (dispatch_base _ _ _ _ _ _ _ _ Ed) as (Hinc & Heof'' & _).
      cbn [ServerSession.base] in *.
      apply IH; [congruence|]. rewrite Hinc. lia.
    + exfalso. exact (dispatch_not_blocked _ _ _ _ _ _ Ed).
  - intros _. exact (receive_closed_not_blocked _ Heof Er).
Qed.

(** X11.  Once the client has closed the connection the handler does not
    wait any more: whatever bytes had arrived, [handle_connection] on a
    closed connection returns or raises, or is still inside the loop of
    [next_guess]; it is never left waiting for input. *)
Theorem closed_connection_is_not_awaited :
  forall (fuel : nat) (incoming out : bytes) (pos : nat),
    let outcome_of :=
      fst (fst (handle_connection int_of_str rng fuel
                  (Connection.mk incoming true out) pos)) in
    outcome_of = Ok tt \/ outcome_of = Unfinished
    \/ exists e, outcome_of = Raise e.
Proof.
  intros fuel incoming out pos.
  unfold handle_connection, serve_session, ServerSession.loop.
  match goal with
  | |- context [ServerSession.loop_gas int_of_str rng ?g fuel ?s pos] =>
      pose proof (loop_gas_closed g fuel s pos eq_refl) as H;
      destruct (ServerSession.loop_gas int_of_str rng g fuel s pos)
        as [[st s'] p']
  end.
  cbn [fst] in *.
  assert (Hst : st <> Blocked).
  { apply H. cbn. lia. }
  destruct st as [[]|e| |]; cbn zeta; cbn [fst]; auto.
  - destruct e; cbn [fst]; eauto.
  - contradiction.
Qed.

End ServerReplies.

Section ServerClosing.

Variable int_of_str : pystr -> option Z.
Variable rng : nat -> Z.

Local Notation dispatch := (ServerSession.dispatch int_of_str rng).
Local Notation loop := (ServerSession.loop int_of_str rng).



End ServerClosing.


(** * The coroutine classes do what the threaded ones do *)




(** X14.  The coroutine client is the threaded client: with the same
    callables, secret and state behind them, [AsyncClientSession] yields
    the pairs [ClientSession] yields, round for round, and ends the same
    way. *)
Theorem async_client_is_client :
  forall (int_of_str : pystr -> option Z) (W : Type)
         (send : pystr -> W -> outcome W)
         (receive : W -> outcome (pystr * W)) (secret : Z) (rounds : nat)
         (w : W),
    fst (AsyncClientSession.aiter int_of_str rounds
           (AsyncClientSession.init send receive secret) w) =
      fst (ClientSession.iter int_of_str rounds
             (ClientSession.init send receive secret) w)
    /\ AsyncClientSession.collect int_of_str rounds
         (AsyncClientSession.init send receive secret) w =
         ClientSession.collect int_of_str rounds
           (ClientSession.init send receive secret) w.
Proof.
  intros int_of_str W send receive secret rounds w. split.
  - change (ClientSession.init send receive secret)
      with (sync_client (AsyncClientSession.init send receive secret)).
    rewrite <- sync_aiter. reflexivity.
  - apply sync_collect.
Qed.

(** * Further properties of [math.fabs] and the decision rule *)

Lemma to_double_big a :
  2 ^ 53 <= a ->
  to_double a =
    let shift := Z.log2 a - 52 in
    let q := a / 2 ^ shift in
    let r := a mod 2 ^ shift in
    let q' :=
      if (2 ^ (shift - 1) <? r) || ((r =? 2 ^ (shift - 1)) && Z.odd q)
      then q + 1 else q in
    if q' * 2 ^ shift <? 2 ^ 1024 then Some (q' * 2 ^ shift) else None.
Proof.
  intros Ha. unfold to_double, DBL_MANT_DIG, DBL_MAX_EXP.
  assert (He : 53 <= Z.log2 a).
  { replace 53 with (Z.log2 (2 ^ 53)) by (apply Z.log2_pow2; lia).
    apply Z.log2_le_mono. exact Ha. }
  destruct (Z.leb_spec (Z.log2 a + 1) 53) as [H|H]; [lia|].
  replace (Z.log2 a + 1 - 53) with (Z.log2 a - 52) by lia. reflexivity.
Qed.

Lemma to_double_less a : 0 <= a < 2 ^ 53 -> to_double a = Some a.
Proof. intros H. apply to_double_small. lia. Qed.

(** The double of a number of [e + 1] bits lies between [2^e] and
    [2^(e+1)]. *)
Lemma to_double_binade a v :
  2 ^ 53 <= a -> to_double a = Some v ->
  2 ^ Z.log2 a <= v <= 2 ^ (Z.log2 a + 1).
Proof.
  intros Ha. rewrite (to_double_big a Ha). cbn zeta.
  destruct (to_double_shape a Ha) as (Hs & Hq & Hr & Hdm & Hh & Hh0).
  set (shift := Z.log2 a - 52) in *.
  set (q := a / 2 ^ shift) in *. set (r := a mod 2 ^ shift) in *.
  set (half := 2 ^ (shift - 1)) in *.
  set (q' := if (half <? r) || ((r =? half) && Z.odd q) then q + 1 else q).
  assert (Hq' : q <= q' <= 2 ^ 53)
    by (subst q'; destruct ((half <? r) || ((r =? half) && Z.odd q)); lia).
  destruct (q' * 2 ^ shift <? 2 ^ 1024); [|discriminate]. intros [= <-].
  assert (E1 : 2 ^ Z.log2 a = 2 ^ 52 * 2 ^ shift).
  { rewrite <- Z.pow_add_r by lia. f_equal. unfold shift. lia. }
  assert (E2 : 2 ^ (Z.log2 a + 1) = 2 ^ 53 * 2 ^ shift).
  { rewrite <- Z.pow_add_r by lia. f_equal. unfold shift. lia. }
  rewrite E1, E2.
  assert (0 < 2 ^ shift) by lia.
  split; apply Z.mul_le_mono_nonneg_r; lia.
Qed.

(** Rounding to the nearest double keeps the order. *)
Lemma to_double_monotone a b va vb :
  0 <= a <= b -> to_double a = Some va -> to_double b = Some vb -> va <= vb.
Proof.
  intros [Ha Hab] Ea Eb.
  assert (H53 : 0 < 2 ^ 53) by (apply Z.pow_pos_nonneg; lia).
  destruct (Z.lt_ge_cases b (2 ^ 53)) as [Hb|Hb].
  { rewrite to_double_less in Ea, Eb by lia. congruence. }
  pose proof (to_double_binade b vb Hb Eb) as [Hlo_b _].
  assert (Hpb : 0 < b) by lia.
  destruct (Z.log2_spec b Hpb) as [Lb Ub].
  assert (Heb : 53 <= Z.log2 b).
  { replace 53 with (Z.log2 (2 ^ 53)) by (apply Z.log2_pow2; lia).
    apply Z.log2_le_mono. exact Hb. }
  destruct (Z.lt_ge_cases a (2 ^ 53)) as [Ha53|Ha53].
  { rewrite to_double_less in Ea by lia. injection Ea as <-.
    apply Z.le_trans with (2 ^ Z.log2 b); [|exact Hlo_b].
    apply Z.le_trans with (2 ^ 53); [lia|]. apply Z.pow_le_mono_r; lia. }
  pose proof (to_double_binade a va Ha53 Ea) as [_ Hhi_a].
  assert (Hle : Z.log2 a <= Z.log2 b) by (apply Z.log2_le_mono; exact Hab).
  destruct (Z.eq_dec (Z.log2 a) (Z.log2 b)) as [Heq|Hne].
  2:{ apply Z.le_trans with (2 ^ (Z.log2 a + 1)); [exact Hhi_a|].
      apply Z.le_trans with (2 ^ Z.log2 b); [|exact Hlo_b].
      apply Z.pow_le_mono_r; lia. }
  rewrite (to_double_big a Ha53) in Ea. rewrite (to_double_big b Hb) in Eb.
  cbn zeta in Ea, Eb. rewrite Heq in Ea.
  destruct (to_double_shape a Ha53) as (Hs & Hqa & Hra & Hdma & Hh & Hh0).
  destruct (to_double_shape b Hb) as (_ & Hqb & Hrb & Hdmb & _ & _).
  rewrite Heq in Hs, Hqa, Hra, Hdma, Hh, Hh0.
  set (shift := Z.log2 b - 52) in *.
  set (qa := a / 2 ^ shift) in *. set (ra := a mod 2 ^ shift) in *.
  set (qb := b / 2 ^ shift) in *. set (rb := b mod 2 ^ shift) in *.
  set (half := 2 ^ (shift - 1)) in *.
  set (qa' := if (half <? ra) || ((ra =? half) && Z.odd qa)
              then qa + 1 else qa) in *.
  set (qb' := if (half <? rb) || ((rb =? half) && Z.odd qb)
              then qb + 1 else qb) in *.
  destruct (qa' * 2 ^ shift <? 2 ^ 1024); [|discriminate].
  destruct (qb' * 2 ^ shift <? 2 ^ 1024); [|discriminate].
  injection Ea as <-. injection Eb as <-.
  assert (Hp : 0 < 2 ^ shift) by lia.
  apply Z.mul_le_mono_nonneg_r; [lia|].
  assert (Hq : qa <= qb) by (apply Z.div_le_mono; lia).
  assert (Hqa' : qa <= qa' <= qa + 1)
    by (subst qa'; destruct ((half <? ra) || ((ra =? half) && Z.odd qa)); lia).
  assert (Hqb' : qb <= qb')
    by (subst qb'; destruct ((half <? rb) || ((rb =? half) && Z.odd qb)); lia).
  destruct (Z.eq_dec qa qb) as [Hsame|Hless]; [|lia].
  assert (Hr : ra <= rb) by nia.
  subst qa' qb'. rewrite <- Hsame.
  assert (Hflag : (half <? ra) || ((ra =? half) && Z.odd qa) = true ->
                  (half <? rb) || ((rb =? half) && Z.odd qa) = true).
  { rewrite !orb_true_iff, !andb_true_iff, !Z.ltb_lt, !Z.eqb_eq.
    intros [H1|[H1 H2]]; [left; lia|].
    destruct (Z.eq_dec rb half); [right; auto|left; lia]. }
  destruct ((half <? ra) || ((ra =? half) && Z.odd qa)).
  - rewrite (Hflag eq_refl). lia.
  - destruct ((half <? rb) || ((rb =? half) && Z.odd qa)); lia.
Qed.

Lemma to_double_limit a v : to_double a = Some v -> 0 <= a -> v < 2 ^ 1024.
Proof.
  intros E Ha.
  destruct (Z.lt_ge_cases a (2 ^ 53)) as [H|H].
  - rewrite to_double_less in E by lia. injection E as <-.
    apply Z.lt_trans with (2 ^ 53); [exact H|].
    apply Z.pow_lt_mono_r; lia.
  - rewrite (to_double_big a H) in E. cbn zeta in E.
    match type of E with
    | (if ?c then _ else _) = _ => destruct c eqn:C; [|discriminate]
    end.
    injection E as <-. apply Z.ltb_lt. exact C.
Qed.

Lemma to_double_overflow a : FABS_LIMIT <= a -> to_double a = None.
Proof.
  unfold FABS_LIMIT. intros Ha.
  assert (H970 : 0 < 2 ^ 970) by (apply Z.pow_pos_nonneg; lia).
  assert (H53 : 2 ^ 53 < 2 ^ 1024 - 2 ^ 970).
  { assert (2 ^ 53 < 2 ^ 970) by (apply Z.pow_lt_mono_r; lia).
    assert (2 * 2 ^ 970 <= 2 ^ 1024).
    { change (2 * 2 ^ 970) with (2 ^ 1 * 2 ^ 970).
      rewrite <- Z.pow_add_r by lia. apply Z.pow_le_mono_r; lia. }
    lia. }
  assert (Hbig : 2 ^ 53 <= a) by lia.
  destruct (to_double a) as [v|] eqn:E; [exfalso|reflexivity].
  pose proof (to_double_limit a v E ltac:(lia)) as Hv.
  pose proof (to_double_binade a v Hbig E) as [Hlo _].
  assert (Hlog : Z.log2 a < 1024).
  { apply Z.nle_gt. intros Hge.
    assert (2 ^ 1024 <= 2 ^ Z.log2 a) by (apply Z.pow_le_mono_r; lia). lia. }
  assert (Hlog' : 1023 <= Z.log2 a).
  { apply Z.log2_le_pow2; [lia|].
    assert (2 ^ 1024 = 2 * 2 ^ 1023).
    { change (2 * 2 ^ 1023) with (2 ^ 1 * 2 ^ 1023).
      rewrite <- Z.pow_add_r by lia. reflexivity. }
    assert (2 ^ 970 < 2 ^ 1023) by (apply Z.pow_lt_mono_r; lia). lia. }
  assert (Hlog1 : Z.log2 a = 1023) by lia.
  rewrite (to_double_big a Hbig) in E. cbn zeta in E.
  destruct (to_double_shape a Hbig) as (Hs & Hq & Hr & Hdm & Hh & Hh0).
  rewrite Hlog1 in *. change (1023 - 52) with 971 in *.
  change (971 - 1) with 970 in *.
  set (q := a / 2 ^ 971) in *. set (r := a mod 2 ^ 971) in *.
  assert (E1 : 2 ^ 1024 = 2 ^ 53 * 2 ^ 971).
  { rewrite <- Z.pow_add_r by lia. reflexivity. }
  assert (Hq1 : q = 2 ^ 53 - 1).
  { rewrite E1 in Ha. set (P := 2 ^ 971) in *. set (K := 2 ^ 53) in *.
    set (half := 2 ^ 970) in *. clearbody P K half q r. nia. }
  assert (Hr1 : 2 ^ 970 <= r).
  { rewrite E1 in Ha. set (P := 2 ^ 971) in *. set (K := 2 ^ 53) in *.
    set (half := 2 ^ 970) in *. clearbody P K half q r. nia. }
  assert (Hodd : Z.odd q = true) by (rewrite Hq1; vm_compute; reflexivity).
  assert (Hflag : (2 ^ 970 <? r) || ((r =? 2 ^ 970) && Z.odd q) = true).
  { rewrite Hodd, andb_true_r, orb_true_iff, Z.ltb_lt, Z.eqb_eq. lia. }
  rewrite Hflag in E.
  replace ((q + 1) * 2 ^ 971) with (2 ^ 1024) in E by (rewrite E1, Hq1; lia).
  rewrite Z.ltb_irrefl in E. discriminate.
Qed.

Lemma fabs_overflow x :
  fabs x = Raise OverflowError <-> FABS_LIMIT <= Z.abs x.
Proof.
  unfold fabs. split.
  - destruct (Z.lt_ge_cases (Z.abs x) FABS_LIMIT) as [H|H]; [|auto].
    pose proof (to_double_in_range (Z.abs x)) as Hin. unfold FABS_LIMIT in H.
    destruct (to_double (Z.abs x)); [discriminate|].
    exfalso. apply Hin; [|reflexivity]. split; [apply Z.abs_nonneg|exact H].
  - intros H. rewrite (to_double_overflow _ H). reflexivity.
Qed.

Section ClientFacts.

Variable int_of_str : pystr -> option Z.
Variable W : Type.
Variable send : pystr -> W -> outcome W.
Variable receive : W -> outcome (pystr * W).
Variable secret : Z.

Local Notation client := (ClientSession.mk send receive secret).

(** X15.  The distance at which [report_outcome] gives up: the call raises
    [OverflowError] exactly when the guess is [2^1024 - 2^970] or more away
    from the secret (nothing is sent then), and for every nearer guess
    [math.fabs] returns and the report is sent. *)
Theorem report_outcome_overflows_from_limit :
  forall (last : option Z) (number : Z) (w : W),
    (fabs (number - secret) = Raise OverflowError <->
     FABS_LIMIT <= Z.abs (number - secret))
    /\ (FABS_LIMIT <= Z.abs (number - secret) ->
        ClientSession.report_outcome (client last) number w =
          Raise OverflowError)
    /\ (Z.abs (number - secret) < FABS_LIMIT ->
        exists distance decision,
          fabs (number - secret) = Ok distance
          /\ ClientSession.report_outcome (client last) number w =
               (w' <- send (lit "REPORT " ++ decision_text decision) w ;;
                Ok (decision, client (Some distance), w'))).
Proof.
  intros last number w. split; [apply fabs_overflow|]. split.
  - intros H. apply fabs_overflow in H.
    unfold ClientSession.report_outcome. cbn [ClientSession.secret].
    rewrite H. reflexivity.
  - intros H. destruct (fabs_in_range _ H) as [distance Hd].
    unfold ClientSession.report_outcome.
    cbn [ClientSession.secret ClientSession.last_distance ClientSession.send
         ClientSession.receive].
    rewrite Hd. cbn [bind]. eexists. eexists. split; reflexivity.
Qed.

(** X16.  Rounding never turns a comparison around: when the last distance
    is the one [math.fabs] gave for an earlier guess, [Warmer] is only
    reported for a guess that is strictly nearer to the secret than that
    one, and [Colder] only for one that is strictly farther away, however
    large the numbers. *)
Theorem decision_is_never_inverted :
  forall (previous number last : Z) (w w' : W) (decision : Decision)
         (self' : ClientSession.t W),
    fabs (previous - secret) = Ok last ->
    ClientSession.report_outcome (client (Some last)) number w =
      Ok (decision, self', w') ->
    (decision = Warmer ->
     Z.abs (number - secret) < Z.abs (previous - secret))
    /\ (decision = Colder ->
        Z.abs (previous - secret) < Z.abs (number - secret)).
Proof.
  intros previous number last w w' decision self' Hlast.
  unfold ClientSession.report_outcome.
  cbn [ClientSession.secret ClientSession.last_distance ClientSession.send].
  destruct (fabs (number - secret)) as [new| | |] eqn:Hnew; cbn [bind];
    try discriminate.
  destruct (send _ w) as [w1| | |]; cbn [bind]; try discriminate.
  intros [= <- _ _].
  revert Hlast Hnew. unfold fabs.
  destruct (to_double (Z.abs (previous - secret))) as [l|] eqn:El;
    [|discriminate].
  destruct (to_double (Z.abs (number - secret))) as [n|] eqn:En;
    [|discriminate].
  intros [= <-] [= <-].
  pose proof (Z.abs_nonneg (previous - secret)) as Hp.
  pose proof (Z.abs_nonneg (number - secret)) as Hn.
  destruct (n =? 0); [split; discriminate|].
  destruct (Z.ltb_spec n l) as [Hlt|Hge].
  - split; [intros _|discriminate].
    apply Z.nle_gt. intros Hle.
    pose proof (to_double_monotone _ _ _ _ (conj Hp Hle) El En). lia.
  - destruct (Z.gtb_spec n l) as [Hgt|Hle]; [|split; discriminate].
    split; [discriminate|intros _].
    apply Z.nle_gt. intros Hle.
    pose proof (to_double_monotone _ _ _ _ (conj Hn Hle) En El). lia.
Qed.

Lemma iter_shape rounds : forall last w results final,
  ClientSession.iter int_of_str rounds (client last) w = (results, final) ->
  match final with
  | Ok _ => ends_correct secret results
  | _ => Forall (fun r => fst r <> secret /\ snd r <> Correct) results
  end.
Proof.
  induction rounds as [|rounds IH]; intros last w results final.
  - cbn [ClientSession.iter]. intros [= <- <-]. constructor.
  - cbn [ClientSession.iter].
    destruct (ClientSession.request_number int_of_str (client last) w)
      as [[number w1]| | |]; try (intros [= <- <-]; constructor).
    destruct (ClientSession.report_outcome (client last) number w1)
      as [[[decision self'] w2]| | |] eqn:Ho;
      try (intros [= <- <-]; constructor).
    destruct (report_outcome_ok _ _ _ _ _ _ Ho)
      as (Hcorrect & _ & Hsec & Hsend & Hrecv & (d & Hd)).
    cbn [ClientSession.secret ClientSession.send ClientSession.receive]
      in Hcorrect, Hsec, Hsend, Hrecv.
    destruct self' as [send' receive' secret' last'].
    cbn [ClientSession.secret ClientSession.send ClientSession.receive
         ClientSession.last_distance] in Hsec, Hsend, Hrecv, Hd.
    subst send' receive' secret' last'.
    destruct (is_correct decision) eqn:Hic.
    + assert (Hd' : decision = Correct)
        by (destruct decision; try discriminate; reflexivity).
      intros [= <- <-]. exists []. split; [|constructor].
      rewrite Hd', (proj1 Hcorrect Hd'). reflexivity.
    + assert (Hnc : decision <> Correct) by (intros ->; discriminate).
      assert (Hne : number <> secret)
        by (intros E; apply Hcorrect in E; contradiction).
      destruct (ClientSession.iter int_of_str rounds (client (Some d)) w2)
        as [later final'] eqn:Hi.
      intros [= <- <-]. specialize (IH _ _ _ _ Hi).
      destruct final' as [x| | |];
        try (constructor; [split; assumption|exact IH]).
      destruct IH as (earlier & -> & Hall).
      exists ((number, decision) :: earlier). split; [reflexivity|].
      constructor; [split; assumption|exact Hall].
Qed.

(** X17.  The iteration of a client session stops at the first [Correct]
    and only there, whatever is at the other end: the pairs yielded before
    the last hold numbers other than the secret and decisions other than
    [Correct]; an iteration that finishes ends with the secret and
    [Correct]; one that fails has yielded no [Correct] at all. *)
Theorem iteration_stops_at_correct :
  forall (rounds : nat) (w : W) (results : list (Z * Decision))
         (final : outcome (ClientSession.t W * W)),
    ClientSession.iter int_of_str rounds
      (ClientSession.init send receive secret) w = (results, final) ->
    ((exists end_state, final = Ok end_state) ->
     ends_correct secret results)
    /\ ((forall end_state, final <> Ok end_state) ->
        Forall (fun r => fst r <> secret /\ snd r <> Correct) results).
Proof.
  intros rounds w results final H. apply iter_shape in H.
  destruct final as [x| | |]; split; try (intros _; exact H).
  - intros Hno. exfalso. exact (Hno x eq_refl).
  - intros [x Hx]. discriminate.
  - intros [x Hx]. discriminate.
  - intros [x Hx]. discriminate.
Qed.

End ClientFacts.

Lemma decision_is_never_inverted_witness :
  (Colder = Warmer -> Z.abs (9 - 5) < Z.abs (7 - 5))
  /\ (Colder = Colder -> Z.abs (7 - 5) < Z.abs (9 - 5)).
Proof.
  apply (decision_is_never_inverted (list pystr) record_send never_receive 5
           7 9 2 [] [lit "REPORT Colder"] Colder
           (ClientSession.mk record_send never_receive 5 (Some 4)));
    reflexivity.
Defined.

Lemma iteration_stops_at_correct_witness :
  let game :=
    ClientSession.iter int_ascii 3
      (ClientSession.init script_send script_receive 5)
      ([], [lit "7"; lit "5"]) in
  ((exists end_state, snd game = Ok end_state) ->
   ends_correct 5 [(7, Unsure); (5, Correct)])
  /\ ((forall end_state, snd game <> Ok end_state) ->
      Forall (fun r => fst r <> 5 /\ snd r <> Correct)
        [(7, Unsure); (5, Correct)]).
Proof.
  apply (iteration_stops_at_correct int_ascii _ script_send script_receive 5
           3 ([], [lit "7"; lit "5"]) [(7, Unsure); (5, Correct)]).
  vm_compute. reflexivity.
Defined.

Section ClientScript.

Variable int_of_str : pystr -> option Z.
Variable secret : Z.

Local Notation scripted :=
  (ClientSession.mk script_send script_receive secret).
Local Notation round_commands :=
  (fun r : Z * Decision =>
     [lit "NUMBER"; lit "REPORT " ++ decision_text (snd r)]).

Lemma iter_script rounds : forall last sent replies results self sent' rest,
  ClientSession.iter int_of_str rounds (scripted last) (sent, replies) =
    (results, Ok (self, (sent', rest))) ->
  sent' = sent ++ concat (map round_commands results)
  /\ map int_of_str (firstn (length results) replies) =
       map (fun r => Some (fst r)) results
  /\ rest = skipn (length results) replies.
Proof.
  induction rounds as [|rounds IH];
    intros last sent replies results self sent' rest; [discriminate|].
  cbn [ClientSession.iter]. unfold ClientSession.request_number.
  cbn [ClientSession.send ClientSession.receive].
  unfold script_send at 1. cbn [bind fst snd]. unfold script_receive at 1.
  cbn [fst snd].
  destruct replies as [|reply later]; cbn [bind]; [discriminate|].
  unfold int. destruct (int_of_str reply) as [number|] eqn:Hint;
    cbn [bind]; [|discriminate].
  unfold ClientSession.report_outcome.
  cbn [ClientSession.send ClientSession.receive ClientSession.secret
       ClientSession.last_distance].
  destruct (fabs (number - secret)) as [distance| | |]; cbn [bind];
    try discriminate.
  unfold script_send at 1. cbn [bind fst snd].
  match goal with
  | |- context [decision_text ?d] => set (decision := d)
  end.
  destruct (is_correct decision).
  - intros [= <- _ <- <-]. cbn [map concat length firstn skipn fst snd].
    rewrite Hint, app_nil_r, <- app_assoc. repeat split.
  - match goal with
    | |- context [ClientSession.iter int_of_str rounds ?s ?w] =>
        destruct (ClientSession.iter int_of_str rounds s w)
          as [later_results final] eqn:Hi
    end.
    intros [= <- ->].
    destruct (IH _ _ _ _ _ _ _ Hi) as (-> & Hparsed & ->).
    cbn [map concat length firstn skipn fst snd].
    rewrite Hint, Hparsed, <- !app_assoc. repeat split.
Qed.

(** X18.  What a client session sends and reads: in an iteration that
    finishes, each round sends [NUMBER] and then [REPORT] with the decision
    it yields, nothing else is sent, and each round reads exactly one
    reply, the numeral of the number it yields; replies beyond the round
    that is [Correct] are left unread. *)
Theorem client_sends_number_then_report :
  forall (rounds : nat) (replies : list pystr)
         (results : list (Z * Decision))
         (self : ClientSession.t (list pystr * list pystr))
         (sent rest : list pystr),
    ClientSession.iter int_of_str rounds
      (ClientSession.init script_send script_receive secret) ([], replies) =
      (results, Ok (self, (sent, rest))) ->
    sent = concat (map round_commands results)
    /\ map int_of_str (firstn (length results) replies) =
         map (fun r => Some (fst r)) results
    /\ rest = skipn (length results) replies.
Proof.
  intros rounds replies results self sent rest H.
  apply (iter_script rounds None [] replies results self sent rest H).
Qed.

End ClientScript.

Lemma client_sends_number_then_report_witness :
  [lit "NUMBER"; lit "REPORT Unsure"; lit "NUMBER"; lit "REPORT Correct"] =
    concat
      (map (fun r : Z * Decision =>
              [lit "NUMBER"; lit "REPORT " ++ decision_text (snd r)])
         [(7, Unsure); (5, Correct)])
  /\ map int_ascii (firstn (length [(7, Unsure); (5, Correct)])
                      [lit "7"; lit "5"; lit "9"]) =
       map (fun r => Some (fst r)) [(7, Unsure); (5, Correct)]
  /\ [lit "9"] =
       skipn (length [(7, Unsure); (5, Correct)]) [lit "7"; lit "5"; lit "9"].
Proof.
  apply (client_sends_number_then_report int_ascii 5 3
           [lit "7"; lit "5"; lit "9"] [(7, Unsure); (5, Correct)]
           (ClientSession.mk script_send script_receive 5 (Some 0))
           [lit "NUMBER"; lit "REPORT Unsure"; lit "NUMBER";
            lit "REPORT Correct"]
           [lit "9"]).
  vm_compute. reflexivity.
Defined.

(** * Several games over one connection *)

Section Settling.

Variable int_of_str : pystr -> option Z.
Variable rng : nat -> Z.
Variable fuel : nat.

Local Notation take := (absorb1 int_of_str rng fuel).
Local Notation model := (settled_session int_of_str rng fuel).

(** A protocol state with nothing in flight and the handler waiting. *)
Local Notation at_rest lo hi sec gs pos :=
  (Threaded.mk (Connection.mk [] false [])
     (ServerSession.mk (Connection.mk [] false []) lo hi sec gs)
     Blocked pos 0).

Lemma request_number_settles secret last v number v1 :
  quiet v ->
  ClientSession.request_number int_of_str (model secret last) v =
    Ok (number, v1) ->
  exists lo hi sec gs guess pos, v1 = at_rest lo hi sec (gs ++ [guess]) pos.
Proof.
  intros Hq. unfold ClientSession.request_number, settled_session.
  cbn [ClientSession.send ClientSession.receive].
  change (lit "NUMBER") with (render NUMBER). unfold settled_send.
  cbn [bind].
  pose proof (quiet_number int_of_str rng fuel v Hq) as Hn.
  destruct (settled_receive (take v (render NUMBER))) as [[text v']| | |];
    cbn [bind]; try discriminate.
  destruct (int int_of_str text); cbn [bind]; try discriminate.
  intros [= _ <-].
  destruct Hn as (_ & _ & guess & pos' & _ & _ & ->).
  do 6 eexists. reflexivity.
Qed.

Lemma report_outcome_settles secret last number lo hi sec gs guess pos
    decision self v2 :
  ClientSession.report_outcome (model secret last) number
    (at_rest lo hi sec (gs ++ [guess]) pos) = Ok (decision, self, v2) ->
  (exists distance, self = model secret (Some distance))
  /\ exists sec', v2 = at_rest lo hi sec' (gs ++ [guess]) pos.
Proof.
  unfold ClientSession.report_outcome, settled_session.
  cbn [ClientSession.send ClientSession.receive ClientSession.secret
       ClientSession.last_distance].
  destruct (fabs (number - secret)) as [distance| | |]; cbn [bind];
    try discriminate.
  match goal with
  | |- context [decision_text ?d] => set (verdict := d)
  end.
  change (lit "REPORT " ++ decision_text verdict)
    with (render (REPORT verdict)).
  unfold settled_send, absorb1.
  cbn [bind Threaded.handler Threaded.session Threaded.random_pos
       Threaded.client_end].
  rewrite dispatch_report, receive_report_text.
  cbn [ServerSession.guesses]. rewrite last_item_app.
  destruct (is_correct verdict); cbn [bind]; intros [= _ <- <-];
    (split; [exists distance; reflexivity|eexists; reflexivity]).
Qed.

Lemma iter_settles secret rounds : forall last v results self v',
  quiet v ->
  ClientSession.iter int_of_str rounds (model secret last) v =
    (results, Ok (self, v')) ->
  exists lo hi sec gs pos, v' = at_rest lo hi sec gs pos.
Proof.
  induction rounds as [|rounds IH]; intros last v results self v' Hq;
    [discriminate|].
  cbn [ClientSession.iter].
  destruct (ClientSession.request_number int_of_str (model secret last) v)
    as [[number v1]| | |] eqn:Er; try discriminate.
  destruct (request_number_settles _ _ _ _ _ Hq Er)
    as (lo & hi & sec & gs & guess & pos & ->).
  destruct (ClientSession.report_outcome (model secret last) number _)
    as [[[decision self1] v2]| | |] eqn:Eo; try discriminate.
  destruct (report_outcome_settles _ _ _ _ _ _ _ _ _ _ _ _ Eo)
    as ((distance & ->) & sec' & ->).
  destruct (is_correct decision).
  - intros [= _ _ <-]. do 5 eexists. reflexivity.
  - destruct (ClientSession.iter int_of_str rounds
                (model secret (Some distance)) _) as [later final] eqn:Ei.
    intros [= _ ->].
    assert (Hq2 : quiet (at_rest lo hi sec' (gs ++ [guess]) pos))
      by (repeat split).
    exact (IH _ _ _ _ _ Hq2 Ei).
Qed.

(** A game that returns leaves the server as a new connection finds it. *)
Lemma settled_play_returns lower upper secret v results v' :
  quiet v ->
  settled_play int_of_str rng fuel lower upper secret v = Ok (results, v') ->
  exists pos', v' = Threaded.connected pos'.
Proof.
  intros Hq. unfold settled_play, settled_send. cbn [bind].
  unfold ClientSession.collect.
  destruct (ClientSession.iter int_of_str fuel (model secret None) _)
    as [rs [[self v2]| | |]] eqn:Ei; cbn [bind]; try discriminate.
  destruct (iter_settles _ _ _ _ _ _ _
              (quiet_params int_of_str rng fuel v lower upper Hq) Ei)
    as (lo & hi & sec & gs & pos & ->).
  intros [= _ <-]. exists pos. reflexivity.
Qed.

End Settling.

Section RunSimulation.

Variable int_of_str : pystr -> option Z.
Variable rng : nat -> Z.
Variable fuel : nat.
Variable W : Type.
Variable send1 : pystr -> W -> outcome W.
Variable recv1 : W -> outcome (pystr * W).
Variable sleep1 : W -> W.
Variable corr : W -> Threaded.World -> Prop.

Local Notation take := (absorb1 int_of_str rng fuel).

Hypothesis Hsend : forall w v c,
  corr w v ->
  exists w', send1 (render c) w = Ok w' /\ corr w' (take v (render c)).
Hypothesis Hrecv : forall w v,
  corr w v -> awaitable v -> agree corr (recv1 w) (settled_receive v).
Hypothesis Hsleep : forall w v, corr w v -> corr (sleep1 w) v.

(** One game in a world. *)
Local Notation game lower upper secret w :=
  (w1 <- send1 (render (PARAMS lower upper)) w ;;
   '(a, w2) <- ClientSession.collect int_of_str fuel
                 (ClientSession.init send1 recv1 secret) w1 ;;
   w3 <- send1 (render CLEAR) (sleep1 w2) ;;
   Ok (a, w3)).

Lemma game_sim_state lower upper secret w v :
  corr w v -> quiet v ->
  related (fun x y => fst x = fst y /\ corr (snd x) (snd y))
    (game lower upper secret w)
    (settled_play int_of_str rng fuel lower upper secret v).
Proof.
  intros Hc Hq. unfold settled_play, settled_send, ClientSession.init.
  destruct (Hsend w v (PARAMS lower upper) Hc) as (w1 & -> & Hc1).
  cbn [bind].
  pose proof (collect_sim int_of_str rng fuel W send1 recv1 corr Hsend Hrecv
                secret fuel None w1 _ Hc1
                (quiet_params int_of_str rng fuel v lower upper Hq)) as Hg.
  unfold settled_session in *.
  destruct (ClientSession.collect int_of_str fuel
              (ClientSession.mk send1 recv1 secret None) w1)
    as [[a w2]|e| |];
    destruct (ClientSession.collect int_of_str fuel
                (ClientSession.mk (settled_send int_of_str rng fuel)
                   settled_receive secret None) _)
      as [[a' v2]|e'| |];
    cbn [related] in Hg; try contradiction; cbn [bind related];
    try exact I; try assumption.
  cbn [fst snd] in Hg. destruct Hg as [<- Hc2].
  destruct (Hsend (sleep1 w2) v2 CLEAR (Hsleep w2 v2 Hc2)) as (w3 & -> & Hc3).
  cbn [bind related fst snd]. split; [reflexivity|exact Hc3].
Qed.

Lemma run_sim w v :
  corr w v -> quiet v ->
  results_of
    ('(first, w) <- game 1 5 3 w ;;
     '(second, w) <- game 10 15 12 w ;;
     '(third, w) <- game 1 3 2 w ;;
     Ok ((first ++ second) ++ third, w)) =
    results_of (settled_run int_of_str rng fuel v).
Proof.
  intros Hc Hq. unfold settled_run.
  pose proof (game_sim_state 1 5 3 w v Hc Hq) as H1.
  destruct (settled_play int_of_str rng fuel 1 5 3 v)
    as [[r1 v1]|e1| |] eqn:E1;
    destruct (game 1 5 3 w) as [[r1' w1]|e1'| |];
    cbn [related] in H1; try contradiction; cbn [bind results_of];
    try reflexivity; try (f_equal; assumption).
  cbn [fst snd] in H1. destruct H1 as [-> Hc1].
  destruct (settled_play_returns _ _ _ _ _ _ _ _ _ Hq E1) as [pos1 ->].
  pose proof (game_sim_state 10 15 12 w1 _ Hc1 (connected_quiet pos1)) as H2.
  destruct (settled_play int_of_str rng fuel 10 15 12 _)
    as [[r2 v2]|e2| |] eqn:E2;
    destruct (game 10 15 12 w1) as [[r2' w2]|e2'| |];
    cbn [related] in H2; try contradiction; cbn [bind results_of];
    try reflexivity; try (f_equal; assumption).
  cbn [fst snd] in H2. destruct H2 as [-> Hc2].
  destruct (settled_play_returns _ _ _ _ _ _ _ _ _ (connected_quiet pos1) E2)
    as [pos2 ->].
  pose proof (game_sim_state 1 3 2 w2 _ Hc2 (connected_quiet pos2)) as H3.
  destruct (settled_play int_of_str rng fuel 1 3 2 _)
    as [[r3 v3]|e3| |] eqn:E3;
    destruct (game 1 3 2 w2) as [[r3' w3]|e3'| |];
    cbn [related] in H3; try contradiction; cbn [bind results_of];
    try reflexivity; try (f_equal; assumption).
  cbn [fst snd] in H3. destruct H3 as [-> Hc3]. reflexivity.
Qed.

End RunSimulation.

Section RunRunners.

Variable int_of_str : pystr -> option Z.
Variable rng : nat -> Z.
Variable fuel : nat.

Lemma new_game_extend sched lower upper secret results w :
  Threaded.new_game int_of_str rng sched fuel lower upper secret
    (extend_results int_of_str fuel results) w =
    ('(more, w') <- Threaded.play int_of_str rng sched fuel lower upper
                      secret w ;;
     Ok (results ++ more, w')).
Proof.
  unfold Threaded.play, Threaded.new_game, extend_results.
  destruct (Threaded.send int_of_str rng sched fuel _ w) as [w1| | |];
    cbn [bind]; try reflexivity.
  destruct (ClientSession.collect int_of_str fuel _ w1) as [[more w2]| | |];
    cbn [bind]; reflexivity.
Qed.

Lemma new_async_game_extend lower upper secret results w :
  EventLoop.new_async_game int_of_str rng fuel lower upper secret
    (async_extend_results int_of_str fuel results) w =
    ('(more, w') <- EventLoop.play int_of_str rng fuel lower upper secret w ;;
     Ok (results ++ more, w')).
Proof.
  unfold EventLoop.play, EventLoop.new_async_game, async_extend_results.
  destruct (EventLoop.send _ w) as [w1| | |]; cbn [bind]; try reflexivity.
  destruct (AsyncClientSession.collect int_of_str fuel _ w1)
    as [[more w2]| | |]; cbn [bind]; reflexivity.
Qed.

(** [run_client] is three games in a row. *)
Lemma run_client_games sched w :
  run_client int_of_str rng sched fuel w =
    ('(first, w) <- Threaded.play int_of_str rng sched fuel 1 5 3 w ;;
     '(second, w) <- Threaded.play int_of_str rng sched fuel 10 15 12 w ;;
     '(third, w) <- Threaded.play int_of_str rng sched fuel 1 3 2 w ;;
     Ok ((first ++ second) ++ third, w)).
Proof.
  unfold run_client.
  change (Threaded.new_game int_of_str rng sched fuel 1 5 3
            (ClientSession.collect int_of_str fuel) w)
    with (Threaded.play int_of_str rng sched fuel 1 5 3 w).
  destruct (Threaded.play int_of_str rng sched fuel 1 5 3 w)
    as [[first w1]| | |]; cbn [bind]; try reflexivity.
  rewrite new_game_extend.
  destruct (Threaded.play int_of_str rng sched fuel 10 15 12 w1)
    as [[second w2]| | |]; cbn [bind]; try reflexivity.
  rewrite new_game_extend.
  destruct (Threaded.play int_of_str rng sched fuel 1 3 2 w2)
    as [[third w3]| | |]; reflexivity.
Qed.

Lemma run_async_client_games w :
  run_async_client int_of_str rng fuel w =
    ('(first, w) <- EventLoop.play int_of_str rng fuel 1 5 3 w ;;
     '(second, w) <- EventLoop.play int_of_str rng fuel 10 15 12 w ;;
     '(third, w) <- EventLoop.play int_of_str rng fuel 1 3 2 w ;;
     Ok ((first ++ second) ++ third, w)).
Proof.
  unfold run_async_client.
  change (EventLoop.new_async_game int_of_str rng fuel 1 5 3
            (AsyncClientSession.collect int_of_str fuel) w)
    with (EventLoop.play int_of_str rng fuel 1 5 3 w).
  destruct (EventLoop.play int_of_str rng fuel 1 5 3 w)
    as [[first w1]| | |]; cbn [bind]; try reflexivity.
  rewrite new_async_game_extend.
  destruct (EventLoop.play int_of_str rng fuel 10 15 12 w1)
    as [[second w2]| | |]; cbn [bind]; try reflexivity.
  rewrite new_async_game_extend.
  destruct (EventLoop.play int_of_str rng fuel 1 3 2 w2)
    as [[third w3]| | |]; reflexivity.
Qed.

Lemma run_client_settled sched pos :
  results_of (run_client int_of_str rng sched fuel (Threaded.connected pos)) =
    results_of (settled_run int_of_str rng fuel (Threaded.connected pos)).
Proof.
  rewrite run_client_games. unfold Threaded.play, Threaded.new_game.
  apply (run_sim int_of_str rng fuel Threaded.World
           (Threaded.send int_of_str rng sched fuel)
           (Threaded.receive int_of_str rng fuel)
           (Threaded.sleep int_of_str rng sched fuel)
           (corresponds int_of_str rng fuel)).
  - intros w v c. apply corresponds_send.
  - intros w v. apply corresponds_receive.
  - intros w v. apply corresponds_preempt.
  - apply connected_corresponds.
  - apply connected_quiet.
Qed.

End RunRunners.

Section AsyncRun.

Variable int_of_str : pystr -> option Z.
Variable rng : nat -> Z.
Variable fuel : nat.

Local Notation async_game lower upper secret w :=
  (w1 <- EventLoop.send (render (PARAMS lower upper)) w ;;
   '(a, w2) <- ClientSession.collect int_of_str fuel
                 (ClientSession.init EventLoop.send
                    (EventLoop.receive int_of_str rng fuel) secret) w1 ;;
   w3 <- EventLoop.send (render CLEAR)
           (EventLoop.sleep int_of_str rng fuel w2) ;;
   Ok (a, w3)).

Lemma async_play_game lower upper secret w :
  EventLoop.play int_of_str rng fuel lower upper secret w =
    async_game lower upper secret w.
Proof.
  unfold EventLoop.play, EventLoop.new_async_game.
  change (lit "PARAMS " ++ str lower ++ lit " " ++ str upper)
    with (render (PARAMS lower upper)).
  destruct (EventLoop.send (render (PARAMS lower upper)) w) as [w1| | |];
    cbn [bind]; try reflexivity.
  rewrite sync_collect. reflexivity.
Qed.

Lemma run_async_client_settled pos :
  results_of
    (run_async_client int_of_str rng fuel (EventLoop.connected pos)) =
    results_of (settled_run int_of_str rng fuel (Threaded.connected pos)).
Proof.
  rewrite run_async_client_games.
  transitivity
    (results_of
       ('(first, w) <- async_game 1 5 3 (EventLoop.connected pos) ;;
        '(second, w) <- async_game 10 15 12 w ;;
        '(third, w) <- async_game 1 3 2 w ;;
        Ok ((first ++ second) ++ third, w))).
  { rewrite (async_play_game 1 5 3).
    destruct (async_game 1 5 3 (EventLoop.connected pos))
      as [[first w1]| | |]; cbn [bind]; try reflexivity.
    rewrite (async_play_game 10 15 12).
    destruct (async_game 10 15 12 w1) as [[second w2]| | |]; cbn [bind];
      try reflexivity.
    rewrite (async_play_game 1 3 2). reflexivity. }
  apply (run_sim int_of_str rng fuel EventLoop.World
           EventLoop.send
           (EventLoop.receive int_of_str rng fuel)
           (EventLoop.sleep int_of_str rng fuel)
           (fun w v => corresponds int_of_str rng fuel (sync_world w) v)).
  - intros w v c. apply async_send_corresponds.
  - intros w v. apply async_receive_corresponds.
  - intros w v. apply async_sleep_corresponds.
  - apply connected_corresponds.
  - apply connected_quiet.
Qed.

End AsyncRun.

(** X19.  The threads do not race: whenever the handler thread gets to
    run, [run_client] returns the same list of outcomes, or fails in the
    same way, for the same draws. *)
Theorem run_client_ignores_scheduling :
  forall (int_of_str : pystr -> option Z) (rng : nat -> Z)
         (sched sched' : nat -> bool) (fuel : nat) (pos : nat),
    results_of (run_client int_of_str rng sched fuel (Threaded.connected pos)) =
      results_of
        (run_client int_of_str rng sched' fuel (Threaded.connected pos)).
Proof.
  intros. rewrite !run_client_settled. reflexivity.
Qed.

(** X20.  The port to coroutines keeps the behaviour of the whole client:
    for the same draws [run_async_client] returns the list [run_client]
    returns, over all three games, or fails in the same way. *)
Theorem run_async_client_is_run_client :
  forall (int_of_str : pystr -> option Z) (rng : nat -> Z)
         (sched : nat -> bool) (fuel : nat) (pos : nat),
    results_of
      (run_async_client int_of_str rng fuel (EventLoop.connected pos)) =
      results_of (run_client int_of_str rng sched fuel (Threaded.connected pos)).
Proof.
  intros. rewrite run_client_settled, run_async_client_settled. reflexivity.
Qed.

Section FairGames.

Variable int_of_str : pystr -> option Z.
Variable rng : nat -> Z.
Variables lower upper secret : Z.

Hypothesis Hint : forall z, int_of_str (str z) = Some z.

Local Notation model fuel := (settled_session int_of_str rng fuel secret).
Local Notation board guesses :=
  (ServerSession.mk (Connection.mk [] false []) (Some lower) (Some upper)
     None guesses).
Local Notation verdict last distance :=
  (match last with
   | None => Unsure
   | Some l =>
       if distance <? l then Warmer
       else if distance >? l then Colder
       else Same
   end).



Hypothesis Hsecret : lower <= secret <= upper.
Hypothesis Hlimit : upper - lower < FABS_LIMIT.
Hypothesis Hfair : fair rng lower upper.



End FairGames.




(** The three games of [run_client] with the draws 0, 1, 2, ... *)
Example run_client_runs :
  results_of
    (run_client int_ascii counting (fun _ => false) 6 (Threaded.connected 0)) =
    Ok [(1, Unsure); (2, Warmer); (3, Correct);
        (13, Unsure); (14, Colder); (15, Colder); (10, Warmer);
        (11, Warmer); (12, Correct);
        (1, Unsure); (2, Correct)].
Proof. vm_compute. reflexivity. Qed.

(** * The iterator of [bad_example_3] *)

Lemma async_iterator_collect n : forall (c : Z) (fuel : nat),
  n = Z.to_nat (3 - c) -> (n < fuel)%nat ->
  AsyncIterator.collect fuel (AsyncIterator.mk c) =
    (Some (map (fun i => c + 1 + Z.of_nat i) (seq 0 n)),
     AsyncIterator.mk (Z.max c 3 + 1)).
Proof.
  induction n as [|n IH]; intros c fuel Hn Hfuel.
  - destruct fuel as [|fuel]; [lia|].
    cbn [AsyncIterator.collect]. unfold AsyncIterator.anext.
    cbn [AsyncIterator.count].
    destruct (Z.gtb_spec (c + 1) 3) as [H|H]; [|lia].
    cbn [seq map]. do 2 f_equal. lia.
  - destruct fuel as [|fuel]; [lia|].
    cbn [AsyncIterator.collect]. unfold AsyncIterator.anext.
    cbn [AsyncIterator.count].
    destruct (Z.gtb_spec (c + 1) 3) as [H|H]; [lia|].
    rewrite (IH (c + 1) fuel) by lia.
    cbn [option_map seq map]. f_equal.
    + f_equal. f_equal; [lia|].
      rewrite <- seq_shift, map_map. apply map_ext. intros i. lia.
    + f_equal. lia.
Qed.

(** X22.  The iterator of [bad_example_3] counts to 3 and can be used
    once: collected from count [c], it yields the integers from [c + 1]
    to 3 in order (1, 2, 3 for a new iterator, nothing once the count has
    reached 3), every call of [__anext__] adds one to the count, also the
    call that stops the iteration, and an iterator that has stopped stops
    again at once. *)
Theorem async_iterator_counts_to_three :
  forall (c : Z) (fuel : nat),
    (Z.to_nat (3 - c) < fuel)%nat ->
    AsyncIterator.collect fuel (AsyncIterator.mk c) =
      (Some (map (fun i => c + 1 + Z.of_nat i) (seq 0 (Z.to_nat (3 - c)))),
       AsyncIterator.mk (Z.max c 3 + 1))
    /\ AsyncIterator.count (snd (AsyncIterator.anext (AsyncIterator.mk c))) =
         c + 1
    /\ (3 <= c ->
        AsyncIterator.anext (AsyncIterator.mk c) =
          (None, AsyncIterator.mk (c + 1))).
Proof.
  intros c fuel Hfuel. split.
  - apply (async_iterator_collect (Z.to_nat (3 - c))); [reflexivity|exact Hfuel].
  - unfold AsyncIterator.anext. cbn [AsyncIterator.count].
    split.
    + destruct (c + 1 >? 3); reflexivity.
    + intros Hc. destruct (Z.gtb_spec (c + 1) 3); [reflexivity|lia].
Qed.

Lemma async_iterator_counts_to_three_witness :
  AsyncIterator.collect 4 (AsyncIterator.mk 0) =
    (Some (map (fun i => 0 + 1 + Z.of_nat i) (seq 0 (Z.to_nat (3 - 0)))),
     AsyncIterator.mk (Z.max 0 3 + 1))
  /\ AsyncIterator.count (snd (AsyncIterator.anext (AsyncIterator.mk 0))) =
       0 + 1
  /\ (3 <= 0 ->
      AsyncIterator.anext (AsyncIterator.mk 0) =
        (None, AsyncIterator.mk (0 + 1))).
Proof.
  apply (async_iterator_counts_to_three 0 4). cbn. lia.
Defined.
